(** * Resilience and credential-lifecycle layer of alfred2

    A shallow embedding of the token manager, the retry executor, the
    directory caches and the timezone tables of the Microsoft Graph
    service, with the properties the design document states about them,
    and of the mail folder tables, the token exchange and the tasks
    service beside them. *)

From Stdlib Require Import List String Ascii ZArith Bool Lia Arith.
From Stdlib Require Import DecimalString DecimalZ DecimalPos Sorted.
From Equations Require Import Equations.
Import ListNotations.

Open Scope string_scope.

(** ** JavaScript values shared by all components *)

Module Js.

(** Property names every plain object inherits from [Object.prototype]
    (Node.js). *)
Definition objectPrototypeKeys : list string :=
  [ "constructor"; "__defineGetter__"; "__defineSetter__"; "hasOwnProperty";
    "__lookupGetter__"; "__lookupSetter__"; "isPrototypeOf";
    "propertyIsEnumerable"; "toString"; "valueOf"; "__proto__";
    "toLocaleString" ].

(** What a property read on a string-valued object literal can give: an own
    string, a member of [Object.prototype] reached through the prototype
    chain, or [undefined]. *)
Inductive value : Type :=
| Str (s : string)
| Proto (name : string)
| Undefined.

Definition value_eqb (a b : value) : bool :=
  match a, b with
  | Str s, Str t => String.eqb s t
  | Proto s, Proto t => String.eqb s t
  | Undefined, Undefined => true
  | _, _ => false
  end.

(** [!v] is [negb (truthy v)]: the empty string and [undefined] are falsy,
    objects and functions are truthy. *)
Definition truthy (v : value) : bool :=
  match v with
  | Str s => negb (String.eqb s "")
  | Proto _ => true
  | Undefined => false
  end.

(** String coercion of a value used as a property key. *)
Definition toPropertyKey (v : value) : string :=
  match v with
  | Str s => s
  | Proto name =>
      if String.eqb name "__proto__" then "[object Object]"
      else if String.eqb name "constructor"
           then "function Object() { [native code] }"
           else "function " ++ name ++ "() { [native code] }"
  | Undefined => "undefined"
  end.

(** A plain object with string values: its own properties in insertion
    order. *)
Definition object := list (string * string).

Fixpoint ownProperty (o : object) (k : string) : option string :=
  match o with
  | [] => None
  | (k', v) :: rest => if String.eqb k' k then Some v else ownProperty rest k
  end.

(** [o[k]]: own properties first, then the prototype chain. *)
Definition getProp (o : object) (k : string) : value :=
  match ownProperty o k with
  | Some v => Str v
  | None => if existsb (String.eqb k) objectPrototypeKeys then Proto k
            else Undefined
  end.

(** [s.toLowerCase()] on the ASCII letters; the other code units are left
    as they are. *)
Definition lowerAscii (c : ascii) : ascii :=
  let n := nat_of_ascii c in
  if (65 <=? n)%nat && (n <=? 90)%nat then ascii_of_nat (n + 32) else c.

Fixpoint toLowerCase (s : string) : string :=
  match s with
  | EmptyString => EmptyString
  | String c rest => String (lowerAscii c) (toLowerCase rest)
  end.

(** A [Set] of strings: its members in insertion order. *)
Definition setHas (s : list string) (x : string) : bool :=
  existsb (String.eqb x) s.

Definition setAdd (s : list string) (x : string) : list string :=
  if setHas s x then s else (s ++ [x])%list.

(** The fields of a thrown value that the code reads; an absent field is
    [None]. *)
Record jsError := {
  statusCode : option Z;
  code : option string;
  bodyErrorCode : option string;            (* error.body?.error?.code *)
  message : option string;
  headersRetryAfter : option string;        (* error.headers?.['retry-after'] *)
  responseHeadersRetryAfter : option string (* error.response?.headers?.[...] *)
}.

(** [new Error(message)]. *)
Definition newError (message : string) : jsError :=
  {| statusCode := None; code := None; bodyErrorCode := None;
     message := Some message;
     headersRetryAfter := None; responseHeadersRetryAfter := None |}.

(** [s.includes(needle)]. *)
Fixpoint includes (s needle : string) : bool :=
  if String.prefix needle s then true
  else match s with
       | String _ rest => includes rest needle
       | EmptyString => false
       end.

(** [error.message?.includes(needle)], [undefined] counting as false. *)
Definition messageIncludes (e : jsError) (needle : string) : bool :=
  match message e with
  | Some m => includes m needle
  | None => false
  end.

(** Outcome of an awaited call: the value, or the error thrown. *)
Inductive outcome (A E : Type) : Type :=
| Resolved (a : A)
| Rejected (e : E).
Arguments Resolved {A E} _.
Arguments Rejected {A E} _.

(** [String(n)] for an integer [n]: its decimal numeral, with a leading
    minus sign when negative. *)
Definition numberToString (n : Z) : string :=
  NilZero.string_of_int (Z.to_int n).

End Js.

(** ** utils/timezoneConverter.js *)

Module Timezone.
Import Js.

Definition ianaToWindowsMap : object :=
  [
    ("Europe/Prague", "Central Europe Standard Time");
    ("Europe/Berlin", "W. Europe Standard Time");
    ("Europe/Paris", "Romance Standard Time");
    ("Europe/Rome", "W. Europe Standard Time");
    ("Europe/London", "GMT Standard Time");
    ("Europe/Amsterdam", "W. Europe Standard Time");
    ("Europe/Brussels", "Romance Standard Time");
    ("Europe/Vienna", "W. Europe Standard Time");
    ("Europe/Warsaw", "Central European Standard Time");
    ("Europe/Budapest", "Central Europe Standard Time");
    ("Europe/Athens", "GTB Standard Time");
    ("Europe/Istanbul", "Turkey Standard Time");
    ("Europe/Moscow", "Russian Standard Time");
    ("Europe/Kiev", "FLE Standard Time");
    ("Europe/Bucharest", "GTB Standard Time");
    ("Europe/Sofia", "FLE Standard Time");
    ("Europe/Helsinki", "FLE Standard Time");
    ("Europe/Stockholm", "W. Europe Standard Time");
    ("Europe/Copenhagen", "Romance Standard Time");
    ("Europe/Oslo", "W. Europe Standard Time");
    ("Europe/Lisbon", "GMT Standard Time");
    ("Europe/Madrid", "Romance Standard Time");
    ("Europe/Zurich", "W. Europe Standard Time");
    ("Europe/Dublin", "GMT Standard Time");
    ("America/New_York", "Eastern Standard Time");
    ("America/Chicago", "Central Standard Time");
    ("America/Denver", "Mountain Standard Time");
    ("America/Los_Angeles", "Pacific Standard Time");
    ("America/Phoenix", "US Mountain Standard Time");
    ("America/Anchorage", "Alaskan Standard Time");
    ("America/Honolulu", "Hawaiian Standard Time");
    ("America/Toronto", "Eastern Standard Time");
    ("America/Vancouver", "Pacific Standard Time");
    ("America/Edmonton", "Mountain Standard Time");
    ("America/Winnipeg", "Central Standard Time");
    ("America/Halifax", "Atlantic Standard Time");
    ("America/St_Johns", "Newfoundland Standard Time");
    ("America/Mexico_City", "Central Standard Time (Mexico)");
    ("America/Cancun", "Eastern Standard Time (Mexico)");
    ("America/Tijuana", "Pacific Standard Time (Mexico)");
    ("America/Guatemala", "Central America Standard Time");
    ("America/San_Jose", "Central America Standard Time");
    ("America/Panama", "SA Pacific Standard Time");
    ("America/Havana", "Cuba Standard Time");
    ("America/Port-au-Prince", "Haiti Standard Time");
    ("America/Santo_Domingo", "SA Western Standard Time");
    ("America/Sao_Paulo", "E. South America Standard Time");
    ("America/Buenos_Aires", "Argentina Standard Time");
    ("America/Bogota", "SA Pacific Standard Time");
    ("America/Lima", "SA Pacific Standard Time");
    ("America/Santiago", "Pacific SA Standard Time");
    ("America/Caracas", "Venezuela Standard Time");
    ("America/La_Paz", "SA Western Standard Time");
    ("America/Montevideo", "Montevideo Standard Time");
    ("Asia/Tokyo", "Tokyo Standard Time");
    ("Asia/Seoul", "Korea Standard Time");
    ("Asia/Shanghai", "China Standard Time");
    ("Asia/Hong_Kong", "China Standard Time");
    ("Asia/Taipei", "Taipei Standard Time");
    ("Asia/Beijing", "China Standard Time");
    ("Asia/Singapore", "Singapore Standard Time");
    ("Asia/Bangkok", "SE Asia Standard Time");
    ("Asia/Jakarta", "SE Asia Standard Time");
    ("Asia/Manila", "Singapore Standard Time");
    ("Asia/Ho_Chi_Minh", "SE Asia Standard Time");
    ("Asia/Kuala_Lumpur", "Singapore Standard Time");
    ("Asia/Kolkata", "India Standard Time");
    ("Asia/Mumbai", "India Standard Time");
    ("Asia/Dhaka", "Bangladesh Standard Time");
    ("Asia/Karachi", "Pakistan Standard Time");
    ("Asia/Colombo", "Sri Lanka Standard Time");
    ("Asia/Kathmandu", "Nepal Standard Time");
    ("Asia/Almaty", "Central Asia Standard Time");
    ("Asia/Tashkent", "West Asia Standard Time");
    ("Asia/Yekaterinburg", "Ekaterinburg Standard Time");
    ("Asia/Dubai", "Arabian Standard Time");
    ("Asia/Riyadh", "Arab Standard Time");
    ("Asia/Kuwait", "Arab Standard Time");
    ("Asia/Doha", "Arab Standard Time");
    ("Asia/Muscat", "Arabian Standard Time");
    ("Asia/Bahrain", "Arab Standard Time");
    ("Asia/Tehran", "Iran Standard Time");
    ("Asia/Baghdad", "Arabic Standard Time");
    ("Asia/Jerusalem", "Israel Standard Time");
    ("Asia/Beirut", "Middle East Standard Time");
    ("Asia/Damascus", "Syria Standard Time");
    ("Asia/Amman", "Jordan Standard Time");
    ("Australia/Sydney", "AUS Eastern Standard Time");
    ("Australia/Melbourne", "AUS Eastern Standard Time");
    ("Australia/Brisbane", "E. Australia Standard Time");
    ("Australia/Perth", "W. Australia Standard Time");
    ("Australia/Adelaide", "Cen. Australia Standard Time");
    ("Australia/Darwin", "AUS Central Standard Time");
    ("Australia/Hobart", "Tasmania Standard Time");
    ("Pacific/Auckland", "New Zealand Standard Time");
    ("Pacific/Fiji", "Fiji Standard Time");
    ("Pacific/Honolulu", "Hawaiian Standard Time");
    ("Pacific/Guam", "West Pacific Standard Time");
    ("Pacific/Port_Moresby", "West Pacific Standard Time");
    ("Pacific/Tongatapu", "Tonga Standard Time");
    ("Africa/Cairo", "Egypt Standard Time");
    ("Africa/Johannesburg", "South Africa Standard Time");
    ("Africa/Nairobi", "E. Africa Standard Time");
    ("Africa/Lagos", "W. Central Africa Standard Time");
    ("Africa/Casablanca", "Morocco Standard Time");
    ("Atlantic/Reykjavik", "Greenwich Standard Time");
    ("Atlantic/Azores", "Azores Standard Time");
    ("Atlantic/Cape_Verde", "Cape Verde Standard Time");
    ("UTC", "UTC");
    ("Etc/UTC", "UTC");
    ("Etc/GMT", "UTC");
    ("GMT", "UTC")
  ].

Definition convertIANAToWindows (ianaTimezone : value) : value :=
  if negb (truthy ianaTimezone) then Str "UTC"
  else
    let windowsTimezone := getProp ianaToWindowsMap (toPropertyKey ianaTimezone) in
    if negb (truthy windowsTimezone) then Str "UTC"
    else windowsTimezone.

(** The loop over [Object.entries(ianaToWindowsMap)] that fills
    [reverseMap]: an entry is written only while the Windows name has none. *)
Definition buildReverseMap (entries : object) : object :=
  fold_left
    (fun (reverseMap : object) '(iana, windows) =>
       if negb (truthy (getProp reverseMap windows))
       then (reverseMap ++ [(windows, iana)])%list
       else reverseMap)
    entries [].

Definition convertWindowsToIANA (windowsTimezone : value) : value :=
  if negb (truthy windowsTimezone) then Str "UTC"
  else
    let reverseMap := buildReverseMap ianaToWindowsMap in
    let ianaTimezone := getProp reverseMap (toPropertyKey windowsTimezone) in
    if negb (truthy ianaTimezone) then Str "UTC"
    else ianaTimezone.

(** The first key of the table, in its written order, that maps to
    [windows]. *)
Definition firstKeyFor (windows : string) : option string :=
  option_map fst
    (find (fun entry => String.eqb (snd entry) windows) ianaToWindowsMap).

(** Everything [convertIANAToWindows] can return, whatever it is given. *)
Definition providerNames : list value :=
  (Str "UTC" :: map (fun e => Str (snd e)) ianaToWindowsMap
     ++ map Proto objectPrototypeKeys)%list.

(** [key in o]: own properties and inherited ones. *)
Definition hasProperty (o : object) (key : string) : bool :=
  match ownProperty o key with
  | Some _ => true
  | None => existsb (String.eqb key) objectPrototypeKeys
  end.

Definition isValidIANATimezone (timezone : value) : bool :=
  hasProperty ianaToWindowsMap (toPropertyKey timezone).

(** [Object.values(ianaToWindowsMap).includes(timezone)]: only a string can
    be equal to one of the values. *)
Definition isValidWindowsTimezone (timezone : value) : bool :=
  match timezone with
  | Str s => existsb (String.eqb s) (map snd ianaToWindowsMap)
  | _ => false
  end.

Definition getSupportedIANATimezones : list string :=
  map fst ianaToWindowsMap.

(** [[...new Set(Object.values(ianaToWindowsMap))]]. *)
Definition getSupportedWindowsTimezones : list string :=
  fold_left setAdd (map snd ianaToWindowsMap) [].

(** A [{ dateTime, timeZone }] object. *)
Record zonedDateTime := {
  dateTime : value;
  timeZone : value
}.

Definition convertDateTimeToMicrosoft (d : zonedDateTime) : zonedDateTime :=
  {| dateTime := dateTime d;
     timeZone := convertIANAToWindows (timeZone d) |}.

Definition convertDateTimeToGoogle (d : zonedDateTime) : zonedDateTime :=
  {| dateTime := dateTime d;
     timeZone := convertWindowsToIANA (timeZone d) |}.

End Timezone.

(** ** JavaScript strings as UTF-16 code units, and [Map] *)

Module JsString.

(** A string as the sequence of its UTF-16 code units: [length] and [slice]
    count code units, as [String.prototype.length] and [slice] do. *)
Definition t := list N.

Fixpoint ofString (s : string) : t :=
  match s with
  | EmptyString => []
  | String c rest => N_of_ascii c :: ofString rest
  end.

Fixpoint eqb (a b : t) : bool :=
  match a, b with
  | [], [] => true
  | x :: a', y :: b' => N.eqb x y && eqb a' b'
  | _, _ => false
  end.

(** U+2026 HORIZONTAL ELLIPSIS, one code unit. *)
Definition ellipsis : N := 8230.

(** [s.slice(0, n)]. *)
Definition sliceTo (n : nat) (s : t) : t := firstn n s.

(** [s.slice(-n)]. *)
Definition sliceLast (n : nat) (s : t) : t :=
  skipn (List.length s - n) s.

End JsString.

Module JsMap.

(** A [Map] keyed by strings: its entries in insertion order. *)
Definition t (V : Type) := list (JsString.t * V).

Section Ops.
Context {V : Type}.

Fixpoint get (m : t V) (k : JsString.t) : option V :=
  match m with
  | [] => None
  | (k', v) :: rest => if JsString.eqb k' k then Some v else get rest k
  end.

Definition has (m : t V) (k : JsString.t) : bool :=
  match get m k with Some _ => true | None => false end.

(** [m.set(k, v)]: an existing key keeps its place, a new one goes last. *)
Fixpoint set (m : t V) (k : JsString.t) (v : V) : t V :=
  match m with
  | [] => [(k, v)]
  | (k', v') :: rest =>
      if JsString.eqb k' k then (k', v) :: rest else (k', v') :: set rest k v
  end.

Fixpoint delete (m : t V) (k : JsString.t) : t V :=
  match m with
  | [] => []
  | (k', v') :: rest =>
      if JsString.eqb k' k then rest else (k', v') :: delete rest k
  end.

Definition clear (m : t V) : t V := [].
Definition size (m : t V) : nat := List.length m.
Definition keys (m : t V) : list JsString.t := map fst m.

End Ops.
End JsMap.

(** ** services/microsoftGraphService.js: caches and diagnostics *)

Module GraphCaches.
Import Js.
Local Open Scope Z_scope.

Definition FOLDER_CACHE_TTL_MS : Z := 5 * 60 * 1000.
Definition USER_ADDRESS_CACHE_TTL_MS : Z := 5 * 60 * 1000.
Definition DEBUG_CACHE_ENTRY_LIMIT : nat := 20.

(** A mail folder as [listLabels] returns it. *)
Record folder := {
  folderId : string;
  folderName : string;
  messagesTotal : Z;
  messagesUnread : Z
}.

(** The values the two caches hold: the payload array and [Date.now()] at
    the time of the [set]. *)
Record cacheEntry (P : Type) := {
  payload : list P;
  timestamp : Z
}.
Arguments payload {P} _.
Arguments timestamp {P} _.

(** The module-level maps of the service. An in-flight refresh is named by
    the number of its promise. *)
Record moduleState := {
  activeRefreshes : JsMap.t nat;
  folderDirectoryCache : JsMap.t (cacheEntry folder);
  userAddressCache : JsMap.t (cacheEntry string)
}.

(** All identity ids the module holds as map keys. *)
Definition heldKeys (st : moduleState) : list JsString.t :=
  (JsMap.keys (activeRefreshes st) ++ JsMap.keys (folderDirectoryCache st)
     ++ JsMap.keys (userAddressCache st))%list.

(** *** Cache helper functions *)

(** Keys are strings here, so the [typeof key !== 'string'] branch is not
    reached. *)
Definition maskDebugKey (key : JsString.t) : JsString.t :=
  if (List.length key <=? 6)%nat then key
  else (JsString.sliceTo 3 key ++ [JsString.ellipsis]
          ++ JsString.sliceLast 2 key)%list.

Record entrySummary := {
  key : JsString.t;
  cachedAt : option Z;
  ageMs : option Z;
  expiresInMs : option Z;
  valueCount : nat
}.

Record cacheSummary := {
  size : nat;
  ttlMs : Z;
  entries : list entrySummary
}.

(** The comparator [(a, b) => (b.ageMs ?? 0) - (a.ageMs ?? 0)]. *)
Definition compareByAge (a b : entrySummary) : Z :=
  match ageMs b with Some x => x | None => 0 end
  - match ageMs a with Some x => x | None => 0 end.

(** Oldest first: the comparator does not put [b] before [a]. *)
Definition oldestFirst (a b : entrySummary) : Prop := compareByAge a b <= 0.

(** [Array.prototype.sort] is stable: an entry moves behind the entries
    that compare strictly before it, and no further. *)
Fixpoint insertSorted (x : entrySummary) (l : list entrySummary)
  : list entrySummary :=
  match l with
  | [] => [x]
  | y :: rest =>
      if compareByAge x y >? 0 then y :: insertSorted x rest
      else x :: y :: rest
  end.

Definition sortEntries (l : list entrySummary) : list entrySummary :=
  fold_right insertSorted [] l.

Definition summarizeCacheEntries {P : Type} (cache : JsMap.t (cacheEntry P))
    (ttl : Z) (now : Z) : cacheSummary :=
  let entries :=
    map (fun '(k, value) =>
           let timestamp := timestamp value in
           let isSet := negb (timestamp =? 0) in
           let ageMs := if isSet then Some (now - timestamp) else None in
           {| key := maskDebugKey k;
              cachedAt := if isSet then Some timestamp else None;
              ageMs := ageMs;
              expiresInMs :=
                if isSet then Some (Z.max 0 (ttl - (now - timestamp)))
                else None;
              valueCount := List.length (payload value) |})
        cache in
  {| size := JsMap.size cache;
     ttlMs := ttl;
     entries := firstn DEBUG_CACHE_ENTRY_LIMIT (sortEntries entries) |}.

Record diagnostics := {
  refreshCount : nat;
  refreshUsers : list JsString.t;
  folderSummary : cacheSummary;
  addressSummary : cacheSummary
}.

Definition getDebugDiagnostics (st : moduleState) (now : Z) : diagnostics :=
  {| refreshCount := JsMap.size (activeRefreshes st);
     refreshUsers := map maskDebugKey (JsMap.keys (activeRefreshes st));
     folderSummary :=
       summarizeCacheEntries (folderDirectoryCache st) FOLDER_CACHE_TTL_MS now;
     addressSummary :=
       summarizeCacheEntries (userAddressCache st) USER_ADDRESS_CACHE_TTL_MS
         now |}.

(** Every key a diagnostics report shows. *)
Definition reportedKeys (d : diagnostics) : list JsString.t :=
  (refreshUsers d ++ map key (entries (folderSummary d))
     ++ map key (entries (addressSummary d)))%list.

Record flushResult := {
  clearedFolders : option nat;
  clearedAddresses : option nat;
  flushedTargets : list string
}.

(** [targets] is [None] when the option is absent or not an array; its
    members are taken after [String(target)]. *)
Definition normalizedTargets (targets : option (list string)) : list string :=
  match targets with
  | Some ts => map Js.toLowerCase ts
  | None => []
  end.

Definition flushDebugCaches (st : moduleState) (targets : option (list string))
  : flushResult * moduleState :=
  let normalizedTargets := normalizedTargets targets in
  let targetSet :=
    fold_left Js.setAdd
      (filter (fun target => String.eqb target "folders"
                             || String.eqb target "addresses")
              normalizedTargets)
      [] in
  let targetSet :=
    if (List.length targetSet =? 0)%nat
    then Js.setAdd (Js.setAdd targetSet "folders") "addresses"
    else targetSet in
  let foldersHit := Js.setHas targetSet "folders" in
  let addressesHit := Js.setHas targetSet "addresses" in
  ({| clearedFolders :=
        if foldersHit then Some (JsMap.size (folderDirectoryCache st))
        else None;
      clearedAddresses :=
        if addressesHit then Some (JsMap.size (userAddressCache st))
        else None;
      flushedTargets := targetSet |},
   {| activeRefreshes := activeRefreshes st;
      folderDirectoryCache :=
        if foldersHit then JsMap.clear (folderDirectoryCache st)
        else folderDirectoryCache st;
      userAddressCache :=
        if addressesHit then JsMap.clear (userAddressCache st)
        else userAddressCache st |}).

(** *** Directory lookups *)

Section Lookups.
(** Errors of the Graph client and what [mapGoogleApiError] makes of them. *)
Variable error : Type.
Variable mapGoogleApiError : error -> string -> error.

(** [listLabels]: [now] is [Date.now()] at the cache check; [remote] is the
    outcome of the Graph request, mapped to folders, with [Date.now()] at
    the time the result is cached. The last component counts the Graph
    requests made. *)
Definition listLabels (st : moduleState) (microsoftId : JsString.t) (now : Z)
    (remote : outcome (list folder) error * Z)
  : outcome (list folder) error * moduleState * nat :=
  let cached := JsMap.get (folderDirectoryCache st) microsoftId in
  let hit :=
    match cached with
    | Some c =>
        if now - timestamp c <? FOLDER_CACHE_TTL_MS then Some (payload c)
        else None
    | None => None
    end in
  match hit with
  | Some folders => (Resolved folders, st, 0%nat)
  | None =>
      match remote with
      | (Resolved folders, later) =>
          (Resolved folders,
           {| activeRefreshes := activeRefreshes st;
              folderDirectoryCache :=
                JsMap.set (folderDirectoryCache st) microsoftId
                  {| payload := folders; timestamp := later |};
              userAddressCache := userAddressCache st |},
           1%nat)
      | (Rejected e, _) =>
          (Rejected (mapGoogleApiError e "listLabels"), st, 1%nat)
      end
  end.

Definition getUserAddresses (st : moduleState) (microsoftId : JsString.t)
    (now : Z) (remote : outcome (list string) error * Z)
  : outcome (list string) error * moduleState * nat :=
  let cached := JsMap.get (userAddressCache st) microsoftId in
  let hit :=
    match cached with
    | Some c =>
        if now - timestamp c <? USER_ADDRESS_CACHE_TTL_MS then Some (payload c)
        else None
    | None => None
    end in
  match hit with
  | Some addresses => (Resolved addresses, st, 0%nat)
  | None =>
      match remote with
      | (Resolved addresses, later) =>
          (Resolved addresses,
           {| activeRefreshes := activeRefreshes st;
              folderDirectoryCache := folderDirectoryCache st;
              userAddressCache :=
                JsMap.set (userAddressCache st) microsoftId
                  {| payload := addresses; timestamp := later |} |},
           1%nat)
      | (Rejected e, _) =>
          (Rejected (mapGoogleApiError e "getUserAddresses"), st, 1%nat)
      end
  end.

End Lookups.

(** *** Creating a folder *)

Section Labels.
Variable error : Type.
Variable mapGoogleApiError : error -> string -> error.

(** The folder [createLabel] returns: [{ id, name, type: 'user' }]. *)
Record createdLabel := {
  labelId : string;
  labelName : string
}.

(** [remote] is the outcome of the POST to [/me/mailFolders], the [id] and
    [displayName] of the new folder when it succeeds. *)
Definition createLabel (st : moduleState) (microsoftId : JsString.t)
    (remote : outcome (string * string) error)
  : outcome createdLabel error * moduleState :=
  match remote with
  | Resolved (id, displayName) =>
      (Resolved {| labelId := id; labelName := displayName |},
       {| activeRefreshes := activeRefreshes st;
          folderDirectoryCache :=
            JsMap.delete (folderDirectoryCache st) microsoftId;
          userAddressCache := userAddressCache st |})
  | Rejected e => (Rejected (mapGoogleApiError e "createLabel"), st)
  end.

End Labels.

End GraphCaches.

(** ** JavaScript numbers: IEEE 754 binary64 *)

Module JsNumber.
Local Open Scope Z_scope.

(** A number is a double. Every finite double is an integer multiple of
    the least subnormal, 2^-1074: [Fin k] is [k * 2^-1074], with [Fin 0]
    for +0 and [NegZero] for -0. The doubles are the [Fin k] with
    [|k| < 2^53], or [|k| < 2^2098] a multiple of [2^(log2 |k| - 52)]. *)
Inductive number :=
| NaN
| Infinity (negative : bool)
| NegZero
| Fin (units : Z).

(** The double 1, and 2^1024, from which on a magnitude is infinite, in
    units of 2^-1074. *)
Definition ONE : Z := 2 ^ 1074.
Definition LIMIT : Z := 2 ^ 2098.

(** The integer nearest to [num / den], the even one of two that are
    equally near. *)
Definition nearestEven (num den : Z) : Z :=
  let q := num / den in
  match 2 * (num mod den) ?= den with
  | Lt => q
  | Gt => q + 1
  | Eq => if Z.even q then q else q + 1
  end.

(** Rounding to nearest, ties to even, of the magnitude [num / den]
    (in units): below 2^53 the doubles are one unit apart, and from
    [2^(52+j)] to [2^(53+j)] they are [2^j] units apart. *)
Definition roundMagnitude (num den : Z) : Z :=
  let j := Z.max 0 (Z.log2 (num / den) - 52) in
  2 ^ j * nearestEven num (den * 2 ^ j).

(** The double of a rounded magnitude and a sign: Infinity from 2^1024
    on, a signed zero at 0. *)
Definition finish (negative : bool) (magnitude : Z) : number :=
  if LIMIT <=? magnitude then Infinity negative
  else if magnitude =? 0 then (if negative then NegZero else Fin 0)
  else Fin (if negative then - magnitude else magnitude).

Definition round (negative : bool) (num den : Z) : number :=
  finish negative (roundMagnitude num den).

Definition units (x : number) : Z := match x with Fin k => k | _ => 0 end.
Definition magnitude (x : number) : Z := Z.abs (units x).
Definition signbit (x : number) : bool :=
  match x with
  | Infinity s => s
  | NegZero => true
  | Fin k => k <? 0
  | NaN => false
  end.
Definition isZero (x : number) : bool :=
  match x with NegZero => true | Fin 0 => true | _ => false end.

(** The double nearest to an integer: what a numeric literal and the end
    of [parseInt] give. *)
Definition ofZ (z : Z) : number := round (z <? 0) (Z.abs z * ONE) 1.

(** [x + y], [-x], [x - y], [x * y] and [x / y]: the exact result,
    rounded. *)
Definition add (x y : number) : number :=
  match x, y with
  | NaN, _ | _, NaN => NaN
  | Infinity a, Infinity b => if Bool.eqb a b then x else NaN
  | Infinity _, _ => x
  | _, Infinity _ => y
  | NegZero, NegZero => NegZero
  | _, _ => let s := units x + units y in round (s <? 0) (Z.abs s) 1
  end.

Definition opp (x : number) : number :=
  match x with
  | NaN => NaN
  | Infinity s => Infinity (negb s)
  | NegZero => Fin 0
  | Fin 0 => NegZero
  | Fin k => Fin (- k)
  end.

Definition sub (x y : number) : number := add x (opp y).

Definition mul (x y : number) : number :=
  let negative := xorb (signbit x) (signbit y) in
  match x, y with
  | NaN, _ | _, NaN => NaN
  | Infinity _, _ | _, Infinity _ =>
      if isZero x || isZero y then NaN else Infinity negative
  | _, _ => round negative (magnitude x * magnitude y) ONE
  end.

Definition div (x y : number) : number :=
  let negative := xorb (signbit x) (signbit y) in
  match x, y with
  | NaN, _ | _, NaN => NaN
  | Infinity _, Infinity _ => NaN
  | Infinity _, _ => Infinity negative
  | _, Infinity _ => finish negative 0
  | _, _ =>
      if isZero y then (if isZero x then NaN else Infinity negative)
      else round negative (magnitude x * ONE) (magnitude y)
  end.

(** [x < y] and [x <= y]; the two zeros are equal and NaN compares with
    nothing. *)
Definition lt (x y : number) : bool :=
  match x, y with
  | NaN, _ | _, NaN => false
  | Infinity a, Infinity b => a && negb b
  | Infinity a, _ => a
  | _, Infinity b => negb b
  | _, _ => units x <? units y
  end.

Definition le (x y : number) : bool :=
  match x, y with
  | NaN, _ | _, NaN => false
  | Infinity a, Infinity b => a || negb b
  | Infinity a, _ => a
  | _, Infinity b => negb b
  | _, _ => units x <=? units y
  end.

(** [Math.min(x, y)] and [Math.max(x, y)]: NaN when either is, and -0
    below +0. *)
Definition min (x y : number) : number :=
  match x, y with
  | NaN, _ | _, NaN => NaN
  | _, _ => if lt x y then x else if lt y x then y
            else if signbit x then x else y
  end.

Definition max (x y : number) : number :=
  match x, y with
  | NaN, _ | _, NaN => NaN
  | _, _ => if lt x y then y else if lt y x then x
            else if signbit x then y else x
  end.

(** [Math.ceil(x)]; it is -0 on the numbers between -1 and 0. *)
Definition ceil (x : number) : number :=
  match x with
  | Fin k =>
      let n := - ((- k) / ONE) in
      if (n =? 0) && (k <? 0) then NegZero else Fin (n * ONE)
  | _ => x
  end.

(** [Math.pow(2, e)] for an integer [e]. *)
Definition pow2 (e : Z) : number :=
  round false (2 ^ Z.max e 0 * ONE) (2 ^ Z.max (- e) 0).

Definition isNaN (x : number) : bool :=
  match x with NaN => true | _ => false end.

(** [isFinite(x)]. *)
Definition isFinite (x : number) : bool :=
  match x with NegZero | Fin _ => true | _ => false end.


End JsNumber.

(** ** utils/graphRetry.js *)

Module GraphRetry.
Import Js GraphCaches.
Local Open Scope Z_scope.

Local Abbreviation number := JsNumber.number.

Record retryConfig := {
  maxRetries : nat;
  baseDelay : number;
  maxDelay : number;
  jitterMax : number;
  retryableStatusCodes : list Z;
  retryableErrorCodes : list string;
  (** [onRetry]: [None] when absent; the callback answers [false] when it
      throws. *)
  onRetry : option (nat -> jsError -> number -> bool)
}.

Definition DEFAULT_CONFIG : retryConfig :=
  {| maxRetries := 3;
     baseDelay := JsNumber.ofZ 1000;
     maxDelay := JsNumber.ofZ 32000;
     jitterMax := JsNumber.ofZ 1000;
     retryableStatusCodes := [429; 503; 504];
     retryableErrorCodes :=
       [ "TooManyRequests"; "ServiceUnavailable"; "GatewayTimeout";
         "InternalServerError" ];
     onRetry := None |}.

(** [x && list.includes(x)] for a number and for a string. *)
Definition includesStatus (codes : list Z) (x : option Z) : bool :=
  match x with
  | Some n => negb (Z.eqb n 0) && existsb (Z.eqb n) codes
  | None => false
  end.

Definition includesCode (codes : list string) (x : option string) : bool :=
  match x with
  | Some c => negb (String.eqb c "") && existsb (String.eqb c) codes
  | None => false
  end.

Definition isRetryableError (error : jsError)
    (retryableStatusCodes : list Z) (retryableErrorCodes : list string)
  : bool :=
  if includesStatus retryableStatusCodes (statusCode error) then true
  else if includesCode retryableErrorCodes (code error) then true
  else if includesCode retryableErrorCodes (bodyErrorCode error) then true
  else false.

(** *** [parseInt(s, 10)] *)

(** The white space and line terminators [parseInt] skips, among the
    code units below 256: TAB, LF, VT, FF, CR, SP and NBSP. *)
Definition isWhiteSpace (c : ascii) : bool :=
  let n := nat_of_ascii c in
  ((9 <=? n) && (n <=? 13) || (n =? 32) || (n =? 160))%nat.

Definition digitValue (c : ascii) : option Z :=
  let n := nat_of_ascii c in
  if ((48 <=? n) && (n <=? 57))%nat then Some (Z.of_nat (n - 48)) else None.

Fixpoint trimStart (s : string) : string :=
  match s with
  | String c rest => if isWhiteSpace c then trimStart rest else s
  | EmptyString => EmptyString
  end.

(** The longest prefix of decimal digits, read left to right; [acc] is
    [None] until a digit has been read. *)
Fixpoint readDigits (s : string) (acc : option Z) : option Z :=
  match s with
  | String c rest =>
      match digitValue c with
      | Some d =>
          readDigits rest
            (Some (match acc with Some a => a * 10 + d | None => d end)%Z)
      | None => acc
      end
  | EmptyString => acc
  end.

(** [parseInt(s, 10)]: the sign, then the digits; NaN when there is no
    digit, else the double nearest to the integer read, -0 for [-0]. *)
Definition parseInt (s : string) : number :=
  let '(negative, digits) :=
    match trimStart s with
    | String "-" rest => (true, rest)
    | String "+" rest => (false, rest)
    | t => (false, t)
    end in
  match readDigits digits None with
  | Some mathInt => JsNumber.round negative (mathInt * JsNumber.ONE) 1
  | None => JsNumber.NaN
  end.

Section Executor.
(** [Date.now()], and [new Date(s).getTime()], which is NaN for an invalid
    date. *)
Variable now : number.
Variable dateGetTime : string -> number.

(** [error.headers?.['retry-after'] || error.response?.headers?.['retry-after']] *)
Definition retryAfterHeader (error : jsError) : option string :=
  match headersRetryAfter error with
  | Some h => if String.eqb h "" then responseHeadersRetryAfter error
              else Some h
  | None => responseHeadersRetryAfter error
  end.

(** [None] is [null]. *)
Definition getRetryAfterSeconds (error : jsError) : option number :=
  match retryAfterHeader error with
  | None => None
  | Some retryAfter =>
      if String.eqb retryAfter "" then None
      else
        let retryAfterNum := parseInt retryAfter in
        if negb (JsNumber.isNaN retryAfterNum) then Some retryAfterNum
        else
          let time := dateGetTime retryAfter in
          if negb (JsNumber.isNaN time) then
            let secondsUntil :=
              JsNumber.ceil
                (JsNumber.div (JsNumber.sub time now) (JsNumber.ofZ 1000)) in
            Some (JsNumber.max (JsNumber.ofZ 0) secondsUntil)
          else None
  end.

(** [random] is the value [Math.random()] returns, in [0, 1). *)
Definition calculateBackoffDelay (attempt : nat) (baseDelay maxDelay
    jitterMax : number) (random : number) : number :=
  let exponentialDelay :=
    JsNumber.mul baseDelay (JsNumber.pow2 (Z.of_nat attempt - 1)) in
  let cappedDelay := JsNumber.min exponentialDelay maxDelay in
  let jitter := JsNumber.mul random jitterMax in
  JsNumber.add cappedDelay jitter.

(** What one run does besides returning. *)
Inductive retryEvent :=
| Invoked (attempt : nat)
| Observed (attempt : nat) (error : jsError) (delay : number)
    (threw : bool)
| Slept (delay : number).

Section Run.
Variable A : Type.
(** [apiCall n]: the outcome of the call made at attempt [n];
    [random n]: the draw made at attempt [n]. *)
Variable apiCall : nat -> outcome A jsError.
Variable random : nat -> number.
Variable config : retryConfig.

(** The delay chosen after a retryable failure at [attempt]. *)
Definition retryDelay (attempt : nat) (error : jsError) : number :=
  match getRetryAfterSeconds error with
  | Some retryAfter => JsNumber.mul retryAfter (JsNumber.ofZ 1000)
  | None =>
      calculateBackoffDelay attempt (baseDelay config) (maxDelay config)
        (jitterMax config) (random attempt)
  end.

(** The [for] loop, with [remaining] iterations to go. A run that leaves
    the loop throws [lastError], which is [undefined] ([None]) when no call
    was made. *)
Fixpoint retryLoop (remaining : nat) (attempt : nat)
    (lastError : option jsError) (trace : list retryEvent)
  : outcome A (option jsError) * list retryEvent :=
  match remaining with
  | O => (Rejected lastError, trace)
  | S remaining' =>
      let trace := (trace ++ [Invoked attempt])%list in
      match apiCall attempt with
      | Resolved result => (Resolved result, trace)
      | Rejected error =>
          if (maxRetries config <? attempt)%nat
          then (Rejected (Some error), trace)
          else if negb (isRetryableError error (retryableStatusCodes config)
                          (retryableErrorCodes config))
          then (Rejected (Some error), trace)
          else
            let delay := retryDelay attempt error in
            let trace :=
              match onRetry config with
              | Some callback =>
                  (trace ++ [Observed attempt error delay
                               (negb (callback attempt error delay))])%list
              | None => trace
              end in
            retryLoop remaining' (S attempt) (Some error)
              (trace ++ [Slept delay])%list
      end
  end.

Definition executeWithRetry : outcome A (option jsError) * list retryEvent :=
  retryLoop (maxRetries config + 1) 1 None [].

End Run.
End Executor.

(** *** Reading a trace *)

(** The number of calls made. *)
Definition invocations (trace : list retryEvent) : nat :=
  List.length
    (filter (fun e => match e with Invoked _ => true | _ => false end) trace).

(** The waits, in the order they were made. *)
Fixpoint sleeps (trace : list retryEvent) : list number :=
  match trace with
  | [] => []
  | Slept delay :: rest => delay :: sleeps rest
  | _ :: rest => sleeps rest
  end.

(** The trace without the calls of the [onRetry] callback. *)
Definition unobserved (trace : list retryEvent) : list retryEvent :=
  filter (fun e => match e with Observed _ _ _ _ => false | _ => true end)
    trace.

(** [{ ...config, onRetry }]. *)
Definition withOnRetry (config : retryConfig)
    (callback : option (nat -> jsError -> number -> bool)) : retryConfig :=
  {| maxRetries := maxRetries config;
     baseDelay := baseDelay config;
     maxDelay := maxDelay config;
     jitterMax := jitterMax config;
     retryableStatusCodes := retryableStatusCodes config;
     retryableErrorCodes := retryableErrorCodes config;
     onRetry := callback |}.

(** What a call that settled as [o] makes the executor return or throw. *)
Definition settledAs {A : Type} (o : outcome A jsError)
  : outcome A (option jsError) :=
  match o with
  | Resolved result => Resolved result
  | Rejected error => Rejected (Some error)
  end.

End GraphRetry.

(** ** config/microsoft.js *)

Module MicrosoftConfig.
Import Js.

(** What the call to the token endpoint comes back with: [fetch] or
    [response.json()] threw; a reply with [!response.ok]; or a token reply,
    in which [refresh_token] may be absent. *)
Inductive tokenEndpointReply :=
| FetchFailed (e : jsError)
| ErrorReply (error error_description : option string)
| TokenReply (access_token : string) (refresh_token : option string)
    (expires_in : Z).

Record newTokens := {
  access_token : string;
  refresh_token : string;
  expires_in : Z
}.

(** [a || b] on strings that may be [undefined]. *)
Definition orElse (a b : option string) : option string :=
  match a with
  | Some s => if String.eqb s "" then b else a
  | None => b
  end.

(** [`${x}`]. *)
Definition interpolate (x : option string) : string :=
  match x with
  | Some s => s
  | None => "undefined"
  end.

(** The part of [refreshAccessToken] that runs once the token endpoint has
    answered. *)
Definition refreshAccessToken (refreshToken : string)
    (reply : tokenEndpointReply) : outcome newTokens jsError :=
  match reply with
  | FetchFailed e => Rejected e
  | ErrorReply error error_description =>
      Rejected
        (newError
           ("Microsoft token refresh failed: "
              ++ interpolate (orElse error_description error)))
  | TokenReply access refresh expires =>
      Resolved
        {| access_token := access;
           refresh_token :=
             match orElse refresh (Some refreshToken) with
             | Some r => r
             | None => refreshToken
             end;
           expires_in := expires |}
  end.

(** What the token endpoint answers to an authorization code: as above,
    but [access_token] may be absent too. *)
Inductive codeReply :=
| CodeFetchFailed (e : jsError)
| CodeErrorReply (error error_description : option string)
| CodeTokenReply (access_token refresh_token : option string)
    (expires_in : Z).

(** The tokens [getTokensFromCode] returns; [granted_refresh_token] is
    [data.refresh_token] as it came. *)
Record grantedTokens := {
  granted_access_token : string;
  granted_refresh_token : option string;
  granted_expires_in : Z
}.

(** The part of [getTokensFromCode] that runs once the token endpoint has
    answered. *)
Definition getTokensFromCode (reply : codeReply)
  : outcome grantedTokens jsError :=
  match reply with
  | CodeFetchFailed e => Rejected e
  | CodeErrorReply error error_description =>
      Rejected
        (newError
           ("Microsoft token exchange failed: "
              ++ interpolate (orElse error_description error)))
  | CodeTokenReply access refresh expires =>
      match orElse access None with
      | Some token =>
          Resolved
            {| granted_access_token := token;
               granted_refresh_token := refresh;
               granted_expires_in := expires |}
      | None =>
          Rejected (newError "Access token missing from Microsoft response")
      end
  end.

End MicrosoftConfig.

(** ** utils/tokenExpiry.js *)

Module TokenExpiry.
Local Open Scope Z_scope.

(** Modelled from the spec: [utils/tokenExpiry.js] is not among the
    sources. A token is used as it is while [expiry - now > safetyMargin],
    and needs a refresh otherwise. *)
Definition isTokenExpired (now safetyMargin expiry : Z) : bool :=
  negb (safetyMargin <? expiry - now).

(** Modelled from the spec: [utils/tokenExpiry.js] is not among the
    sources. The new expiry lies [expires_in] seconds after [now]. *)
Definition determineExpiryDate (now expires_in : Z) : Z :=
  now + expires_in * 1000.

End TokenExpiry.

(** ** services/databaseService.js *)

Module Database.

(** The credential record of one identity. *)
Record user := {
  accessToken : string;
  refreshToken : string;
  tokenExpiry : Z
}.

Definition t := JsMap.t user.

(** Modelled from the spec: [databaseService.js] is not among the sources.
    [load(identityId)] gives the credential record or null. *)
Definition getUserByMicrosoftId (db : t) (microsoftId : JsString.t)
  : option user :=
  JsMap.get db microsoftId.

(** Modelled from the spec: [databaseService.js] is not among the sources.
    [save(identityId, fields)] persists the access token, the refresh token
    and the expiry it is given in the record of the identity. *)
Definition updateTokens (db : t) (microsoftId : JsString.t)
    (access refresh : string) (expiryDate : Z) : t :=
  match JsMap.get db microsoftId with
  | Some _ =>
      JsMap.set db microsoftId
        {| accessToken := access; refreshToken := refresh;
           tokenExpiry := expiryDate |}
  | None => db
  end.

End Database.

(** ** services/microsoftGraphService.js: token management *)

Module GraphService.
Import Js MicrosoftConfig Database.

(** What [getValidAccessToken] can throw: the two errors it creates, or an
    error of a collaborator passed on unchanged. *)
Inductive tokenError :=
| UserNotFound (microsoftId : JsString.t)
    (* new Error(`User not found for Microsoft ID: ${microsoftId}`) *)
| RefreshTokenExpired
    (* new Error('REFRESH_TOKEN_EXPIRED: User must re-authenticate') *)
| Thrown (e : jsError).

(** The [catch] block of the refresh closure. *)
Definition onRefreshFailure (error : jsError) : tokenError :=
  if messageIncludes error "invalid_grant"
     || messageIncludes error "refresh token"
  then RefreshTokenExpired
  else Thrown error.

(** Where the refresh closure behind a [refreshPromise] stands. *)
Inductive refreshState :=
| AwaitingEndpoint (microsoftId : JsString.t) (sentRefreshToken : string)
| AwaitingUpdate (microsoftId : JsString.t) (tokens : newTokens)
    (tokenExpiry : Z)
| Settled (result : outcome string tokenError).

(** Where one call of [getValidAccessToken] stands: suspended at one of its
    [await]s, or finished. *)
Inductive callState :=
| AwaitingUser (microsoftId : JsString.t) (forceRefresh : bool)
| AwaitingLastUsed (accessToken : string)
| AwaitingOwnRefresh (microsoftId : JsString.t) (promise : nat)
| AwaitingActiveRefresh (promise : nat)
| Returned (result : outcome string tokenError).

Record world := {
  database : Database.t;
  activeRefreshes : JsMap.t nat;
  promises : list refreshState;
  calls : list callState;
  (** The refresh tokens posted to the token endpoint, oldest first. *)
  tokenRequests : list (JsString.t * string)
}.

(** What the event loop does next: a new call comes in, or one of the
    pending operations completes and its continuation runs. *)
Inductive event :=
| Call (microsoftId : JsString.t) (forceRefresh : bool)
| UserLoaded (call : nat) (failure : option jsError)
| LastUsedUpdated (call : nat) (failure : option jsError)
| EndpointReplied (promise : nat) (reply : tokenEndpointReply)
| TokensUpdated (promise : nat) (failure : option jsError)
| Resumed (call : nat).

Fixpoint replace {X : Type} (l : list X) (n : nat) (x : X) : list X :=
  match l, n with
  | [], _ => []
  | _ :: rest, O => x :: rest
  | y :: rest, S n' => y :: replace rest n' x
  end.

Definition setCall (w : world) (n : nat) (c : callState) : world :=
  {| database := database w;
     activeRefreshes := activeRefreshes w;
     promises := promises w;
     calls := replace (calls w) n c;
     tokenRequests := tokenRequests w |}.

Definition setPromise (w : world) (n : nat) (r : refreshState) : world :=
  {| database := database w;
     activeRefreshes := activeRefreshes w;
     promises := replace (promises w) n r;
     calls := calls w;
     tokenRequests := tokenRequests w |}.

Section TokenManager.
(** [utils/tokenExpiry.js] is not among the sources; its two functions are
    taken as they are used. *)
Variable isTokenExpired : Z -> bool.
Variable determineExpiryDate : Z -> Z.

(** One turn of the event loop. An event that matches no pending operation
    changes nothing. *)
Definition step (w : world) (e : event) : world :=
  match e with
  | Call microsoftId forceRefresh =>
      (* runs up to the first await *)
      match JsMap.get (activeRefreshes w) microsoftId with
      | Some promise =>
          {| database := database w;
             activeRefreshes := activeRefreshes w;
             promises := promises w;
             calls := (calls w ++ [AwaitingActiveRefresh promise])%list;
             tokenRequests := tokenRequests w |}
      | None =>
          {| database := database w;
             activeRefreshes := activeRefreshes w;
             promises := promises w;
             calls := (calls w ++ [AwaitingUser microsoftId forceRefresh])%list;
             tokenRequests := tokenRequests w |}
      end
  | UserLoaded call failure =>
      match nth_error (calls w) call with
      | Some (AwaitingUser microsoftId forceRefresh) =>
          match failure with
          | Some error => setCall w call (Returned (Rejected (Thrown error)))
          | None =>
              match getUserByMicrosoftId (database w) microsoftId with
              | None =>
                  setCall w call (Returned (Rejected (UserNotFound microsoftId)))
              | Some user =>
                  let needsRefresh :=
                    forceRefresh || isTokenExpired (tokenExpiry user) in
                  if negb needsRefresh
                  then setCall w call (AwaitingLastUsed (accessToken user))
                  else
                    (* the closure starts and posts to the token endpoint;
                       then its promise is stored in activeRefreshes *)
                    let promise := List.length (promises w) in
                    {| database := database w;
                       activeRefreshes :=
                         JsMap.set (activeRefreshes w) microsoftId promise;
                       promises :=
                         (promises w
                            ++ [AwaitingEndpoint microsoftId
                                  (refreshToken user)])%list;
                       calls :=
                         replace (calls w) call
                           (AwaitingOwnRefresh microsoftId promise);
                       tokenRequests :=
                         (tokenRequests w
                            ++ [(microsoftId, refreshToken user)])%list |}
              end
          end
      | _ => w
      end
  | LastUsedUpdated call failure =>
      match nth_error (calls w) call with
      | Some (AwaitingLastUsed token) =>
          match failure with
          | Some error => setCall w call (Returned (Rejected (Thrown error)))
          | None => setCall w call (Returned (Resolved token))
          end
      | _ => w
      end
  | EndpointReplied promise reply =>
      match nth_error (promises w) promise with
      | Some (AwaitingEndpoint microsoftId sent) =>
          match refreshAccessToken sent reply with
          | Resolved tokens =>
              setPromise w promise
                (AwaitingUpdate microsoftId tokens
                   (determineExpiryDate (expires_in tokens)))
          | Rejected error =>
              setPromise w promise (Settled (Rejected (onRefreshFailure error)))
          end
      | _ => w
      end
  | TokensUpdated promise failure =>
      match nth_error (promises w) promise with
      | Some (AwaitingUpdate microsoftId tokens expiry) =>
          match failure with
          | Some error =>
              setPromise w promise (Settled (Rejected (onRefreshFailure error)))
          | None =>
              {| database :=
                   updateTokens (database w) microsoftId (access_token tokens)
                     (refresh_token tokens) expiry;
                 activeRefreshes := activeRefreshes w;
                 promises :=
                   replace (promises w) promise
                     (Settled (Resolved (access_token tokens)));
                 calls := calls w;
                 tokenRequests := tokenRequests w |}
          end
      | _ => w
      end
  | Resumed call =>
      match nth_error (calls w) call with
      | Some (AwaitingOwnRefresh microsoftId promise) =>
          match nth_error (promises w) promise with
          | Some (Settled result) =>
              (* finally: activeRefreshes.delete(microsoftId) *)
              {| database := database w;
                 activeRefreshes := JsMap.delete (activeRefreshes w) microsoftId;
                 promises := promises w;
                 calls := replace (calls w) call (Returned result);
                 tokenRequests := tokenRequests w |}
          | _ => w
          end
      | Some (AwaitingActiveRefresh promise) =>
          match nth_error (promises w) promise with
          | Some (Settled result) => setCall w call (Returned result)
          | _ => w
          end
      | _ => w
      end
  end.

Definition run (w : world) (events : list event) : world :=
  fold_left step events w.

End TokenManager.

(** A service at rest over a database: nothing in flight, no call made. *)
Definition atRest (db : Database.t) : world :=
  {| database := db; activeRefreshes := []; promises := []; calls := [];
     tokenRequests := [] |}.

(** One call, alone, whose token needs a refresh, with every operation
    succeeding. *)
Definition refreshRun (microsoftId : JsString.t) (force : bool)
    (reply : tokenEndpointReply) : list event :=
  [Call microsoftId force; UserLoaded 0 None; EndpointReplied 0 reply;
   TokensUpdated 0 None; Resumed 0].

(** [n] calls for one identity made in the same turn, followed by the
    completion of their user loads in the order the calls were made. *)
Definition simultaneousCalls (microsoftId : JsString.t) (n : nat)
  : list event :=
  (repeat (Call microsoftId false) n
     ++ map (fun call => UserLoaded call None) (seq 0 n))%list.

(** Two calls for one identity made in the same turn, each of which starts
    a refresh; the token endpoint answers the first refresh and its tokens
    are written, then it answers the second and those are written. *)
Definition twoRefreshes (microsoftId : JsString.t)
    (first second : tokenEndpointReply) : list event :=
  (simultaneousCalls microsoftId 2
     ++ [EndpointReplied 0 first; TokensUpdated 0 None;
         EndpointReplied 1 second; TokensUpdated 1 None])%list.

(** The world in which the first [j] of [n] such calls have each started a
    refresh with the refresh token [sent], and the others still wait for
    their user. *)
Definition racing (db : Database.t) (microsoftId : JsString.t)
    (sent : string) (n j : nat) : world :=
  {| database := db;
     activeRefreshes :=
       match j with
       | O => []
       | S k => [(microsoftId, k)]
       end;
     promises := repeat (AwaitingEndpoint microsoftId sent) j;
     calls :=
       (map (AwaitingOwnRefresh microsoftId) (seq 0 j)
          ++ repeat (AwaitingUser microsoftId false) (n - j))%list;
     tokenRequests := repeat (microsoftId, sent) j |}.

(** The number of calls of [getValidAccessToken] among the events. *)
Definition callsMade (events : list event) : nat :=
  List.length
    (filter (fun e => match e with Call _ _ => true | _ => false end) events).

(** The calls still waiting for their user to be loaded. *)
Definition awaitingUser (cs : list callState) : nat :=
  List.length
    (filter (fun c => match c with AwaitingUser _ _ => true | _ => false end)
       cs).

(** A refresh in progress carries a refresh token that is not empty. *)
Definition carriesRefreshToken (r : refreshState) : Prop :=
  match r with
  | AwaitingEndpoint _ sent => sent <> ""
  | AwaitingUpdate _ tokens _ => refresh_token tokens <> ""
  | Settled _ => True
  end.

(** Each promise has posted one request, and a call that is past the load
    of its user has started at most one promise. *)
Definition oneRequestEach (w : world) : Prop :=
  List.length (tokenRequests w) = List.length (promises w)
  /\ (List.length (promises w) + awaitingUser (calls w)
      <= List.length (calls w))%nat.

(** No stored record and no refresh in progress holds an empty refresh
    token. *)
Definition refreshTokensKept (w : world) : Prop :=
  (forall id u, getUserByMicrosoftId (database w) id = Some u ->
                refreshToken u <> "")
  /\ Forall carriesRefreshToken (promises w).

(** *** The authenticated-call wrapper *)

Definition MAX_RETRIES : nat := 2.

Definition is401 (error : jsError) : bool :=
  match statusCode error with Some n => Z.eqb n 401 | None => false end
  || match code error with
     | Some c => String.eqb c "InvalidAuthenticationToken"
     | None => false
     end
  || messageIncludes error "Access token has expired"
  || messageIncludes error "Unauthorized".

(** What one run of the wrapper does besides returning. *)
Inductive wrapperEvent :=
| ApiCalled (retryCount : nat)
| RefreshForced (retryCount : nat).

Definition apiCalls (events : list wrapperEvent) : nat :=
  List.length
    (filter (fun e => match e with ApiCalled _ => true | _ => false end)
       events).

Definition forcedRefreshes (events : list wrapperEvent) : nat :=
  List.length
    (filter (fun e => match e with RefreshForced _ => true | _ => false end)
       events).

Section Wrapper.
Variable A : Type.
(** [apiCall n] is the outcome of [apiCall()] at retry count [n], and
    [forcedRefresh n] the outcome of [getValidAccessToken(microsoftId, true)]
    there. *)
Variable apiCall : nat -> outcome A jsError.
Variable forcedRefresh : nat -> outcome string tokenError.

Equations handleGraphApiCall (retryCount : nat)
  : outcome A tokenError * list wrapperEvent
  by wf (MAX_RETRIES - retryCount) lt :=
handleGraphApiCall retryCount with apiCall retryCount => {
  | Resolved result => (Resolved result, [ApiCalled retryCount]);
  | Rejected error with is401 error, lt_dec retryCount MAX_RETRIES => {
    | true, left _ with forcedRefresh retryCount => {
      | Resolved _ =>
          let '(result, events) := handleGraphApiCall (S retryCount) in
          (result, ApiCalled retryCount :: RefreshForced retryCount :: events);
      | Rejected refreshError =>
          (Rejected refreshError,
           [ApiCalled retryCount; RefreshForced retryCount]) };
    | _, _ => (Rejected (Thrown error), [ApiCalled retryCount]) } }.
Next Obligation.
  unfold MAX_RETRIES in *. destruct retryCount as [|[|n]]; lia.
Qed.

(** The call at retry count [m] failed as Unauthorized and the refresh
    forced after it went through: the wrapper goes on to the next call. *)
Definition recoveredAt (m : nat) : Prop :=
  exists e token,
    apiCall m = Rejected e /\ is401 e = true
    /\ forcedRefresh m = Resolved token.

End Wrapper.

End GraphService.

(** ** services/microsoftGraphService.js: mail folders and flags *)

Module GraphMail.
Import Js.

(** [GMAIL_TO_OUTLOOK_FOLDER_MAP]; the value [None] is [null]. *)
Definition GMAIL_TO_OUTLOOK_FOLDER_MAP : list (string * option string) :=
  [ ("INBOX", Some "inbox");
    ("SENT", Some "sentitems");
    ("DRAFT", Some "drafts");
    ("SPAM", Some "junkemail");
    ("TRASH", Some "deleteditems");
    ("UNREAD", None);
    ("STARRED", None);
    ("IMPORTANT", None) ].

Definition OUTLOOK_TO_GMAIL_FOLDER_MAP : object :=
  [ ("inbox", "INBOX");
    ("sentitems", "SENT");
    ("drafts", "DRAFT");
    ("junkemail", "SPAM");
    ("deleteditems", "TRASH") ].

Fixpoint ownEntry (o : list (string * option string)) (k : string)
  : option (option string) :=
  match o with
  | [] => None
  | (k', v) :: rest => if String.eqb k' k then Some v else ownEntry rest k
  end.

(** [GMAIL_TO_OUTLOOK_FOLDER_MAP[targetLabel] || targetLabel]: the folder
    of the label; the label itself when the table has [null] or nothing
    for it; a member of [Object.prototype] when the label is the name of
    one. *)
Definition targetFolder (targetLabel : string) : value :=
  match ownEntry GMAIL_TO_OUTLOOK_FOLDER_MAP targetLabel with
  | Some (Some folder) =>
      if truthy (Str folder) then Str folder else Str targetLabel
  | Some None => Str targetLabel
  | None =>
      if existsb (String.eqb targetLabel) objectPrototypeKeys
      then Proto targetLabel
      else Str targetLabel
  end.

(** The fields of a Graph message that decide its labels; an absent field
    is [None]. [flagStatus] is [message.flag?.flagStatus]. *)
Record graphMessage := {
  parentFolderId : option string;
  isRead : option bool;
  flagStatus : option string
}.

(** The [labelIds] of [convertMessageToGmailFormat(message)]. *)
Definition labelIds (message : graphMessage) : list value :=
  let labels := [] in
  let labels :=
    match parentFolderId message with
    | Some folderId =>
        if truthy (Str folderId) then
          let gmailLabel :=
            getProp OUTLOOK_TO_GMAIL_FOLDER_MAP (toLowerCase folderId) in
          if truthy gmailLabel then (labels ++ [gmailLabel])%list else labels
        else labels
    | None => labels
    end in
  let labels :=
    match isRead message with
    | Some true => labels
    | _ => (labels ++ [Str "UNREAD"])%list
    end in
  match flagStatus message with
  | Some status =>
      if String.eqb status "flagged" then (labels ++ [Str "STARRED"])%list
      else labels
  | None => labels
  end.

Section MailCalls.
(** Errors of the Graph client and what [mapGoogleApiError] makes of them. *)
Variable error : Type.
Variable mapGoogleApiError : error -> string -> error.

(** In the three calls below [client] is the outcome of
    [getAuthenticatedClient] and [remote] the outcome of the request handed
    to [handleGraphApiCall]; the second component lists what was handed
    over: the [flagStatus], the [isRead] or the [destinationId] of the
    request body. *)
Definition toggleStar (starred : bool) (client remote : outcome unit error)
  : outcome bool error * list string :=
  match client with
  | Rejected e => (Rejected (mapGoogleApiError e "toggleStar"), [])
  | Resolved _ =>
      let flagStatus := if starred then "flagged" else "notFlagged" in
      match remote with
      | Resolved _ => (Resolved starred, [flagStatus])
      | Rejected e =>
          (Rejected (mapGoogleApiError e "toggleStar"), [flagStatus])
      end
  end.

Definition markAsRead (read : bool) (client remote : outcome unit error)
  : outcome bool error * list bool :=
  match client with
  | Rejected e => (Rejected (mapGoogleApiError e "markAsRead"), [])
  | Resolved _ =>
      match remote with
      | Resolved _ => (Resolved read, [read])
      | Rejected e => (Rejected (mapGoogleApiError e "markAsRead"), [read])
      end
  end.


End MailCalls.

End GraphMail.

(** ** services/tasksService.js *)

Module TasksService.
Import Js MicrosoftConfig Database.

(** The error [throwServiceError(message, options)] throws, or an error of
    a collaborator. *)
Inductive serviceError :=
| ServiceError (message : string) (statusCode : Z) (code : string)
    (requiresReauth : bool) (cause : option jsError)
| Collaborator (e : jsError).

Section Tasks.
Variable isTokenExpired : Z -> bool.
Variable determineExpiryDate : Z -> Z.
(** [mapGoogleApiError(error, context)] of [serviceErrors.js], which is not
    among the sources. *)
Variable mapGoogleApiError : serviceError -> serviceError.

(** One call, given how each operation it starts turns out: the load of
    the user, the update of last-used (not awaited), the reply of the token
    endpoint and the write of the new tokens. *)
Definition getValidAccessToken (db : Database.t) (microsoftId : JsString.t)
    (userLoad lastUsedUpdate : option jsError) (reply : tokenEndpointReply)
    (tokensUpdate : option jsError)
  : outcome string serviceError * Database.t :=
  match userLoad with
  | Some error => (Rejected (mapGoogleApiError (Collaborator error)), db)
  | None =>
      match getUserByMicrosoftId db microsoftId with
      | None =>
          (Rejected
             (mapGoogleApiError
                (ServiceError "User not found in database" 401
                   "TASKS_USER_NOT_FOUND" true None)),
           db)
      | Some user =>
          (* updateLastUsed(microsoftId).catch(...): lastUsedUpdate is
             logged and dropped *)
          let needsRefresh := isTokenExpired (tokenExpiry user) in
          if needsRefresh then
            let reauth (refreshError : jsError) :=
              mapGoogleApiError
                (ServiceError "Authentication required - please log in again"
                   401 "MICROSOFT_UNAUTHORIZED" true (Some refreshError)) in
            match refreshAccessToken (refreshToken user) reply with
            | Rejected refreshError => (Rejected (reauth refreshError), db)
            | Resolved tokens =>
                let expiryDate := determineExpiryDate (expires_in tokens) in
                match tokensUpdate with
                | Some refreshError => (Rejected (reauth refreshError), db)
                | None =>
                    (Resolved (access_token tokens),
                     updateTokens db microsoftId (access_token tokens)
                       (if String.eqb (refresh_token tokens) ""
                        then refreshToken user
                        else refresh_token tokens)
                       expiryDate)
                end
            end
          else (Resolved (accessToken user), db)
      end
  end.

End Tasks.

(** *** Task lists and tasks *)

(** A task list and a task as Microsoft To Do gives them; an absent field
    is [None]. *)
Record todoList := {
  list_id : string;
  list_displayName : string
}.

Record todoTask := {
  todo_id : string;
  todo_title : string;
  todo_content : option string;   (* task.body?.content *)
  todo_dateTime : option string;  (* task.dueDateTime?.dateTime *)
  todo_status : option string
}.

(** A task as the service returns it; [taskList] is set by [listAllTasks]
    and [createTask] only, [taskListId] by them and [listTasks]. *)
Record task := {
  id : string;
  title : string;
  notes : string;
  due : option string;
  status : string;
  taskList : option string;
  taskListId : option string
}.

(** [task.status === 'completed' ? 'completed' : 'needsAction']. *)
Definition statusOf (microsoftStatus : option string) : string :=
  match microsoftStatus with
  | Some s => if String.eqb s "completed" then "completed" else "needsAction"
  | None => "needsAction"
  end.

(** The fields every function of the service copies from a Graph task. *)
Definition taskOf (t : todoTask) (taskList taskListId : option string)
  : task :=
  {| id := todo_id t;
     title := todo_title t;
     notes := match orElse (todo_content t) (Some "") with
              | Some s => s
              | None => ""
              end;
     due := orElse (todo_dateTime t) None;
     status := statusOf (todo_status t);
     taskList := taskList;
     taskListId := taskListId |}.

(** [s.endsWith(suffix)]. *)
Fixpoint endsWith (s suffix : string) : bool :=
  String.eqb s suffix
  || match s with
     | String _ rest => endsWith rest suffix
     | EmptyString => false
     end.

(** [s.slice(0, -1)]. *)
Fixpoint dropLast (s : string) : string :=
  match s with
  | EmptyString => EmptyString
  | String _ EmptyString => EmptyString
  | String c rest => String c (dropLast rest)
  end.

Definition isDigit (c : ascii) : bool :=
  let n := nat_of_ascii c in (48 <=? n)%nat && (n <=? 57)%nat.

(** [/^\d{4}-\d{2}-\d{2}$/.test(s)]. *)
Definition isDateOnly (s : string) : bool :=
  match s with
  | String y1 (String y2 (String y3 (String y4 (String h1
      (String m1 (String m2 (String h2
        (String d1 (String d2 EmptyString))))))))) =>
      isDigit y1 && isDigit y2 && isDigit y3 && isDigit y4
      && Ascii.eqb h1 "-" && isDigit m1 && isDigit m2
      && Ascii.eqb h2 "-" && isDigit d1 && isDigit d2
  | _ => false
  end.

(** The [dueDateTime] of a request body: the field is not set, is [null],
    or is [{ dateTime, timeZone: 'UTC' }]. *)
Inductive dueDateTime :=
| DueNotSet
| DueNull
| DueAt (dateTime : string).

(** What [createTask] makes of [taskData.due]. *)
Definition createTaskDue (due : option string) : dueDateTime :=
  match orElse due None with
  | Some dueDate =>
      DueAt (if isDateOnly dueDate then dueDate ++ "T00:00:00"
             else if endsWith dueDate "Z" then dropLast dueDate
                  else dueDate)
  | None => DueNotSet
  end.

(** What the caller of [updateTask] asks for; an absent field is [None],
    and [Some None] in [updates_due] is [null]. *)
Record taskUpdates := {
  updates_status : option string;
  updates_title : option string;
  updates_notes : option string;
  updates_due : option (option string)
}.

(** The body [updateTask] patches the task with. *)
Record taskPatch := {
  patch_status : option string;
  patch_title : option string;
  patch_content : option string;
  patch_dueDateTime : dueDateTime
}.

Definition updateTaskDue (due : option (option string)) : dueDateTime :=
  match due with
  | None => DueNotSet
  | Some due =>
      let dueDate :=
        match orElse due None with
        | Some d => if endsWith d "Z" then Some (dropLast d) else Some d
        | None => due
        end in
      match orElse dueDate None with
      | Some d => DueAt d
      | None => DueNull
      end
  end.

Definition updateTaskBody (updates : taskUpdates) : taskPatch :=
  {| patch_status :=
       match updates_status updates with
       | Some s =>
           Some (if String.eqb s "completed" then "completed"
                 else "notStarted")
       | None => None
       end;
     patch_title := updates_title updates;
     patch_content := updates_notes updates;
     patch_dueDateTime := updateTaskDue (updates_due updates) |}.

(** [updateTask]: [client] is the outcome of [getGraphClient], [remote]
    what Graph answers to the patch. The errors are passed on as they
    are. *)
Definition updateTask (updates : taskUpdates)
    (client : outcome unit serviceError)
    (remote : taskPatch -> outcome todoTask jsError)
  : outcome task serviceError :=
  match client with
  | Rejected e => Rejected e
  | Resolved _ =>
      match remote (updateTaskBody updates) with
      | Resolved response => Resolved (taskOf response None None)
      | Rejected e => Rejected (Collaborator e)
      end
  end.

Section TaskLists.
Variable mapGoogleApiError : serviceError -> serviceError.

(** [listAllTasks]: [client] is the outcome of [getGraphClient], [lists]
    what Graph answers to the request for the task lists: the [value] of
    the reply, each list with what the request for its tasks comes back
    with. *)
Definition listAllTasks (client : outcome unit serviceError)
    (lists :
       outcome
         (option (list (todoList * outcome (option (list todoTask)) jsError)))
         jsError)
  : outcome (list task) serviceError :=
  match client with
  | Rejected e => Rejected (mapGoogleApiError e)
  | Resolved _ =>
      match lists with
      | Rejected e => Rejected (mapGoogleApiError (Collaborator e))
      | Resolved value =>
          let taskLists := match value with Some l => l | None => [] end in
          match taskLists with
          | [] => Resolved []
          | _ =>
              Resolved
                (fold_left
                   (fun allTasks '(taskList, tasksResponse) =>
                      match tasksResponse with
                      | Resolved value =>
                          let listTasks :=
                            match value with Some l => l | None => [] end in
                          (allTasks
                             ++ map (fun t =>
                                       taskOf t
                                         (Some (list_displayName taskList))
                                         (Some (list_id taskList)))
                                  listTasks)%list
                      | Rejected _ => allTasks
                      end)
                   taskLists [])
          end
      end
  end.

End TaskLists.
End TasksService.

(** ** The scenario of the design document *)

Module Scenario.
Import Database.
Local Open Scope Z_scope.

(** Identity [u1], at time 0, with a safety margin of 120 s: a token that
    expires in 60 s needs a refresh, one that expires in an hour does not. *)
Definition u1 : JsString.t := JsString.ofString "u1".
Definition now : Z := 0.
Definition safetyMargin : Z := 120000.

Definition expiring : Database.t :=
  [(u1, {| accessToken := "old-access"; refreshToken := "old-refresh";
           tokenExpiry := 60000 |})].

Definition valid : Database.t :=
  [(u1, {| accessToken := "old-access"; refreshToken := "old-refresh";
           tokenExpiry := 3600000 |})].

Definition isTokenExpired : Z -> bool :=
  TokenExpiry.isTokenExpired now safetyMargin.

Definition determineExpiryDate : Z -> Z :=
  TokenExpiry.determineExpiryDate now.

(** The reply of the token endpoint to an expired refresh token that the
    validation plan mocks. *)
Definition expiredGrant : MicrosoftConfig.tokenEndpointReply :=
  MicrosoftConfig.ErrorReply (Some "invalid_grant")
    (Some "AADSTS70000: Refresh token has expired").

End Scenario.

(** * Properties *)

(** ** Timezone tables *)

Section TimezoneProperties.
Import Js Timezone.

Lemma value_eqb_eq (a b : value) : value_eqb a b = true -> a = b.
Proof.
  destruct a, b; simpl; intro H; try discriminate; try reflexivity;
    apply String.eqb_eq in H; now subst.
Qed.

Lemma ownProperty_in (o : object) (k v : string) :
  ownProperty o k = Some v -> In v (map snd o).
Proof.
  induction o as [|[k' v'] rest IH]; simpl; [discriminate|].
  destruct (String.eqb k' k).
  - intro H. injection H as ->. now left.
  - intro H. right. now apply IH.
Qed.

Lemma convertIANAToWindows_range (x : value) :
  In (convertIANAToWindows x) providerNames.
Proof.
  unfold convertIANAToWindows.
  destruct (negb (truthy x)); [now left|].
  unfold getProp.
  destruct (ownProperty ianaToWindowsMap (toPropertyKey x)) as [w|] eqn:Hown.
  - destruct (negb (truthy (Str w))); [now left|].
    right. apply in_or_app. left.
    apply ownProperty_in in Hown.
    rewrite in_map_iff in Hown. destruct Hown as [e [<- He]].
    apply in_map_iff. now exists e.
  - destruct (existsb (String.eqb (toPropertyKey x)) objectPrototypeKeys) eqn:Hp.
    + cbn [truthy negb]. right. apply in_or_app. right.
      apply existsb_exists in Hp. destruct Hp as [k [Hk Heq]].
      apply String.eqb_eq in Heq. rewrite Heq.
      now apply in_map.
    + now left.
Qed.

Lemma second_pass_on_provider_names :
  forallb
    (fun w => value_eqb
                (convertWindowsToIANA (convertIANAToWindows (convertWindowsToIANA w)))
                (convertWindowsToIANA w))
    providerNames = true.
Proof. vm_compute. reflexivity. Qed.

Lemma primary_on_table :
  forallb
    (fun e => match firstKeyFor (snd e) with
              | Some k => value_eqb (convertWindowsToIANA (Str (snd e))) (Str k)
              | None => false
              end)
    ianaToWindowsMap = true.
Proof. vm_compute. reflexivity. Qed.

(** C7: converting to the provider name and back is idempotent from the
    second application on, for every timezone name; the way back returns the
    first key of the table that carries the provider name; and the first
    pass need not give the input back. *)
Theorem C7_timezone_round_trip_idempotent :
  (forall x : string,
      convertWindowsToIANA
        (convertIANAToWindows
           (convertWindowsToIANA (convertIANAToWindows (Str x))))
      = convertWindowsToIANA (convertIANAToWindows (Str x)))
  /\ (forall windows k : string,
         firstKeyFor windows = Some k ->
         convertWindowsToIANA (Str windows) = Str k)
  /\ (exists x : string,
         convertWindowsToIANA (convertIANAToWindows (Str x)) <> Str x).
Proof.
  split; [|split].
  - intro x.
    pose proof (convertIANAToWindows_range (Str x)) as Hin.
    pose proof second_pass_on_provider_names as Hall.
    rewrite forallb_forall in Hall.
    apply value_eqb_eq. now apply Hall.
  - intros windows k Hk.
    pose proof Hk as Hfirst. unfold firstKeyFor in Hk.
    destruct (find _ ianaToWindowsMap) as [e|] eqn:Hfind; [|discriminate].
    apply find_some in Hfind. destruct Hfind as [Hin Heq].
    apply String.eqb_eq in Heq. subst windows.
    pose proof primary_on_table as Hall.
    rewrite forallb_forall in Hall. specialize (Hall e Hin).
    rewrite Hfirst in Hall.
    now apply value_eqb_eq.
  - exists "Europe/Budapest". vm_compute. discriminate.
Qed.

End TimezoneProperties.

(** ** Directory caches *)

Section CacheProperties.
Import Js GraphCaches.
Local Open Scope Z_scope.

Lemma JsString_eqb_refl (k : JsString.t) : JsString.eqb k k = true.
Proof.
  induction k as [|c k IH]; simpl; [reflexivity|].
  now rewrite N.eqb_refl, IH.
Qed.

Lemma JsMap_get_set_same {V : Type} (m : JsMap.t V) (k : JsString.t) (v : V) :
  JsMap.get (JsMap.set m k v) k = Some v.
Proof.
  induction m as [|[k' v'] rest IH]; simpl.
  - now rewrite JsString_eqb_refl.
  - destruct (JsString.eqb k' k) eqn:Hk; simpl; rewrite Hk; [reflexivity|exact IH].
Qed.

Variable error : Type.
Variable mapGoogleApiError : error -> string -> error.

(** A Graph request that succeeds on a miss stores its result under the
    identity, stamped with the time of the store. *)
Lemma listLabels_stores_on_miss (st : moduleState) (id : JsString.t)
    (now later : Z) (fs : list folder) :
  JsMap.get (folderDirectoryCache st) id = None ->
  let st' :=
    snd (fst (listLabels error mapGoogleApiError st id now
                (Resolved fs, later))) in
  JsMap.get (folderDirectoryCache st') id
  = Some {| payload := fs; timestamp := later |}.
Proof.
  intros Hmiss st'. subst st'. unfold listLabels. rewrite Hmiss.
  cbn [fst snd folderDirectoryCache]. apply JsMap_get_set_same.
Qed.

(** C8: an entry cached at time [T] is served, with no Graph request, by
    every read before [T + TTL]; from [T + TTL] on the read goes to Graph.
    The read itself removes nothing: the old entry is replaced when the
    request succeeds and is still in the map when it fails. *)
Theorem C8_ttl_cache_hit_then_lazy_miss
    (st : moduleState) (id : JsString.t) (T now : Z) :
  (forall (fs : list folder) remote,
      JsMap.get (folderDirectoryCache st) id
        = Some {| payload := fs; timestamp := T |} ->
      (now < T + FOLDER_CACHE_TTL_MS ->
         listLabels error mapGoogleApiError st id now remote
           = (Resolved fs, st, 0%nat))
      /\ (T + FOLDER_CACHE_TTL_MS <= now ->
            listLabels error mapGoogleApiError st id now remote
              = match remote with
                | (Resolved fs', later) =>
                    (Resolved fs',
                     {| activeRefreshes := activeRefreshes st;
                        folderDirectoryCache :=
                          JsMap.set (folderDirectoryCache st) id
                            {| payload := fs'; timestamp := later |};
                        userAddressCache := userAddressCache st |},
                     1%nat)
                | (Rejected e, _) =>
                    (Rejected (mapGoogleApiError e "listLabels"), st, 1%nat)
                end))
  /\ (forall (addrs : list string) remote,
         JsMap.get (userAddressCache st) id
           = Some {| payload := addrs; timestamp := T |} ->
         (now < T + USER_ADDRESS_CACHE_TTL_MS ->
            getUserAddresses error mapGoogleApiError st id now remote
              = (Resolved addrs, st, 0%nat))
         /\ (T + USER_ADDRESS_CACHE_TTL_MS <= now ->
               getUserAddresses error mapGoogleApiError st id now remote
                 = match remote with
                   | (Resolved addrs', later) =>
                       (Resolved addrs',
                        {| activeRefreshes := activeRefreshes st;
                           folderDirectoryCache := folderDirectoryCache st;
                           userAddressCache :=
                             JsMap.set (userAddressCache st) id
                               {| payload := addrs'; timestamp := later |} |},
                        1%nat)
                   | (Rejected e, _) =>
                       (Rejected (mapGoogleApiError e "getUserAddresses"),
                        st, 1%nat)
                   end)).
Proof.
  split; intros p remote Hget; split; intro Hnow.
  - unfold listLabels. rewrite Hget. cbn [timestamp payload].
    destruct (Z.ltb_spec (now - T) FOLDER_CACHE_TTL_MS); [reflexivity|lia].
  - unfold listLabels. rewrite Hget. cbn [timestamp payload].
    destruct (Z.ltb_spec (now - T) FOLDER_CACHE_TTL_MS); [lia|].
    now destruct remote as [[fs'|e] later].
  - unfold getUserAddresses. rewrite Hget. cbn [timestamp payload].
    destruct (Z.ltb_spec (now - T) USER_ADDRESS_CACHE_TTL_MS); [reflexivity|lia].
  - unfold getUserAddresses. rewrite Hget. cbn [timestamp payload].
    destruct (Z.ltb_spec (now - T) USER_ADDRESS_CACHE_TTL_MS); [lia|].
    now destruct remote as [[a'|e] later].
Qed.

(** *** Diagnostics *)

Lemma in_insertSorted (x y : entrySummary) (l : list entrySummary) :
  In x (insertSorted y l) -> x = y \/ In x l.
Proof.
  induction l as [|z rest IH]; simpl.
  - intros [<-|[]]. now left.
  - destruct (compareByAge y z >? 0); simpl.
    + intros [<-|H]; [right; now left|].
      destruct (IH H) as [->|Hin]; [now left|right; now right].
    + intros [<-|[<-|H]]; [now left|right; now left|right; now right].
Qed.

Lemma in_sortEntries (x : entrySummary) (l : list entrySummary) :
  In x (sortEntries l) -> In x l.
Proof.
  induction l as [|y rest IH]; simpl; [easy|].
  intro H. apply in_insertSorted in H. destruct H as [->|H]; [now left|].
  right. now apply IH.
Qed.

Lemma in_firstn {A : Type} (n : nat) (x : A) (l : list A) :
  In x (firstn n l) -> In x l.
Proof.
  intro H. rewrite <- (firstn_skipn n l). apply in_or_app. now left.
Qed.

Lemma summary_keys_masked {P : Type} (cache : JsMap.t (cacheEntry P))
    (ttl now : Z) (k' : JsString.t) :
  In k' (map key (entries (summarizeCacheEntries cache ttl now))) ->
  exists k, In k (JsMap.keys cache) /\ k' = maskDebugKey k.
Proof.
  unfold summarizeCacheEntries. cbn [entries].
  rewrite in_map_iff. intros [e [<- He]].
  apply in_firstn, in_sortEntries in He.
  rewrite in_map_iff in He. destruct He as [[k v] [<- Hin]].
  exists k. split; [|reflexivity].
  unfold JsMap.keys. apply in_map_iff. now exists (k, v).
Qed.

Lemma maskDebugKey_long (k : JsString.t) :
  (6 < List.length k)%nat ->
  maskDebugKey k
    = (firstn 3 k ++ [JsString.ellipsis] ++ skipn (List.length k - 2) k)%list
  /\ List.length (maskDebugKey k) = 6%nat
  /\ maskDebugKey k <> k.
Proof.
  intro Hlen. unfold maskDebugKey.
  destruct (Nat.leb_spec (List.length k) 6) as [Hle|_]; [lia|].
  unfold JsString.sliceTo, JsString.sliceLast.
  assert (Hsix : List.length
            (firstn 3 k ++ [JsString.ellipsis]
               ++ skipn (List.length k - 2) k)%list = 6%nat).
  { rewrite !length_app, length_firstn, length_skipn. cbn [List.length]. lia. }
  split; [reflexivity|]. split; [exact Hsix|].
  intro Heq. rewrite Heq in Hsix. lia.
Qed.

(** C9, as the code has it: every key in a diagnostics report is
    [maskDebugKey] of a key one of the three maps holds. A key of more than
    six code units is shown as its first three, an ellipsis and its last
    two, which is never the key itself; a key of at most six code units is
    shown as it is. *)
Theorem C9_diagnostics_mask_long_keys (st : moduleState) (now : Z)
    (shown : JsString.t) :
  In shown (reportedKeys (getDebugDiagnostics st now)) ->
  exists k,
    In k (heldKeys st)
    /\ shown = maskDebugKey k
    /\ ((6 < List.length k)%nat ->
          shown = (firstn 3 k ++ [JsString.ellipsis]
                     ++ skipn (List.length k - 2) k)%list
          /\ shown <> k)
    /\ ((List.length k <= 6)%nat -> shown = k).
Proof.
  unfold reportedKeys, getDebugDiagnostics, heldKeys.
  cbn [refreshUsers folderSummary addressSummary].
  intro Hin.
  assert (Hk : exists k,
             In k (JsMap.keys (activeRefreshes st)
                     ++ JsMap.keys (folderDirectoryCache st)
                     ++ JsMap.keys (userAddressCache st))%list
             /\ shown = maskDebugKey k).
  { apply in_app_or in Hin. destruct Hin as [Hin|Hin].
    - rewrite in_map_iff in Hin. destruct Hin as [k [<- Hk]].
      exists k. split; [|reflexivity]. apply in_or_app. now left.
    - apply in_app_or in Hin. destruct Hin as [Hin|Hin];
        apply summary_keys_masked in Hin; destruct Hin as [k [Hk ->]];
        exists k; (split; [|reflexivity]); apply in_or_app; right;
        apply in_or_app; [now left|now right]. }
  destruct Hk as [k [Hheld ->]].
  exists k. split; [exact Hheld|]. split; [reflexivity|]. split.
  - intro Hlen. destruct (maskDebugKey_long k Hlen) as [Hshape [_ Hneq]].
    now split.
  - intro Hlen. unfold maskDebugKey.
    destruct (Nat.leb_spec (List.length k) 6); [reflexivity|lia].
Qed.

(** C9 does not hold for a short identity id: with a refresh in flight
    for the id [u1], the report lists [u1] in full. *)
Lemma C9_short_key_shown_in_full :
  let u1 := JsString.ofString "u1" in
  let st := {| activeRefreshes := [(u1, 0%nat)];
               folderDirectoryCache := [];
               userAddressCache := [] |} in
  In u1 (heldKeys st)
  /\ reportedKeys (getDebugDiagnostics st 0) = [u1].
Proof. split; [now left|reflexivity]. Qed.

(** *** Flushing *)

Lemma setHas_fold_setAdd (l acc : list string) (x : string) :
  Js.setHas (fold_left Js.setAdd l acc) x
  = Js.setHas acc x || existsb (String.eqb x) l.
Proof.
  revert acc. induction l as [|y rest IH]; intro acc; simpl.
  - now rewrite orb_false_r.
  - rewrite IH. unfold Js.setAdd.
    destruct (Js.setHas acc y) eqn:Hy.
    + destruct (String.eqb x y) eqn:Hxy; [|reflexivity].
      apply String.eqb_eq in Hxy. subst y. now rewrite Hy.
    + unfold Js.setHas. rewrite existsb_app. simpl.
      now rewrite orb_false_r, orb_assoc.
Qed.

Lemma existsb_filter_recognized (l : list string) (x : string) :
  (String.eqb x "folders" || String.eqb x "addresses") = true ->
  existsb (String.eqb x)
    (filter (fun target => String.eqb target "folders"
                           || String.eqb target "addresses") l)
  = existsb (String.eqb x) l.
Proof.
  intro Hx. induction l as [|y rest IH]; simpl; [reflexivity|].
  destruct (String.eqb y "folders" || String.eqb y "addresses") eqn:Hy; simpl.
  - now rewrite IH.
  - rewrite IH. destruct (String.eqb x y) eqn:Hxy; [|reflexivity].
    apply String.eqb_eq in Hxy. subst y. congruence.
Qed.

Lemma existsb_eqb_In (l : list string) (x : string) :
  existsb (String.eqb x) l = true <-> In x l.
Proof.
  rewrite existsb_exists. split.
  - intros [y [Hy Heq]]. apply String.eqb_eq in Heq. now subst.
  - intro H. exists x. split; [exact H|apply String.eqb_refl].
Qed.

Lemma filter_recognized_nil (l : list string) :
  filter (fun target => String.eqb target "folders"
                        || String.eqb target "addresses") l = []
  <-> ~ In "folders" l /\ ~ In "addresses" l.
Proof.
  induction l as [|y rest IH]; simpl; [tauto|].
  destruct (String.eqb y "folders") eqn:Hf; simpl.
  - apply String.eqb_eq in Hf. subst y. split; [discriminate|tauto].
  - destruct (String.eqb y "addresses") eqn:Ha; simpl.
    + apply String.eqb_eq in Ha. subst y. split; [discriminate|tauto].
    + apply String.eqb_neq in Hf, Ha. rewrite IH. split.
      * intros [H1 H2]. split; intros [H|H]; congruence || tauto.
      * tauto.
Qed.

Lemma fold_setAdd_nil (l : list string) :
  fold_left Js.setAdd l [] = [] -> l = [].
Proof.
  destruct l as [|y rest]; [reflexivity|]. intro H.
  pose proof (setHas_fold_setAdd (y :: rest) [] y) as Hy.
  rewrite H in Hy. simpl in Hy. now rewrite String.eqb_refl in Hy.
Qed.

(** C10: when no target, lower-cased, is ['folders'] or ['addresses'] (the
    list may be absent or empty), both caches are emptied and their former
    sizes reported; otherwise a cache is emptied, and its former size
    reported, exactly when its name is among the lower-cased targets, and
    the other cache is left as it was. The in-flight map is never touched. *)
Theorem C10_flush_targets (st : moduleState) (targets : option (list string)) :
  let names := normalizedTargets targets in
  let result := fst (flushDebugCaches st targets) in
  let st' := snd (flushDebugCaches st targets) in
  activeRefreshes st' = activeRefreshes st
  /\ (~ In "folders" names /\ ~ In "addresses" names ->
        folderDirectoryCache st' = [] /\ userAddressCache st' = []
        /\ clearedFolders result = Some (JsMap.size (folderDirectoryCache st))
        /\ clearedAddresses result = Some (JsMap.size (userAddressCache st))
        /\ flushedTargets result = ["folders"; "addresses"])
  /\ (In "folders" names \/ In "addresses" names ->
        (In "folders" names ->
           folderDirectoryCache st' = []
           /\ clearedFolders result
              = Some (JsMap.size (folderDirectoryCache st)))
        /\ (~ In "folders" names ->
              folderDirectoryCache st' = folderDirectoryCache st
              /\ clearedFolders result = None)
        /\ (In "addresses" names ->
              userAddressCache st' = []
              /\ clearedAddresses result
                 = Some (JsMap.size (userAddressCache st)))
        /\ (~ In "addresses" names ->
              userAddressCache st' = userAddressCache st
              /\ clearedAddresses result = None)).
Proof.
  intros names result st'. subst result st'. unfold flushDebugCaches.
  fold names.
  set (kept := filter _ names).
  set (targetSet := fold_left Js.setAdd kept []).
  cbn [fst snd activeRefreshes folderDirectoryCache userAddressCache
       clearedFolders clearedAddresses flushedTargets].
  split; [reflexivity|]. split.
  - intro Hnone. apply filter_recognized_nil in Hnone.
    subst targetSet. fold kept in Hnone. rewrite Hnone. simpl. tauto.
  - intro Hsome.
    assert (Hne : (List.length targetSet =? 0)%nat = false).
    { apply Nat.eqb_neq. intro Hlen.
      apply length_zero_iff_nil, fold_setAdd_nil in Hlen.
      apply filter_recognized_nil in Hlen. tauto. }
    rewrite Hne.
    assert (Hhas : forall x,
               (String.eqb x "folders" || String.eqb x "addresses") = true ->
               Js.setHas targetSet x = true <-> In x names).
    { intros x Hx. subst targetSet kept.
      rewrite setHas_fold_setAdd, existsb_filter_recognized by exact Hx.
      simpl. apply existsb_eqb_In. }
    pose proof (Hhas "folders" eq_refl) as Hf.
    pose proof (Hhas "addresses" eq_refl) as Ha.
    destruct (Js.setHas targetSet "folders");
      destruct (Js.setHas targetSet "addresses");
      repeat split; intros; try reflexivity;
      try (exfalso; intuition congruence).
Qed.

End CacheProperties.

(** ** Authenticated-call wrapper *)

Section WrapperProperties.
Import Js GraphService.

Variable A : Type.
Variable apiCall : nat -> outcome A jsError.
Variable forcedRefresh : nat -> outcome string tokenError.

Lemma handleGraphApiCall_unfold (n : nat) :
  handleGraphApiCall A apiCall forcedRefresh n
  = match apiCall n with
    | Resolved result => (Resolved result, [ApiCalled n])
    | Rejected error =>
        if is401 error && (n <? MAX_RETRIES)%nat then
          match forcedRefresh n with
          | Resolved _ =>
              let '(result, events) :=
                handleGraphApiCall A apiCall forcedRefresh (S n) in
              (result, ApiCalled n :: RefreshForced n :: events)
          | Rejected refreshError =>
              (Rejected refreshError, [ApiCalled n; RefreshForced n])
          end
        else (Rejected (Thrown error), [ApiCalled n])
    end.
Proof.
  funelim (handleGraphApiCall A apiCall forcedRefresh n);
    repeat match goal with
      | H : apiCall _ = _ |- _ => rewrite H; clear H
      | H : is401 _ = _ |- _ => rewrite H; clear H
      | H : forcedRefresh _ = _ |- _ => rewrite H; clear H
      end;
    try (destruct (Nat.ltb_spec retryCount MAX_RETRIES); try lia);
    rewrite ?andb_false_r; reflexivity.
Qed.

Lemma handleGraphApiCall_bounded (n : nat) :
  (apiCalls (snd (handleGraphApiCall A apiCall forcedRefresh n))
     <= S (MAX_RETRIES - n))%nat
  /\ (forcedRefreshes (snd (handleGraphApiCall A apiCall forcedRefresh n))
        <= MAX_RETRIES - n)%nat.
Proof.
  funelim (handleGraphApiCall A apiCall forcedRefresh n);
    unfold apiCalls, forcedRefreshes in *;
    try (cbn [snd filter List.length]; lia).
  destruct (handleGraphApiCall A apiCall forcedRefresh (S retryCount))
    as [result events].
  cbn [snd filter List.length] in *. lia.
Qed.

(** C2, as the code has it: a run makes at most [MAX_RETRIES + 1 = 3] calls
    and forces at most [MAX_RETRIES = 2] refreshes. An Unauthorized failure
    of the first or of the second call forces a refresh and calls again; an
    Unauthorized failure of the third call is surfaced. A call that
    succeeds after one recovery ends the run; a forced refresh that fails
    is surfaced at once; a failure that is not Unauthorized is surfaced with
    no refresh. 401 is not among the status codes the retry executor
    retries by default. *)
Theorem C2_unauthorized_recovered_up_to_twice :
  ((apiCalls (snd (handleGraphApiCall A apiCall forcedRefresh 0)) <= 3)%nat
   /\ (forcedRefreshes (snd (handleGraphApiCall A apiCall forcedRefresh 0))
         <= 2)%nat)
  /\ (forall e0 e1 e2 t0 t1,
         apiCall 0%nat = Rejected e0 -> is401 e0 = true ->
         forcedRefresh 0%nat = Resolved t0 ->
         apiCall 1%nat = Rejected e1 -> is401 e1 = true ->
         forcedRefresh 1%nat = Resolved t1 ->
         apiCall 2%nat = Rejected e2 ->
         handleGraphApiCall A apiCall forcedRefresh 0
         = (Rejected (Thrown e2),
            [ApiCalled 0; RefreshForced 0; ApiCalled 1; RefreshForced 1;
             ApiCalled 2]))
  /\ (forall e0 t0 result,
         apiCall 0%nat = Rejected e0 -> is401 e0 = true ->
         forcedRefresh 0%nat = Resolved t0 ->
         apiCall 1%nat = Resolved result ->
         handleGraphApiCall A apiCall forcedRefresh 0
         = (Resolved result, [ApiCalled 0; RefreshForced 0; ApiCalled 1]))
  /\ (forall n e refreshError,
         (n < MAX_RETRIES)%nat ->
         apiCall n = Rejected e -> is401 e = true ->
         forcedRefresh n = Rejected refreshError ->
         handleGraphApiCall A apiCall forcedRefresh n
         = (Rejected refreshError, [ApiCalled n; RefreshForced n]))
  /\ (forall n e,
         apiCall n = Rejected e -> is401 e = false ->
         handleGraphApiCall A apiCall forcedRefresh n
         = (Rejected (Thrown e), [ApiCalled n]))
  /\ existsb (Z.eqb 401)
       (GraphRetry.retryableStatusCodes GraphRetry.DEFAULT_CONFIG) = false
  /\ (forall e,
         statusCode e = Some 401%Z ->
         GraphRetry.includesCode
           (GraphRetry.retryableErrorCodes GraphRetry.DEFAULT_CONFIG) (code e)
         = false ->
         GraphRetry.includesCode
           (GraphRetry.retryableErrorCodes GraphRetry.DEFAULT_CONFIG)
           (bodyErrorCode e)
         = false ->
         GraphRetry.isRetryableError e
           (GraphRetry.retryableStatusCodes GraphRetry.DEFAULT_CONFIG)
           (GraphRetry.retryableErrorCodes GraphRetry.DEFAULT_CONFIG)
         = false).
Proof.
  split; [|split; [|split; [|split; [|split; [|split]]]]].
  - exact (handleGraphApiCall_bounded 0).
  - intros e0 e1 e2 t0 t1 H0 A0 R0 H1 A1 R1 H2.
    rewrite (handleGraphApiCall_unfold 0), H0, A0, R0.
    rewrite (handleGraphApiCall_unfold 1), H1, A1, R1.
    rewrite (handleGraphApiCall_unfold 2), H2.
    cbn. now rewrite andb_false_r.
  - intros e0 t0 result H0 A0 R0 H1.
    rewrite (handleGraphApiCall_unfold 0), H0, A0, R0.
    rewrite (handleGraphApiCall_unfold 1), H1. reflexivity.
  - intros n e refreshError Hn Hcall H401 Hrefresh.
    rewrite (handleGraphApiCall_unfold n), Hcall, H401, Hrefresh.
    destruct (Nat.ltb_spec n MAX_RETRIES); [reflexivity|lia].
  - intros n e Hcall H401.
    now rewrite (handleGraphApiCall_unfold n), Hcall, H401.
  - reflexivity.
  - intros e Hstatus Hcode Hbody.
    unfold GraphRetry.isRetryableError. rewrite Hstatus, Hcode, Hbody.
    reflexivity.
Qed.

End WrapperProperties.

(** C2 does not hold with one recovery: when the retried call is
    Unauthorized again, the wrapper does not surface the error; it forces a
    second refresh and makes a third call, which here succeeds. *)
Lemma C2_second_unauthorized_recovered_again :
  let unauthorized :=
    {| Js.statusCode := Some 401%Z; Js.code := None; Js.bodyErrorCode := None;
       Js.message := None; Js.headersRetryAfter := None;
       Js.responseHeadersRetryAfter := None |} in
  GraphService.handleGraphApiCall nat
    (fun n => if (n <? 2)%nat then Js.Rejected unauthorized
              else Js.Resolved n)
    (fun _ => Js.Resolved "fresh-token") 0
  = (Js.Resolved 2%nat,
     [GraphService.ApiCalled 0; GraphService.RefreshForced 0;
      GraphService.ApiCalled 1; GraphService.RefreshForced 1;
      GraphService.ApiCalled 2]).
Proof. vm_compute. reflexivity. Qed.

(** ** Token management *)

Section TokenProperties.
Import Js MicrosoftConfig Database GraphService.

Variable isTokenExpired : Z -> bool.
Variable determineExpiryDate : Z -> Z.

Local Abbreviation run := (GraphService.run isTokenExpired determineExpiryDate).
Local Abbreviation step := (GraphService.step isTokenExpired determineExpiryDate).

Lemma replace_at_length {X : Type} (l1 l2 : list X) (x y : X) :
  replace (l1 ++ x :: l2) (List.length l1) y = (l1 ++ y :: l2)%list.
Proof.
  induction l1 as [|z l1 IH]; simpl; [reflexivity|]. now rewrite IH.
Qed.

Lemma run_app (w : world) (es1 es2 : list event) :
  run w (es1 ++ es2) = run (run w es1) es2.
Proof. apply fold_left_app. Qed.

(** Calls made while nothing is in flight all go on to load the user. *)
Lemma run_calls_nothing_in_flight (db : Database.t) (id : JsString.t)
    (force : bool) (n : nat) (ps : list refreshState) (cs : list callState)
    (ts : list (JsString.t * string)) :
  run {| database := db; activeRefreshes := []; promises := ps; calls := cs;
         tokenRequests := ts |}
    (repeat (Call id force) n)
  = {| database := db; activeRefreshes := []; promises := ps;
       calls := (cs ++ repeat (AwaitingUser id force) n)%list;
       tokenRequests := ts |}.
Proof.
  revert cs. induction n as [|n IH]; intro cs.
  - cbn. now rewrite app_nil_r.
  - cbn [repeat]. unfold GraphService.run in *. cbn [fold_left].
    cbn [GraphService.step activeRefreshes JsMap.get database promises calls
         tokenRequests].
    rewrite IH, <- app_assoc. reflexivity.
Qed.

Lemma racing_step (db : Database.t) (id : JsString.t) (u : user) (n j : nat) :
  getUserByMicrosoftId db id = Some u ->
  isTokenExpired (tokenExpiry u) = true ->
  (j < n)%nat ->
  step (racing db id (refreshToken u) n j) (UserLoaded j None)
  = racing db id (refreshToken u) n (S j).
Proof.
  intros Hget Hexpired Hlt.
  assert (Hlen : List.length (map (AwaitingOwnRefresh id) (seq 0 j)) = j)
    by now rewrite length_map, length_seq.
  destruct (n - j)%nat as [|m] eqn:Hm; [lia|].
  assert (Hm' : (n - S j)%nat = m) by lia.
  unfold racing. rewrite Hm, Hm'.
  cbn [GraphService.step calls database promises activeRefreshes
       tokenRequests].
  rewrite nth_error_app2 by lia.
  rewrite Hlen, Nat.sub_diag. cbn [repeat nth_error].
  rewrite Hget, Hexpired. cbn [orb negb].
  rewrite repeat_length.
  f_equal.
  - destruct j as [|k]; cbn [JsMap.set]; [reflexivity|].
    now rewrite JsString_eqb_refl.
  - now rewrite <- repeat_cons.
  - rewrite <- Hlen at 2. rewrite replace_at_length.
    rewrite seq_S, map_app, <- app_assoc. reflexivity.
  - now rewrite <- repeat_cons.
Qed.

Lemma racing_run (db : Database.t) (id : JsString.t) (u : user) (n j : nat) :
  getUserByMicrosoftId db id = Some u ->
  isTokenExpired (tokenExpiry u) = true ->
  (j <= n)%nat ->
  run (racing db id (refreshToken u) n 0)
    (map (fun call => UserLoaded call None) (seq 0 j))
  = racing db id (refreshToken u) n j.
Proof.
  intros Hget Hexpired. induction j as [|j IH]; intro Hle.
  - reflexivity.
  - rewrite seq_S, map_app, run_app, IH by lia.
    cbn [map Nat.add]. unfold GraphService.run. cbn [fold_left].
    apply racing_step; [assumption|assumption|lia].
Qed.

(** C1, as the code has it: [n] calls for one identity made in the same
    turn against an expired token post [n] refreshes to the token endpoint,
    and each call waits for a promise of its own. The check of
    [activeRefreshes] comes before the load of the user is awaited and the
    promise is stored after it, so none of the calls sees another's. *)
Theorem C1_simultaneous_calls_each_refresh (db : Database.t)
    (id : JsString.t) (u : user) (n : nat) :
  getUserByMicrosoftId db id = Some u ->
  isTokenExpired (tokenExpiry u) = true ->
  let w := run (atRest db) (simultaneousCalls id n) in
  List.length (tokenRequests w) = n
  /\ tokenRequests w = repeat (id, refreshToken u) n
  /\ calls w = map (AwaitingOwnRefresh id) (seq 0 n).
Proof.
  intros Hget Hexpired w. subst w. unfold simultaneousCalls, atRest.
  rewrite run_app, run_calls_nothing_in_flight. cbn [app].
  assert (Hstart :
            {| database := db; activeRefreshes := []; promises := [];
               calls := repeat (AwaitingUser id false) n;
               tokenRequests := [] |}
            = racing db id (refreshToken u) n 0).
  { unfold racing. now rewrite Nat.sub_0_r. }
  rewrite Hstart, (racing_run db id u n n Hget Hexpired (le_n n)).
  unfold racing. cbn [tokenRequests calls].
  rewrite repeat_length, Nat.sub_diag. cbn [repeat].
  now rewrite app_nil_r.
Qed.

(** A call that comes in once the promise is stored waits for it and
    posts nothing. *)
Lemma call_joins_refresh_in_flight (w : world) (id : JsString.t)
    (force : bool) (promise : nat) :
  JsMap.get (activeRefreshes w) id = Some promise ->
  calls (step w (Call id force))
  = (calls w ++ [AwaitingActiveRefresh promise])%list
  /\ tokenRequests (step w (Call id force)) = tokenRequests w
  /\ promises (step w (Call id force)) = promises w.
Proof. intro Hget. cbn. now rewrite Hget. Qed.

Lemma refreshRun_succeeds (db : Database.t) (id : JsString.t) (u : user)
    (force : bool) (access : string) (refresh : option string) (expires : Z) :
  getUserByMicrosoftId db id = Some u ->
  force || isTokenExpired (tokenExpiry u) = true ->
  run (atRest db) (refreshRun id force (TokenReply access refresh expires))
  = {| database :=
         JsMap.set db id
           {| accessToken := access;
              refreshToken :=
                match orElse refresh (Some (refreshToken u)) with
                | Some r => r
                | None => refreshToken u
                end;
              tokenExpiry := determineExpiryDate expires |};
       activeRefreshes := [];
       promises := [Settled (Resolved access)];
       calls := [Returned (Resolved access)];
       tokenRequests := [(id, refreshToken u)] |}.
Proof.
  intros Hget Hneeds.
  unfold refreshRun, atRest, GraphService.run. cbn [fold_left].
  cbn [GraphService.step activeRefreshes JsMap.get calls app].
  cbn [GraphService.step calls nth_error database].
  rewrite Hget, Hneeds. cbn [negb].
  cbn [GraphService.step promises List.length app nth_error
       refreshAccessToken setPromise replace database activeRefreshes calls
       tokenRequests expires_in access_token refresh_token JsMap.set].
  cbn [GraphService.step promises List.length app nth_error
       refreshAccessToken setPromise replace database activeRefreshes calls
       tokenRequests expires_in access_token refresh_token JsMap.delete].
  rewrite JsString_eqb_refl.
  unfold updateTokens. unfold getUserByMicrosoftId in Hget. rewrite Hget.
  reflexivity.
Qed.

(** A call that is alone: after its refresh has succeeded, the record
    holds the new access token and the new expiry; its refresh token is the
    one of the reply when the reply has one, and the one stored before when
    the reply has none (an empty one counts as none). Both
    [getValidAccessToken]s, of the Graph service and of the tasks service,
    do so. *)
Lemma lone_refresh_keeps_or_rotates (db : Database.t) (id : JsString.t)
    (u : user) (access : string) (refresh : option string) (expires : Z) :
  getUserByMicrosoftId db id = Some u ->
  let stored :=
    match refresh with
    | Some r => if String.eqb r "" then refreshToken u else r
    | None => refreshToken u
    end in
  let record :=
    {| accessToken := access; refreshToken := stored;
       tokenExpiry := determineExpiryDate expires |} in
  (refresh = None -> stored = refreshToken u)
  /\ (forall r, refresh = Some r -> r <> "" -> stored = r)
  /\ (forall force,
         force || isTokenExpired (tokenExpiry u) = true ->
         let w :=
           run (atRest db)
             (refreshRun id force (TokenReply access refresh expires)) in
         getUserByMicrosoftId (database w) id = Some record
         /\ calls w = [Returned (Resolved access)]
         /\ tokenRequests w = [(id, refreshToken u)])
  /\ (forall mapGoogleApiError lastUsedUpdate,
         isTokenExpired (tokenExpiry u) = true ->
         let result :=
           TasksService.getValidAccessToken isTokenExpired determineExpiryDate
             mapGoogleApiError db id None lastUsedUpdate
             (TokenReply access refresh expires) None in
         fst result = Resolved access
         /\ getUserByMicrosoftId (snd result) id = Some record).
Proof.
  intros Hget stored record.
  assert (Hstored :
            match orElse refresh (Some (refreshToken u)) with
            | Some r => r
            | None => refreshToken u
            end = stored).
  { subst stored. destruct refresh as [r|]; cbn; [|reflexivity].
    now destruct (String.eqb r ""). }
  split; [|split; [|split]].
  - intros ->. reflexivity.
  - intros r -> Hr. subst stored. apply String.eqb_neq in Hr.
    now rewrite Hr.
  - intros force Hneeds w. subst w.
    rewrite (refreshRun_succeeds db id u force access refresh expires Hget
               Hneeds).
    cbn [database calls tokenRequests]. rewrite Hstored.
    split; [|split; reflexivity].
    apply JsMap_get_set_same.
  - intros mapGoogleApiError lastUsedUpdate Hexpired result. subst result.
    unfold TasksService.getValidAccessToken.
    rewrite Hget, Hexpired.
    cbn [refreshAccessToken access_token refresh_token expires_in fst snd].
    rewrite Hstored.
    assert (Hagain : (if String.eqb stored "" then refreshToken u else stored)
                     = stored).
    { subst stored. destruct refresh as [r|].
      - destruct (String.eqb r "") eqn:Hr; [|now rewrite Hr].
        now destruct (String.eqb (refreshToken u) "").
      - now destruct (String.eqb (refreshToken u) ""). }
    rewrite Hagain. split; [reflexivity|].
    unfold updateTokens. unfold getUserByMicrosoftId in *. rewrite Hget.
    apply JsMap_get_set_same.
Qed.

Lemma simultaneousCalls_racing (db : Database.t) (id : JsString.t)
    (u : user) (n : nat) :
  getUserByMicrosoftId db id = Some u ->
  isTokenExpired (tokenExpiry u) = true ->
  run (atRest db) (simultaneousCalls id n)
  = racing db id (refreshToken u) n n.
Proof.
  intros Hget Hexpired. unfold simultaneousCalls, atRest.
  rewrite run_app, run_calls_nothing_in_flight. cbn [app].
  assert (Hstart :
            {| database := db; activeRefreshes := []; promises := [];
               calls := repeat (AwaitingUser id false) n;
               tokenRequests := [] |}
            = racing db id (refreshToken u) n 0).
  { unfold racing. now rewrite Nat.sub_0_r. }
  rewrite Hstart. apply (racing_run db id u n n Hget Hexpired (le_n n)).
Qed.

(** C3, as the code has it: a refresh that succeeds with a reply that has
    no refresh token writes back the refresh token it posted, which need
    not be the one stored at that time. Two calls made in the same turn
    against an expired token each post the stored refresh token. When the
    reply to the first carries a new refresh token, the record holds that
    new token once the first write is done; the second refresh then
    succeeds with a reply that has none, and its write puts the refresh
    token of before the rotation back in the place of the stored one. *)
Theorem C3_stale_refresh_token_written_back (db : Database.t)
    (id : JsString.t) (u : user) (accessA refreshA accessB : string)
    (expiresA expiresB : Z) :
  getUserByMicrosoftId db id = Some u ->
  isTokenExpired (tokenExpiry u) = true ->
  refreshA <> "" ->
  let first := TokenReply accessA (Some refreshA) expiresA in
  let second := TokenReply accessB None expiresB in
  let before :=
    run (atRest db)
      (simultaneousCalls id 2
         ++ [EndpointReplied 0 first; TokensUpdated 0 None;
             EndpointReplied 1 second])%list in
  let after := run (atRest db) (twoRefreshes id first second) in
  getUserByMicrosoftId (database before) id
  = Some {| accessToken := accessA; refreshToken := refreshA;
            tokenExpiry := determineExpiryDate expiresA |}
  /\ after = step before (TokensUpdated 1 None)
  /\ getUserByMicrosoftId (database after) id
     = Some {| accessToken := accessB; refreshToken := refreshToken u;
               tokenExpiry := determineExpiryDate expiresB |}
  /\ promises after
     = [Settled (Resolved accessA); Settled (Resolved accessB)]
  /\ tokenRequests after = [(id, refreshToken u); (id, refreshToken u)].
Proof.
  intros Hget Hexpired HrefreshA first second before after.
  assert (Hrotated :
            match orElse (Some refreshA) (Some (refreshToken u)) with
            | Some r => r
            | None => refreshToken u
            end = refreshA).
  { cbn [orElse]. apply String.eqb_neq in HrefreshA. now rewrite HrefreshA. }
  assert (Hbefore :
    before
    = {| database :=
           JsMap.set db id
             {| accessToken := accessA; refreshToken := refreshA;
                tokenExpiry := determineExpiryDate expiresA |};
         activeRefreshes := [(id, 1%nat)];
         promises :=
           [Settled (Resolved accessA);
            AwaitingUpdate id
              {| access_token := accessB; refresh_token := refreshToken u;
                 expires_in := expiresB |}
              (determineExpiryDate expiresB)];
         calls := [AwaitingOwnRefresh id 0; AwaitingOwnRefresh id 1];
         tokenRequests := [(id, refreshToken u); (id, refreshToken u)] |}).
  { subst before first second.
    rewrite run_app, (simultaneousCalls_racing db id u 2 Hget Hexpired).
    unfold racing, GraphService.run. cbn [fold_left repeat seq map app Nat.sub].
    cbn [GraphService.step promises nth_error refreshAccessToken setPromise
         replace database activeRefreshes calls tokenRequests expires_in
         access_token refresh_token].
    rewrite Hrotated.
    cbn [GraphService.step promises nth_error refreshAccessToken setPromise
         replace database activeRefreshes calls tokenRequests expires_in
         access_token refresh_token orElse].
    unfold updateTokens. unfold getUserByMicrosoftId in Hget. rewrite Hget.
    reflexivity. }
  assert (Hafter : after = step before (TokensUpdated 1 None)).
  { subst after before. unfold twoRefreshes.
    replace [EndpointReplied 0 first; TokensUpdated 0 None;
             EndpointReplied 1 second; TokensUpdated 1 None]
      with ([EndpointReplied 0 first; TokensUpdated 0 None;
             EndpointReplied 1 second] ++ [TokensUpdated 1 None])%list
      by reflexivity.
    rewrite app_assoc, (run_app _ _ [TokensUpdated 1 None]). reflexivity. }
  split; [|split; [exact Hafter|]].
  - rewrite Hbefore. cbn [database]. apply JsMap_get_set_same.
  - rewrite Hafter, Hbefore.
    cbn [GraphService.step promises nth_error replace database
         activeRefreshes calls tokenRequests access_token refresh_token].
    unfold updateTokens, getUserByMicrosoftId.
    rewrite JsMap_get_set_same.
    split; [apply JsMap_get_set_same|]. split; reflexivity.
Qed.

(** A lone call whose refresh is turned down by the token endpoint: the
    call fails with what the [catch] block of the refresh makes of the
    error, and the refresh is not posted again. *)
Lemma refresh_failure_run (db : Database.t) (id : JsString.t) (u : user)
    (force : bool) (reply : tokenEndpointReply) (error : jsError) :
  getUserByMicrosoftId db id = Some u ->
  force || isTokenExpired (tokenExpiry u) = true ->
  refreshAccessToken (refreshToken u) reply = Rejected error ->
  let w :=
    run (atRest db)
      [Call id force; UserLoaded 0 None; EndpointReplied 0 reply; Resumed 0] in
  calls w = [Returned (Rejected (onRefreshFailure error))]
  /\ tokenRequests w = [(id, refreshToken u)]
  /\ database w = db
  /\ activeRefreshes w = [].
Proof.
  intros Hget Hneeds Hreply w. subst w.
  unfold atRest, GraphService.run. cbn [fold_left].
  cbn [GraphService.step activeRefreshes JsMap.get calls app].
  cbn [GraphService.step calls nth_error database].
  rewrite Hget, Hneeds. cbn [negb].
  cbn [GraphService.step promises List.length app nth_error].
  rewrite Hreply.
  cbn [GraphService.step promises List.length app nth_error
       setPromise replace database activeRefreshes calls
       tokenRequests JsMap.set JsMap.delete].
  now rewrite JsString_eqb_refl.
Qed.

(** The one test the [catch] block makes. *)
Lemma onRefreshFailure_reauth (error : jsError) :
  onRefreshFailure error = RefreshTokenExpired
  <-> messageIncludes error "invalid_grant" = true
      \/ messageIncludes error "refresh token" = true.
Proof.
  unfold onRefreshFailure.
  destruct (messageIncludes error "invalid_grant");
    destruct (messageIncludes error "refresh token"); cbn;
    split; intro H; try reflexivity; try discriminate;
    try (now left); try (now right); destruct H; discriminate.
Qed.

(** While the cached token is still good, the Graph service awaits the
    update of last-used before it returns, and passes its failure on. *)
Lemma cached_token_waits_for_last_used (db : Database.t) (id : JsString.t)
    (u : user) (failure : option jsError) :
  getUserByMicrosoftId db id = Some u ->
  isTokenExpired (tokenExpiry u) = false ->
  calls (run (atRest db) [Call id false; UserLoaded 0 None])
  = [AwaitingLastUsed (accessToken u)]
  /\ calls (run (atRest db)
              [Call id false; UserLoaded 0 None; LastUsedUpdated 0 failure])
     = [Returned
          match failure with
          | Some error => Rejected (Thrown error)
          | None => Resolved (accessToken u)
          end].
Proof.
  intros Hget Hvalid.
  unfold atRest, GraphService.run. cbn [fold_left].
  cbn [GraphService.step activeRefreshes JsMap.get calls app].
  cbn [GraphService.step calls nth_error database].
  rewrite Hget, Hvalid. cbn [orb negb setCall calls replace nth_error].
  split; [reflexivity|]. now destruct failure.
Qed.

(** The tasks service does not await the update of last-used: whether it
    fails has no bearing on what the call returns. *)
Lemma tasks_last_used_not_awaited mapGoogleApiError (db : Database.t)
    (id : JsString.t) userLoad (failure : option jsError) reply tokensUpdate :
  TasksService.getValidAccessToken isTokenExpired determineExpiryDate
    mapGoogleApiError db id userLoad failure reply tokensUpdate
  = TasksService.getValidAccessToken isTokenExpired determineExpiryDate
      mapGoogleApiError db id userLoad None reply tokensUpdate.
Proof. reflexivity. Qed.

(** The tasks service turns every failure of the refresh into an error
    that asks for a new login. *)
Lemma tasks_refresh_failure_requires_reauth mapGoogleApiError
    (db : Database.t) (id : JsString.t) (u : user) lastUsedUpdate reply
    (error : jsError) :
  getUserByMicrosoftId db id = Some u ->
  isTokenExpired (tokenExpiry u) = true ->
  refreshAccessToken (refreshToken u) reply = Rejected error ->
  TasksService.getValidAccessToken isTokenExpired determineExpiryDate
    mapGoogleApiError db id None lastUsedUpdate reply None
  = (Rejected
       (mapGoogleApiError
          (TasksService.ServiceError
             "Authentication required - please log in again" 401
             "MICROSOFT_UNAUTHORIZED" true (Some error))),
     db).
Proof.
  intros Hget Hexpired Hreply. unfold TasksService.getValidAccessToken.
  now rewrite Hget, Hexpired, Hreply.
Qed.

End TokenProperties.

Section ScenarioProperties.
Import Js MicrosoftConfig Database GraphService Scenario.

Local Abbreviation run :=
  (GraphService.run Scenario.isTokenExpired Scenario.determineExpiryDate).

(** C1 at two calls: both post a refresh, and when the token endpoint
    answers the two posts with different tokens, the two calls return
    different tokens. *)
Lemma two_simultaneous_calls_two_outcomes :
  let w :=
    run (atRest expiring)
      (simultaneousCalls u1 2
         ++ [EndpointReplied 0 (TokenReply "access-A" (Some "refresh-A") 3600);
             EndpointReplied 1 (TokenReply "access-B" (Some "refresh-B") 3600);
             TokensUpdated 0 None; TokensUpdated 1 None;
             Resumed 0; Resumed 1]) in
  tokenRequests w = [(u1, "old-refresh"); (u1, "old-refresh")]
  /\ calls w = [Returned (Resolved "access-A"); Returned (Resolved "access-B")].
Proof. vm_compute. split; reflexivity. Qed.

(** The scenario of the design document: the second call comes in after
    the first has stored its promise; one refresh is posted and both calls
    return its token. *)
Lemma late_call_shares_the_refresh :
  let w :=
    run (atRest expiring)
      [Call u1 false; UserLoaded 0 None; Call u1 false;
       EndpointReplied 0 (TokenReply "access-A" None 3600);
       TokensUpdated 0 None; Resumed 0; Resumed 1] in
  tokenRequests w = [(u1, "old-refresh")]
  /\ calls w = [Returned (Resolved "access-A"); Returned (Resolved "access-A")]
  /\ activeRefreshes w = [].
Proof. vm_compute. repeat split; reflexivity. Qed.

(** C4 on the code: the token endpoint turns the refresh token down with
    [invalid_grant] and a description. [refreshAccessToken] puts only the
    description into the message of the error it throws, the [catch] block
    of the refresh finds neither ['invalid_grant'] nor ['refresh token'] in
    it, and the call fails with that error and not with
    REFRESH_TOKEN_EXPIRED. The refresh is posted once. *)
Theorem C4_invalid_grant_with_description_not_reauth :
  let w :=
    run (atRest expiring)
      [Call u1 false; UserLoaded 0 None; EndpointReplied 0 expiredGrant;
       Resumed 0] in
  calls w
  = [Returned
       (Rejected
          (Thrown
             (newError
                "Microsoft token refresh failed: AADSTS70000: Refresh token has expired")))]
  /\ calls w <> [Returned (Rejected RefreshTokenExpired)]
  /\ tokenRequests w = [(u1, "old-refresh")].
Proof. vm_compute. repeat split; try reflexivity. discriminate. Qed.

(** Without a description the same refusal is REFRESH_TOKEN_EXPIRED. *)
Lemma invalid_grant_without_description_reauth :
  calls
    (run (atRest expiring)
       [Call u1 false; UserLoaded 0 None;
        EndpointReplied 0 (ErrorReply (Some "invalid_grant") None);
        Resumed 0])
  = [Returned (Rejected RefreshTokenExpired)].
Proof. vm_compute. reflexivity. Qed.

(** C6 on the code: the stored token is valid and the update of last-used
    fails. The call is still suspended at [await updateLastUsed] when the
    user has been loaded, and the failure of the update becomes the failure
    of the call: the cached token is not returned. *)
Theorem C6_last_used_failure_fails_the_call :
  let failure := newError "connection to the database lost" in
  calls (run (atRest valid) [Call u1 false; UserLoaded 0 None])
  = [AwaitingLastUsed "old-access"]
  /\ calls (run (atRest valid)
              [Call u1 false; UserLoaded 0 None;
               LastUsedUpdated 0 (Some failure)])
     = [Returned (Rejected (Thrown failure))].
Proof. vm_compute. split; reflexivity. Qed.

End ScenarioProperties.

(** ** The properties at concrete inputs *)

(** Two simultaneous calls in the scenario of the design document. *)
Lemma C1_two_calls_two_refreshes :
  List.length
    (GraphService.tokenRequests
       (GraphService.run Scenario.isTokenExpired Scenario.determineExpiryDate
          (GraphService.atRest Scenario.expiring)
          (GraphService.simultaneousCalls Scenario.u1 2)))
  = 2%nat.
Proof.
  apply (C1_simultaneous_calls_each_refresh Scenario.isTokenExpired
           Scenario.determineExpiryDate Scenario.expiring Scenario.u1
           {| Database.accessToken := "old-access";
              Database.refreshToken := "old-refresh";
              Database.tokenExpiry := 60000 |} 2);
    reflexivity.
Defined.

(** A call that is Unauthorized every time. *)
Lemma C2_three_unauthorized_surfaced :
  let unauthorized :=
    {| Js.statusCode := Some 401%Z; Js.code := None; Js.bodyErrorCode := None;
       Js.message := None; Js.headersRetryAfter := None;
       Js.responseHeadersRetryAfter := None |} in
  GraphService.handleGraphApiCall nat (fun _ => Js.Rejected unauthorized)
    (fun _ => Js.Resolved "fresh-token") 0
  = (Js.Rejected (GraphService.Thrown unauthorized),
     [GraphService.ApiCalled 0; GraphService.RefreshForced 0;
      GraphService.ApiCalled 1; GraphService.RefreshForced 1;
      GraphService.ApiCalled 2]).
Proof.
  intro unauthorized.
  apply (proj1 (proj2
                  (C2_unauthorized_recovered_up_to_twice nat
                     (fun _ => Js.Rejected unauthorized)
                     (fun _ => Js.Resolved "fresh-token")))
           unauthorized unauthorized unauthorized "fresh-token" "fresh-token");
    reflexivity.
Defined.

(** A token reply that carries no refresh token. *)
Lemma lone_refresh_without_refresh_token :
  Database.getUserByMicrosoftId
    (GraphService.database
       (GraphService.run Scenario.isTokenExpired Scenario.determineExpiryDate
          (GraphService.atRest Scenario.expiring)
          (GraphService.refreshRun Scenario.u1 false
             (MicrosoftConfig.TokenReply "new-access" None 3600))))
    Scenario.u1
  = Some {| Database.accessToken := "new-access";
            Database.refreshToken := "old-refresh";
            Database.tokenExpiry := 3600000 |}.
Proof.
  apply (proj1 (proj1 (proj2 (proj2
           (lone_refresh_keeps_or_rotates Scenario.isTokenExpired
              Scenario.determineExpiryDate Scenario.expiring Scenario.u1
              {| Database.accessToken := "old-access";
                 Database.refreshToken := "old-refresh";
                 Database.tokenExpiry := 60000 |}
              "new-access" None 3600 eq_refl))) false eq_refl)).
Defined.

(** Two simultaneous calls; the first reply rotates the refresh token, the
    second has none: the rotated token is gone from the record. *)
Lemma C3_rotated_token_overwritten :
  Database.getUserByMicrosoftId
    (GraphService.database
       (GraphService.run Scenario.isTokenExpired Scenario.determineExpiryDate
          (GraphService.atRest Scenario.expiring)
          (GraphService.twoRefreshes Scenario.u1
             (MicrosoftConfig.TokenReply "access-A" (Some "refresh-A") 3600)
             (MicrosoftConfig.TokenReply "access-B" None 3600))))
    Scenario.u1
  = Some {| Database.accessToken := "access-B";
            Database.refreshToken := "old-refresh";
            Database.tokenExpiry := 3600000 |}.
Proof.
  apply (proj1 (proj2 (proj2
           (C3_stale_refresh_token_written_back Scenario.isTokenExpired
              Scenario.determineExpiryDate Scenario.expiring Scenario.u1
              {| Database.accessToken := "old-access";
                 Database.refreshToken := "old-refresh";
                 Database.tokenExpiry := 60000 |}
              "access-A" "refresh-A" "access-B" 3600 3600 eq_refl eq_refl
              ltac:(discriminate))))).
Defined.

(** Of the nine names that map to W. Europe Standard Time, Europe/Berlin is
    written first. *)
Lemma C7_primary_of_w_europe :
  Timezone.convertWindowsToIANA (Js.Str "W. Europe Standard Time")
  = Js.Str "Europe/Berlin".
Proof.
  apply (proj1 (proj2 C7_timezone_round_trip_idempotent)).
  reflexivity.
Defined.

(** A read at [T + TTL - 1]. *)
Lemma C8_hit_one_millisecond_before_expiry :
  let u1 := JsString.ofString "u1" in
  let inbox :=
    {| GraphCaches.folderId := "inbox"; GraphCaches.folderName := "Inbox";
       GraphCaches.messagesTotal := 12; GraphCaches.messagesUnread := 3 |} in
  let st :=
    {| GraphCaches.activeRefreshes := [];
       GraphCaches.folderDirectoryCache :=
         [(u1, {| GraphCaches.payload := [inbox];
                  GraphCaches.timestamp := 1000 |})];
       GraphCaches.userAddressCache := [] |} in
  GraphCaches.listLabels unit (fun e _ => e) st u1
    (1000 + GraphCaches.FOLDER_CACHE_TTL_MS - 1) (Js.Rejected tt, 0%Z)
  = (Js.Resolved [inbox], st, 0%nat).
Proof.
  intros u1 inbox st.
  apply (proj1 (proj1
           (C8_ttl_cache_hit_then_lazy_miss unit (fun e _ => e) st u1 1000
              (1000 + GraphCaches.FOLDER_CACHE_TTL_MS - 1))
           [inbox] (Js.Rejected tt, 0%Z) eq_refl)).
  vm_compute. reflexivity.
Defined.

(** A sixteen-digit identity id with a refresh in flight. *)
Lemma C9_long_key_masked :
  let id := JsString.ofString "00037ffe1a2b3c4d" in
  let st :=
    {| GraphCaches.activeRefreshes := [(id, 0%nat)];
       GraphCaches.folderDirectoryCache := [];
       GraphCaches.userAddressCache := [] |} in
  exists k,
    In k (GraphCaches.heldKeys st)
    /\ GraphCaches.maskDebugKey id = GraphCaches.maskDebugKey k
    /\ ((6 < List.length k)%nat ->
          GraphCaches.maskDebugKey id
          = (firstn 3 k ++ [JsString.ellipsis]
               ++ skipn (List.length k - 2) k)%list
          /\ GraphCaches.maskDebugKey id <> k)
    /\ ((List.length k <= 6)%nat -> GraphCaches.maskDebugKey id = k).
Proof.
  intros id st.
  apply (C9_diagnostics_mask_long_keys st 0 (GraphCaches.maskDebugKey id)).
  simpl. left. reflexivity.
Defined.

(** [targets: ['Folders']] empties the folder cache only. *)
Lemma C10_flush_folders_only :
  let u1 := JsString.ofString "u1" in
  let st :=
    {| GraphCaches.activeRefreshes := [];
       GraphCaches.folderDirectoryCache :=
         [(u1, {| GraphCaches.payload := []; GraphCaches.timestamp := 1000 |})];
       GraphCaches.userAddressCache :=
         [(u1, {| GraphCaches.payload := ["u1@example.com"];
                  GraphCaches.timestamp := 1000 |})] |} in
  GraphCaches.folderDirectoryCache
    (snd (GraphCaches.flushDebugCaches st (Some ["Folders"]))) = []
  /\ GraphCaches.clearedFolders
       (fst (GraphCaches.flushDebugCaches st (Some ["Folders"])))
     = Some 1%nat.
Proof.
  intros u1 st.
  apply (proj1 (proj2 (proj2 (C10_flush_targets st (Some ["Folders"])))
                  ltac:(left; simpl; left; reflexivity))).
  simpl. left. reflexivity.
Defined.

(** Two 503s, then success, with [maxRetries = 3] and draws of 0: the
    result of the third call, after waits of 1000 and 2000 ms. *)
Lemma retry_unavailable_twice_then_success :
  let unavailable :=
    {| Js.statusCode := Some 503%Z; Js.code := None; Js.bodyErrorCode := None;
       Js.message := None; Js.headersRetryAfter := None;
       Js.responseHeadersRetryAfter := None |} in
  GraphRetry.executeWithRetry (JsNumber.ofZ 0) (fun _ => JsNumber.NaN) string
    (fun attempt => if (attempt <? 3)%nat then Js.Rejected unavailable
                    else Js.Resolved "done")
    (fun _ => JsNumber.ofZ 0) GraphRetry.DEFAULT_CONFIG
  = (Js.Resolved "done",
     [GraphRetry.Invoked 1; GraphRetry.Slept (JsNumber.ofZ 1000);
      GraphRetry.Invoked 2; GraphRetry.Slept (JsNumber.ofZ 2000);
      GraphRetry.Invoked 3]).
Proof. vm_compute. reflexivity. Qed.

(** A 400 is thrown at the first attempt, with no sleep. *)
Lemma retry_bad_request_not_retried :
  let badRequest :=
    {| Js.statusCode := Some 400%Z; Js.code := Some "BadRequest";
       Js.bodyErrorCode := None; Js.message := None;
       Js.headersRetryAfter := None; Js.responseHeadersRetryAfter := None |} in
  GraphRetry.executeWithRetry (JsNumber.ofZ 0) (fun _ => JsNumber.NaN) string
    (fun _ => Js.Rejected badRequest) (fun _ => JsNumber.ofZ 0)
    GraphRetry.DEFAULT_CONFIG
  = (Js.Rejected (Some badRequest), [GraphRetry.Invoked 1]).
Proof. reflexivity. Qed.

(** * Further properties *)

(** ** Retry executor: the shape of a run *)

Section RetryRuns.
Import Js GraphCaches GraphRetry.

Variable now : JsNumber.number.
Variable dateGetTime : string -> JsNumber.number.
Variable A : Type.
Variable apiCall : nat -> outcome A jsError.
Variable random : nat -> JsNumber.number.
Variable config : retryConfig.

Local Abbreviation loop :=
  (retryLoop now dateGetTime A apiCall random config).
Local Abbreviation delayAt :=
  (retryDelay now dateGetTime random config).
Local Abbreviation retryable :=
  (fun e => isRetryableError e (retryableStatusCodes config)
              (retryableErrorCodes config)).

Lemma invocations_app (t1 t2 : list retryEvent) :
  invocations (t1 ++ t2) = (invocations t1 + invocations t2)%nat.
Proof. unfold invocations. now rewrite filter_app, length_app. Qed.

Lemma sleeps_app (t1 t2 : list retryEvent) :
  sleeps (t1 ++ t2) = (sleeps t1 ++ sleeps t2)%list.
Proof.
  induction t1 as [|e t1 IH]; [reflexivity|].
  destruct e; cbn [app sleeps]; now rewrite IH.
Qed.

(** A call that settles the run: it succeeds, or it is the last one
    allowed, or its error is not retryable. *)
Lemma retryLoop_settles (remaining attempt : nat)
    (lastError : option jsError) (trace : list retryEvent) :
  match apiCall attempt with
  | Resolved _ => True
  | Rejected e => (maxRetries config < attempt)%nat \/ retryable e = false
  end ->
  loop (S remaining) attempt lastError trace
  = (settledAs (apiCall attempt), (trace ++ [Invoked attempt])%list).
Proof.
  intro Hsettles. cbn [retryLoop].
  destruct (apiCall attempt) as [result|e]; [reflexivity|].
  destruct (Nat.ltb_spec (maxRetries config) attempt) as [_|Hle];
    [reflexivity|].
  destruct Hsettles as [Hlt|Hnot]; [lia|].
  now rewrite Hnot.
Qed.

(** A retryable failure before the last attempt: one wait, then on. *)
Lemma retryLoop_retries (remaining attempt : nat)
    (lastError : option jsError) (trace : list retryEvent) (e : jsError) :
  apiCall attempt = Rejected e ->
  (attempt <= maxRetries config)%nat ->
  retryable e = true ->
  exists trace',
    loop (S remaining) attempt lastError trace
    = loop remaining (S attempt) (Some e) trace'
    /\ invocations trace' = S (invocations trace)
    /\ sleeps trace' = (sleeps trace ++ [delayAt attempt e])%list
    /\ unobserved trace'
       = (unobserved trace ++ [Invoked attempt; Slept (delayAt attempt e)])%list.
Proof.
  intros Hcall Hle Hretry. cbn [retryLoop]. rewrite Hcall.
  destruct (Nat.ltb_spec (maxRetries config) attempt) as [Hlt|_]; [lia|].
  rewrite Hretry. cbn [negb].
  eexists. split; [reflexivity|].
  destruct (onRetry config) as [callback|];
    unfold unobserved;
    rewrite ?invocations_app, ?sleeps_app, ?filter_app; cbn;
    rewrite <- ?app_assoc; cbn; repeat split; try lia;
    now rewrite ?app_nil_r.
Qed.

(** From a loop entry at [attempt] with [attempt - 1] calls made so far,
    the run ends at some call [n]: its outcome is the outcome of that call,
    and one wait was made for each call before it. *)
Lemma retryLoop_ends (remaining : nat) :
  forall (attempt : nat) (lastError : option jsError)
         (trace : list retryEvent),
    (S remaining + attempt = maxRetries config + 2)%nat ->
    S (invocations trace) = attempt ->
    let result := loop (S remaining) attempt lastError trace in
    let n := invocations (snd result) in
    (attempt <= n <= maxRetries config + 1)%nat
    /\ fst result = settledAs (apiCall n)
    /\ (List.length (sleeps (snd result))
        = List.length (sleeps trace) + (n - attempt))%nat.
Proof.
  induction remaining as [|remaining IH];
    intros attempt lastError trace Hsum Hmade result n; subst result n.
  - rewrite retryLoop_settles.
    + cbn [fst snd]. rewrite invocations_app, sleeps_app. cbn.
      rewrite length_app. cbn.
      replace (invocations trace + 1)%nat with attempt by lia.
      repeat split; lia.
    + destruct (apiCall attempt); [exact I|left; lia].
  - destruct (apiCall attempt) as [result|e] eqn:Hcall.
    + rewrite retryLoop_settles by now rewrite Hcall.
      cbn [fst snd]. rewrite invocations_app, sleeps_app, length_app. cbn.
      replace (invocations trace + 1)%nat with attempt by lia.
      rewrite Hcall. repeat split; lia.
    + destruct (retryable e) eqn:Hretry.
      * destruct (retryLoop_retries (S remaining) attempt lastError trace e
                    Hcall ltac:(lia) Hretry)
          as [trace' [Hloop [Hinv [Hsleeps _]]]].
        rewrite Hloop.
        destruct (IH (S attempt) (Some e) trace' ltac:(lia) ltac:(lia))
          as [Hn [Hout Hlen]].
        split; [lia|]. split; [exact Hout|].
        rewrite Hlen, Hsleeps, length_app. cbn [List.length]. lia.
      * rewrite retryLoop_settles by (rewrite Hcall; now right).
        cbn [fst snd]. rewrite invocations_app, sleeps_app, length_app. cbn.
        replace (invocations trace + 1)%nat with attempt by lia.
        rewrite Hcall. repeat split; lia.
Qed.

(** X1: whatever the call does, a run makes between one and
    [maxRetries + 1] calls and one wait fewer than calls; what it returns
    or throws is the outcome of the last call it made, so the error thrown
    after the retries are used up is the last error, as it was thrown. *)
Theorem executeWithRetry_ends_with_last_call :
  let result :=
    executeWithRetry now dateGetTime A apiCall random config in
  let n := invocations (snd result) in
  (1 <= n <= maxRetries config + 1)%nat
  /\ List.length (sleeps (snd result)) = (n - 1)%nat
  /\ fst result = settledAs (apiCall n).
Proof.
  intros result n. subst result n. unfold executeWithRetry.
  replace (maxRetries config + 1)%nat with (S (maxRetries config)) by lia.
  destruct (retryLoop_ends (maxRetries config) 1 None [] ltac:(lia) eq_refl)
    as [Hn [Hout Hlen]].
  repeat split; try lia; assumption.
Qed.



End RetryRuns.

Section RetryObserver.
Import Js GraphCaches GraphRetry.

Variable now : JsNumber.number.
Variable dateGetTime : string -> JsNumber.number.
Variable A : Type.
Variable apiCall : nat -> outcome A jsError.
Variable random : nat -> JsNumber.number.
Variable config : retryConfig.
Variable callback : option (nat -> jsError -> JsNumber.number -> bool).

Lemma retryLoop_observer (remaining : nat) :
  forall (attempt : nat) (lastError : option jsError)
         (trace : list retryEvent),
    fst (retryLoop now dateGetTime A apiCall random
           (withOnRetry config callback) remaining attempt lastError trace)
    = fst (retryLoop now dateGetTime A apiCall random
             (withOnRetry config None) remaining attempt lastError
             (unobserved trace))
    /\ unobserved
         (snd (retryLoop now dateGetTime A apiCall random
                 (withOnRetry config callback) remaining attempt lastError
                 trace))
       = snd (retryLoop now dateGetTime A apiCall random
                (withOnRetry config None) remaining attempt lastError
                (unobserved trace)).
Proof.
  induction remaining as [|remaining IH]; intros attempt lastError trace.
  - split; reflexivity.
  - cbn [retryLoop withOnRetry maxRetries retryableStatusCodes
         retryableErrorCodes onRetry].
    destruct (apiCall attempt) as [result|e].
    + cbn [fst snd]. unfold unobserved. now rewrite filter_app.
    + destruct (maxRetries config <? attempt)%nat.
      { cbn [fst snd]. unfold unobserved. now rewrite filter_app. }
      destruct (isRetryableError e (retryableStatusCodes config)
                  (retryableErrorCodes config)); cbn [negb].
      2:{ cbn [fst snd]. unfold unobserved. now rewrite filter_app. }
      change (retryDelay now dateGetTime random (withOnRetry config callback)
                attempt e)
        with (retryDelay now dateGetTime random (withOnRetry config None)
                attempt e).
      set (delay := retryDelay now dateGetTime random
                      (withOnRetry config None) attempt e).
      assert (Htrace :
        unobserved
          ((match callback with
            | Some cb =>
                ((trace ++ [Invoked attempt])
                   ++ [Observed attempt e delay (negb (cb attempt e delay))])
            | None => trace ++ [Invoked attempt]
            end) ++ [Slept delay])%list
        = ((unobserved trace ++ [Invoked attempt]) ++ [Slept delay])%list).
      { unfold unobserved. destruct callback; rewrite !filter_app; cbn;
          now rewrite ?app_nil_r. }
      rewrite <- Htrace. apply IH.
Qed.

(** X3: the [onRetry] callback is an onlooker. Whatever it is, and whether
    or not it throws, the run returns or throws the same, and makes the
    same calls and the same waits, as with no callback at all. *)
Theorem executeWithRetry_observer_changes_nothing :
  fst (executeWithRetry now dateGetTime A apiCall random
         (withOnRetry config callback))
  = fst (executeWithRetry now dateGetTime A apiCall random
           (withOnRetry config None))
  /\ unobserved
       (snd (executeWithRetry now dateGetTime A apiCall random
               (withOnRetry config callback)))
     = snd (executeWithRetry now dateGetTime A apiCall random
              (withOnRetry config None)).
Proof.
  unfold executeWithRetry.
  exact (retryLoop_observer (maxRetries config + 1) 1 None []).
Qed.

End RetryObserver.

(** ** JavaScript numbers *)

Section NumberProperties.
Import JsNumber.
Local Open Scope Z_scope.

Lemma nearestEven_bounds (num den : Z) :
  num / den <= nearestEven num den <= num / den + 1.
Proof.
  unfold nearestEven.
  destruct (2 * (num mod den) ?= den); [destruct (Z.even (num / den))|..];
    lia.
Qed.

Lemma nearestEven_exact (num den : Z) :
  0 < den -> num mod den = 0 -> nearestEven num den = num / den.
Proof.
  intros Hden Hmod. unfold nearestEven. rewrite Hmod.
  now destruct (Z.compare_spec (2 * 0) den); try lia.
Qed.

Lemma nearestEven_mono (num num' den : Z) :
  0 < den -> num <= num' -> nearestEven num den <= nearestEven num' den.
Proof.
  intros Hden Hle.
  pose proof (Z.div_le_mono num num' den Hden Hle) as Hq.
  destruct (Z.eq_dec (num / den) (num' / den)) as [Heq|Hne].
  - assert (Hr : num mod den <= num' mod den).
    { pose proof (Z.div_mod num den ltac:(lia)).
      pose proof (Z.div_mod num' den ltac:(lia)). nia. }
    unfold nearestEven. rewrite <- Heq.
    destruct (Z.compare_spec (2 * (num mod den)) den);
      destruct (Z.compare_spec (2 * (num' mod den)) den);
      destruct (Z.even (num / den)); lia.
  - pose proof (nearestEven_bounds num den).
    pose proof (nearestEven_bounds num' den). lia.
Qed.

Lemma spacing_nonneg (a : Z) : 0 <= Z.max 0 (Z.log2 a - 52).
Proof. lia. Qed.

Lemma roundMagnitude_nonneg (num den : Z) :
  0 <= num -> 0 < den -> 0 <= roundMagnitude num den.
Proof.
  intros Hnum Hden. unfold roundMagnitude.
  set (j := Z.max 0 (Z.log2 (num / den) - 52)).
  assert (0 < 2 ^ j) by (apply Z.pow_pos_nonneg; lia).
  pose proof (nearestEven_bounds num (den * 2 ^ j)).
  assert (0 <= num / (den * 2 ^ j)) by (apply Z.div_pos; nia).
  nia.
Qed.

Lemma roundMagnitude_mono (num num' den : Z) :
  0 < den -> 0 <= num <= num' ->
  roundMagnitude num den <= roundMagnitude num' den.
Proof.
  intros Hden [Hnum Hle]. unfold roundMagnitude.
  assert (Ha : 0 <= num / den) by (apply Z.div_pos; lia).
  pose proof (Z.div_le_mono num num' den Hden Hle) as Haa.
  pose proof (Z.log2_le_mono _ _ Haa) as Hlog.
  set (a := num / den) in *. set (a' := num' / den) in *.
  set (j := Z.max 0 (Z.log2 a - 52)). set (j' := Z.max 0 (Z.log2 a' - 52)).
  assert (Hj : 0 <= j <= j') by lia.
  assert (Hpj : 0 < 2 ^ j) by (apply Z.pow_pos_nonneg; lia).
  assert (Hpj' : 0 < 2 ^ j') by (apply Z.pow_pos_nonneg; lia).
  destruct (Z.eq_dec j j') as [Heq|Hne].
  - rewrite <- Heq. apply Z.mul_le_mono_nonneg_l; [lia|].
    apply nearestEven_mono; [nia|lia].
  - assert (Hj' : j' = Z.log2 a' - 52 /\ 0 < j') by lia.
    destruct Hj' as [Hj'eq Hj'pos].
    assert (Ha' : 0 < a').
    { destruct (Z.le_gt_cases a' 0) as [H0|H0]; [|exact H0].
      rewrite (Z.log2_nonpos a' H0) in Hj'eq. lia. }
    (* the right-hand side is at least 2^(52+j') *)
    assert (Hright : 2 ^ (52 + j') <= 2 ^ j' * nearestEven num' (den * 2 ^ j')).
    { pose proof (nearestEven_bounds num' (den * 2 ^ j')) as Hb.
      assert (Hq : 2 ^ 52 <= num' / (den * 2 ^ j')).
      { rewrite <- Z.div_div by lia. fold a'.
        apply Z.div_le_lower_bound; [lia|].
        rewrite <- Z.pow_add_r by lia.
        replace (j' + 52) with (Z.log2 a') by lia.
        apply Z.log2_spec. exact Ha'. }
      rewrite Z.pow_add_r by lia. nia. }
    (* the left-hand side is at most 2^(53+j) *)
    assert (Hleft : 2 ^ j * nearestEven num (den * 2 ^ j) <= 2 ^ (53 + j)).
    { pose proof (nearestEven_bounds num (den * 2 ^ j)) as Hb.
      assert (Hq : num / (den * 2 ^ j) < 2 ^ 53).
      { rewrite <- Z.div_div by lia. fold a.
        apply Z.div_lt_upper_bound; [lia|].
        rewrite <- Z.pow_add_r by lia.
        destruct (Z.le_gt_cases a 0) as [H0|H0].
        - assert (0 < 2 ^ (j + 53)) by (apply Z.pow_pos_nonneg; lia). lia.
        - pose proof (Z.log2_spec a H0) as [_ Hup].
          eapply Z.lt_le_trans; [exact Hup|].
          apply Z.pow_le_mono_r; lia. }
      rewrite Z.pow_add_r by lia. nia. }
    assert (Hpow : 2 ^ (53 + j) <= 2 ^ (52 + j'))
      by (apply Z.pow_le_mono_r; lia).
    lia.
Qed.

Lemma roundMagnitude_scale (x d : Z) :
  0 < d -> roundMagnitude (x * d) d = roundMagnitude x 1.
Proof.
  intro Hd. unfold roundMagnitude.
  rewrite Z.div_mul by lia. rewrite Z.div_1_r.
  set (j := Z.max 0 (Z.log2 x - 52)).
  assert (Hpj : 0 < 2 ^ j) by (apply Z.pow_pos_nonneg; lia).
  f_equal. unfold nearestEven.
  rewrite Z.mul_1_l.
  replace (x * d / (d * 2 ^ j)) with (x / 2 ^ j)
    by (rewrite (Z.mul_comm d); now rewrite Z.div_mul_cancel_r by lia).
  replace ((x * d) mod (d * 2 ^ j)) with ((x mod 2 ^ j) * d)
    by (rewrite (Z.mul_comm d); now rewrite Z.mul_mod_distr_r by lia).
  replace (2 * (x mod 2 ^ j * d)) with (2 * (x mod 2 ^ j) * d) by ring.
  rewrite (Z.mul_comm d (2 ^ j)).
  now rewrite <- Zmult_compare_compat_r by lia.
Qed.

(** The integers below 2^53 are doubles. *)
Lemma roundMagnitude_integer (n : Z) :
  0 <= n < 2 ^ 53 -> roundMagnitude (n * ONE) 1 = n * ONE.
Proof.
  intros [Hn Hlt]. unfold roundMagnitude, ONE. rewrite Z.div_1_r, Z.mul_1_l.
  destruct (Z.eq_dec n 0) as [->|Hne]; [reflexivity|].
  assert (Hpos : 0 < n) by lia.
  rewrite Z.log2_mul_pow2 by lia.
  assert (Hlog : 0 <= Z.log2 n < 53).
  { split; [apply Z.log2_nonneg|]. apply Z.log2_lt_pow2; lia. }
  replace (Z.max 0 (1074 + Z.log2 n - 52)) with (Z.log2 n + 1022) by lia.
  set (L := Z.log2 n) in *.
  assert (Hsplit : n * 2 ^ 1074 = n * 2 ^ (52 - L) * 2 ^ (L + 1022)).
  { rewrite <- Z.mul_assoc, <- Z.pow_add_r by lia. do 2 f_equal. lia. }
  assert (Hp : 0 < 2 ^ (L + 1022)) by (apply Z.pow_pos_nonneg; lia).
  rewrite nearestEven_exact; [|exact Hp|].
  - rewrite Hsplit at 1. rewrite Z.div_mul by lia. lia.
  - rewrite Hsplit. apply Z.mod_mul. lia.
Qed.

Lemma pow_limit : LIMIT = 2 ^ 1024 * ONE.
Proof. reflexivity. Qed.

Lemma ONE_pos : 0 < ONE.
Proof. reflexivity. Qed.

Lemma LIMIT_pos : 0 < LIMIT.
Proof. reflexivity. Qed.

(** Comparisons. *)
Lemma lt_le (x y : number) : lt x y = true -> le x y = true.
Proof.
  destruct x as [|a| |k], y as [|b| |k']; cbn; try discriminate;
    try (destruct a, b; cbn; congruence); try congruence;
    intro H; apply Z.ltb_lt in H; apply Z.leb_le; lia.
Qed.

Lemma le_units (x y : number) :
  isFinite x = true -> isFinite y = true ->
  le x y = (units x <=? units y).
Proof. now destruct x, y. Qed.

(** What [finish] gives. *)
Lemma finish_cases (negative : bool) (m : Z) :
  0 <= m ->
  (LIMIT <= m /\ finish negative m = Infinity negative)
  \/ (m < LIMIT
      /\ isFinite (finish negative m) = true
      /\ units (finish negative m) = if negative then - m else m).
Proof.
  intro Hm. unfold finish.
  destruct (Z.leb_spec LIMIT m) as [Hover|Hin]; [now left|right].
  split; [exact Hin|].
  destruct (Z.eqb_spec m 0) as [->|Hne]; now destruct negative.
Qed.

Lemma finish_not_NaN (negative : bool) (m : Z) :
  isNaN (finish negative m) = false.
Proof.
  unfold finish. destruct (LIMIT <=? m); [reflexivity|].
  destruct (m =? 0); now destruct negative.
Qed.

Lemma le_finish (n n' : bool) (m m' : Z) :
  0 <= m -> 0 <= m' ->
  (if n then - m else m) <= (if n' then - m' else m') ->
  le (finish n m) (finish n' m') = true.
Proof.
  intros Hm Hm' Hle.
  destruct (finish_cases n m Hm) as [[Hover ->]|[Hin [Hfin Hu]]];
    destruct (finish_cases n' m' Hm') as [[Hover' ->]|[Hin' [Hfin' Hu']]].
  - pose proof LIMIT_pos. destruct n, n'; cbn; try reflexivity; lia.
  - pose proof LIMIT_pos.
    destruct n; [now destruct (finish n' m')|].
    destruct n'; lia.
  - pose proof LIMIT_pos.
    destruct n'; [destruct n; lia|]. now destruct (finish n m).
  - rewrite le_units, Hu, Hu' by assumption. now apply Z.leb_le.
Qed.

(** Rounding an integer number of units, with its sign. *)
Lemma le_round_units (s s' : Z) :
  s <= s' ->
  le (round (s <? 0) (Z.abs s) 1) (round (s' <? 0) (Z.abs s') 1) = true.
Proof.
  intro Hle. unfold round.
  pose proof (roundMagnitude_nonneg (Z.abs s) 1 ltac:(lia) ltac:(lia)).
  pose proof (roundMagnitude_nonneg (Z.abs s') 1 ltac:(lia) ltac:(lia)).
  apply le_finish; try assumption.
  destruct (Z.ltb_spec s 0), (Z.ltb_spec s' 0); try lia.
  - pose proof (roundMagnitude_mono (Z.abs s') (Z.abs s) 1 ltac:(lia)
                  ltac:(lia)). lia.
  - pose proof (roundMagnitude_mono (Z.abs s) (Z.abs s') 1 ltac:(lia)
                  ltac:(lia)). lia.
Qed.

Lemma add_finite (x y : number) :
  isFinite x = true -> isFinite y = true ->
  isNaN (add x y) = false
  /\ le (add x y) (round (units x + units y <? 0)
                     (Z.abs (units x + units y)) 1) = true
  /\ le (round (units x + units y <? 0) (Z.abs (units x + units y)) 1)
        (add x y) = true.
Proof.
  intros Hx Hy.
  destruct x as [|a| |k]; try discriminate;
    destruct y as [|b| |k']; try discriminate;
    try (cbn [add units]; split; [apply finish_not_NaN|];
         split; apply le_round_units; lia).
  now cbn.
Qed.

Lemma le_trans (x y z : number) :
  le x y = true -> le y z = true -> le x z = true.
Proof.
  destruct x as [|a| |k], y as [|b| |k'], z as [|c| |k'']; cbn;
    try discriminate; try reflexivity;
    repeat match goal with a : bool |- _ => destruct a end; cbn;
    try discriminate; try reflexivity;
    rewrite ?Z.leb_le; intros; try lia; try discriminate.
Qed.

(** Addition of finite doubles is monotone. *)
Lemma add_finite_mono (a b a' b' : number) :
  isFinite a = true -> isFinite b = true ->
  isFinite a' = true -> isFinite b' = true ->
  units a <= units a' -> units b <= units b' ->
  le (add a b) (add a' b') = true.
Proof.
  intros Ha Hb Ha' Hb' Hle Hle'.
  destruct (add_finite a b Ha Hb) as [_ [Hup _]].
  destruct (add_finite a' b' Ha' Hb') as [_ [_ Hdown]].
  eapply le_trans; [exact Hup|].
  eapply le_trans; [|exact Hdown].
  apply le_round_units. lia.
Qed.

(** [Math.min] gives a number that is not above its second argument. *)
Lemma min_le_r (x y : number) :
  isNaN x = false -> isNaN y = false ->
  isNaN (min x y) = false /\ le (min x y) y = true.
Proof.
  intros Hx Hy.
  destruct x as [|a| |k]; try discriminate;
    destruct y as [|b| |k']; try discriminate;
    unfold min; cbn [lt le units signbit];
    repeat match goal with
           | |- context [?u <? ?v] => destruct (Z.ltb_spec u v)
           | a : bool |- _ => destruct a
           end;
    cbn; split; try reflexivity; try (apply Z.leb_le; lia).
Qed.



(** The powers of two up to 2^1023 are doubles; from 2^1024 on
    [Math.pow(2, e)] is Infinity. *)
Lemma roundMagnitude_pow2 (k : Z) :
  0 <= k -> roundMagnitude (2 ^ k) 1 = 2 ^ k.
Proof.
  intro Hk. unfold roundMagnitude. rewrite Z.div_1_r, Z.mul_1_l.
  rewrite Z.log2_pow2 by lia.
  set (j := Z.max 0 (k - 52)).
  assert (Hp : 0 < 2 ^ j) by (apply Z.pow_pos_nonneg; lia).
  assert (Hsplit : 2 ^ k = 2 ^ (k - j) * 2 ^ j)
    by (rewrite <- Z.pow_add_r by lia; f_equal; lia).
  rewrite nearestEven_exact; [|exact Hp|].
  - rewrite Hsplit at 1. rewrite Z.div_mul by lia. lia.
  - rewrite Hsplit. apply Z.mod_mul. lia.
Qed.

Lemma pow2_cases (e : Z) :
  0 <= e ->
  (e < 1024 /\ pow2 e = Fin (2 ^ e * ONE))
  \/ (1024 <= e /\ pow2 e = Infinity false).
Proof.
  intro He. unfold pow2, round.
  rewrite (Z.max_l e 0), (Z.max_r (- e) 0) by lia.
  change (2 ^ 0) with 1.
  assert (Hone : 2 ^ e * ONE = 2 ^ (e + 1074))
    by (unfold ONE; now rewrite Z.pow_add_r by lia).
  rewrite Hone, roundMagnitude_pow2 by lia.
  unfold finish, LIMIT.
  destruct (Z.lt_ge_cases e 1024) as [Hlt|Hge]; [left|right];
    (split; [assumption|]).
  - assert (Hpow : 2 ^ (e + 1074) < 2 ^ 2098)
      by (apply Z.pow_lt_mono_r; lia).
    assert (Hpos : 0 < 2 ^ (e + 1074)) by (apply Z.pow_pos_nonneg; lia).
    destruct (Z.leb_spec (2 ^ 2098) (2 ^ (e + 1074))); [lia|].
    destruct (Z.eqb_spec (2 ^ (e + 1074)) 0); [lia|reflexivity].
  - assert (Hpow : 2 ^ 2098 <= 2 ^ (e + 1074))
      by (apply Z.pow_le_mono_r; lia).
    destruct (Z.leb_spec (2 ^ 2098) (2 ^ (e + 1074))); [reflexivity|lia].
Qed.

Lemma ofZ_not_NaN (z : Z) : isNaN (ofZ z) = false.
Proof. apply finish_not_NaN. Qed.

(** The integers below 2^53 in magnitude are read exactly. *)
Lemma ofZ_exact (z : Z) : Z.abs z < 2 ^ 53 -> ofZ z = Fin (z * ONE).
Proof.
  intro Hz. unfold ofZ, round.
  rewrite roundMagnitude_integer by lia.
  pose proof ONE_pos as Hone.
  assert (Hlimit : Z.abs z * ONE < LIMIT).
  { rewrite pow_limit. apply Z.mul_lt_mono_pos_r; [exact Hone|].
    eapply Z.lt_trans; [exact Hz|]. reflexivity. }
  unfold finish.
  destruct (Z.leb_spec LIMIT (Z.abs z * ONE)); [lia|].
  destruct (Z.eqb_spec (Z.abs z * ONE) 0) as [H0|Hne].
  - assert (z = 0) by nia. subst z. reflexivity.
  - destruct (Z.ltb_spec z 0); f_equal; nia.
Qed.

(** A whole number of seconds times 1000, below 2^53, is exact. *)
Lemma mul_thousand (a : Z) :
  Z.abs a * 1000 < 2 ^ 53 ->
  mul (Fin (a * ONE)) (ofZ 1000) = Fin (a * 1000 * ONE).
Proof.
  intro Ha. pose proof ONE_pos as Hone.
  rewrite (ofZ_exact 1000) by reflexivity.
  unfold mul, magnitude. cbn [units signbit].
  assert (Hsign : (1000 * ONE <? 0) = false) by (apply Z.ltb_ge; lia).
  rewrite Hsign, xorb_false_r.
  replace (Z.abs (a * ONE) * Z.abs (1000 * ONE))
    with (Z.abs (a * 1000) * ONE * ONE) by (rewrite !Z.abs_mul; nia).
  unfold round. rewrite roundMagnitude_scale by exact Hone.
  rewrite roundMagnitude_integer by lia.
  assert (Hlimit : Z.abs (a * 1000) * ONE < LIMIT).
  { rewrite pow_limit. apply Z.mul_lt_mono_pos_r; [exact Hone|].
    apply Z.lt_trans with (2 ^ 53); [|reflexivity].
    rewrite Z.abs_mul. exact Ha. }
  unfold finish.
  destruct (Z.leb_spec LIMIT (Z.abs (a * 1000) * ONE)); [lia|].
  destruct (Z.eqb_spec (Z.abs (a * 1000) * ONE) 0) as [H0|Hne].
  - assert (a = 0) by nia. subst a.
    destruct (Z.ltb_spec (0 * ONE) 0); [lia|reflexivity].
  - destruct (Z.ltb_spec (a * ONE) 0); f_equal; nia.
Qed.




(** Below 2^1024 a power of two is finite. *)
Lemma pow2_finite (e : Z) : e < 1024 -> isFinite (pow2 e) = true.
Proof.
  intro He. destruct (Z.le_gt_cases 0 e) as [Hpos|Hneg].
  - destruct (pow2_cases e Hpos) as [[_ ->]|[Hge _]]; [reflexivity|lia].
  - unfold pow2, round.
    rewrite (Z.max_r e 0), (Z.max_l (- e) 0) by lia.
    change (2 ^ 0) with 1. rewrite Z.mul_1_l.
    set (d := 2 ^ (- e)).
    assert (Hd : 0 < d) by (apply Z.pow_pos_nonneg; lia).
    pose proof ONE_pos as Hone.
    pose proof (roundMagnitude_nonneg ONE d ltac:(lia) Hd) as Hlow.
    pose proof (roundMagnitude_mono ONE (ONE * d) d Hd ltac:(nia)) as Hup.
    rewrite roundMagnitude_scale in Hup by exact Hd.
    assert (Hfix : roundMagnitude ONE 1 = ONE)
      by (apply (roundMagnitude_pow2 1074); lia).
    rewrite Hfix in Hup.
    destruct (finish_cases false (roundMagnitude ONE d) Hlow)
      as [[Hover _]|[_ [Hfin _]]]; [|exact Hfin].
    assert (ONE < LIMIT) by reflexivity. lia.
Qed.

Lemma pow2_not_NaN (e : Z) : isNaN (pow2 e) = false.
Proof. apply finish_not_NaN. Qed.

Lemma mul_finite_not_NaN (x y : number) :
  isFinite x = true -> isFinite y = true -> isNaN (mul x y) = false.
Proof.
  intros Hx Hy.
  destruct x as [|a| |k]; try discriminate;
    destruct y as [|b| |k']; try discriminate;
    apply finish_not_NaN.
Qed.

(** [baseDelay * Math.pow(2, e)] is NaN only for a base delay of zero
    and an infinite power. *)
Lemma mul_pow2_not_NaN (x : number) (e : Z) :
  isFinite x = true ->
  isZero x = false \/ e < 1024 ->
  isNaN (mul x (pow2 e)) = false.
Proof.
  intros Hx Hcase.
  destruct (isFinite (pow2 e)) eqn:Hpow.
  - now apply mul_finite_not_NaN.
  - destruct Hcase as [Hzero|He];
      [|now rewrite (pow2_finite e He) in Hpow].
    pose proof (pow2_not_NaN e) as Hnan.
    destruct (pow2 e) as [|b| |k']; try discriminate.
    destruct x as [|a| |k]; try discriminate.
    unfold mul. rewrite Hzero. reflexivity.
Qed.

Lemma le_neg_infinity (y : number) :
  isNaN y = false -> le (Infinity true) y = true.
Proof. now destruct y as [|[|]| |k]. Qed.


Lemma le_pos_infinity (x : number) :
  isNaN x = false -> le x (Infinity false) = true.
Proof. now destruct x as [|[|]| |k]. Qed.

Lemma le_refl (x : number) : isNaN x = false -> le x x = true.
Proof.
  destruct x as [|[|]| |k]; try discriminate; try reflexivity.
  intros _. apply Z.leb_refl.
Qed.

(** [Math.pow(2, e)] grows with [e]. *)
Lemma pow2_mono (e e' : Z) :
  0 <= e <= e' -> le (pow2 e) (pow2 e') = true.
Proof.
  intros [He Hle].
  destruct (pow2_cases e He) as [[Hlt ->]|[Hge ->]];
    destruct (pow2_cases e' ltac:(lia)) as [[Hlt' ->]|[Hge' ->]];
    try reflexivity; try lia.
  cbn [le units]. apply Z.leb_le.
  apply Z.mul_le_mono_nonneg_r; [pose proof ONE_pos; lia|].
  apply Z.pow_le_mono_r; lia.
Qed.

Lemma pow2_nonneg (e : Z) : le (Fin 0) (pow2 e) = true.
Proof.
  unfold pow2, round.
  assert (Hnum : 0 <= 2 ^ Z.max e 0 * ONE).
  { pose proof ONE_pos.
    assert (0 < 2 ^ Z.max e 0) by (apply Z.pow_pos_nonneg; lia). nia. }
  assert (Hden : 0 < 2 ^ Z.max (- e) 0) by (apply Z.pow_pos_nonneg; lia).
  pose proof (roundMagnitude_nonneg _ _ Hnum Hden) as Hm.
  destruct (finish_cases false _ Hm) as [[_ ->]|[_ [Hfin Hu]]];
    [reflexivity|].
  rewrite le_units by (reflexivity || exact Hfin). rewrite Hu.
  now apply Z.leb_le.
Qed.

(** A product of finite factors that are not negative. *)
Lemma mul_nonneg (x y : number) :
  isFinite x = true -> isFinite y = true ->
  0 <= units x -> 0 <= units y ->
  le (mul x y)
     (finish false (roundMagnitude (units x * units y) ONE)) = true
  /\ le (finish false (roundMagnitude (units x * units y) ONE))
        (mul x y) = true.
Proof.
  intros Hx Hy Hux Huy.
  assert (Hmul :
    mul x y
    = finish (xorb (signbit x) (signbit y))
        (roundMagnitude (units x * units y) ONE)).
  { destruct x as [|a| |k]; try discriminate;
      destruct y as [|b| |k']; try discriminate;
      unfold mul, round, magnitude; cbn [units] in *;
      rewrite ?Z.abs_eq by lia; reflexivity. }
  pose proof (roundMagnitude_nonneg (units x * units y) ONE ltac:(nia)
                ONE_pos) as Hm.
  assert (Hsign :
    xorb (signbit x) (signbit y) = true ->
    roundMagnitude (units x * units y) ONE = 0).
  { intro Hs.
    assert (Hzero : units x * units y = 0).
    { destruct x as [|a| |k]; try discriminate;
        destruct y as [|b| |k']; try discriminate; cbn in *; try lia.
      destruct (Z.ltb_spec k 0), (Z.ltb_spec k' 0); cbn in Hs;
        try discriminate; lia. }
    rewrite Hzero. reflexivity. }
  rewrite Hmul.
  split; apply le_finish; try assumption;
    destruct (xorb (signbit x) (signbit y));
    rewrite ?Hsign by reflexivity; lia.
Qed.

(** A factor that is not negative keeps the order of what it multiplies. *)
Lemma mul_nonneg_mono (x y y' : number) :
  isFinite x = true -> le (Fin 0) x = true ->
  le (Fin 0) y = true -> le y y' = true ->
  isNaN (mul x y) = false -> isNaN (mul x y') = false ->
  le (mul x y) (mul x y') = true.
Proof.
  intros Hx Hx0 Hy0 Hle Hnan Hnan'.
  assert (Hux : 0 <= units x).
  { destruct x as [|a| |k]; try discriminate; cbn in *; lia. }
  destruct y' as [|b'| |k'] eqn:Hy'; try (now destruct y).
  - (* an infinite second factor *)
    destruct b'; [now destruct y as [|[|]| |k]|].
    assert (Hinf : mul x (Infinity false) = Infinity false).
    { destruct x as [|a| |k]; try discriminate.
      unfold mul in *. destruct (isZero (Fin k) || isZero (Infinity false));
        [discriminate|].
      cbn [signbit] in *. apply Z.leb_le in Hx0. cbn [units] in Hx0.
      destruct (Z.ltb_spec k 0); [lia|reflexivity]. }
    rewrite Hinf. now apply le_pos_infinity.
  - (* -0 *)
    assert (Hy : isFinite y = true /\ units y = 0).
    { destruct y as [|b| |k]; try discriminate; cbn in *.
      - now destruct b.
      - now split.
      - apply Z.leb_le in Hy0. apply Z.leb_le in Hle. split; [reflexivity|lia]. }
    destruct Hy as [Hyfin Huy].
    destruct (mul_nonneg x y Hx Hyfin Hux ltac:(lia)) as [Hup _].
    destruct (mul_nonneg x NegZero Hx eq_refl Hux ltac:(cbn; lia))
      as [_ Hdown].
    eapply le_trans; [exact Hup|]. eapply le_trans; [|exact Hdown].
    rewrite Huy. cbn [units]. apply le_refl, finish_not_NaN.
  - (* a finite second factor *)
    assert (Hy : isFinite y = true /\ 0 <= units y <= k').
    { destruct y as [|b| |k]; try discriminate; cbn in *.
      - now destruct b.
      - apply Z.leb_le in Hle. split; [reflexivity|lia].
      - apply Z.leb_le in Hy0. apply Z.leb_le in Hle. split; [reflexivity|lia]. }
    destruct Hy as [Hyfin Huy].
    destruct (mul_nonneg x y Hx Hyfin Hux ltac:(lia)) as [Hup _].
    destruct (mul_nonneg x (Fin k') Hx eq_refl Hux ltac:(cbn; lia))
      as [_ Hdown].
    eapply le_trans; [exact Hup|]. eapply le_trans; [|exact Hdown].
    cbn [units].
    pose proof (roundMagnitude_nonneg (units x * units y) ONE ltac:(nia)
                  ONE_pos).
    pose proof (roundMagnitude_nonneg (units x * k') ONE ltac:(nia) ONE_pos).
    apply le_finish; try assumption.
    apply roundMagnitude_mono; [exact ONE_pos|nia].
Qed.

(** [Math.min] and [+] keep the order of their first argument. *)
Lemma min_mono_l (x x' y : number) :
  le x x' = true -> isNaN y = false -> le (min x y) (min x' y) = true.
Proof.
  intros Hle Hy.
  destruct x as [|a| |k]; try discriminate;
    destruct x' as [|a'| |k']; try (now destruct a);
    destruct y as [|b| |k'']; try discriminate;
    unfold min; cbn [lt le units signbit] in *;
    repeat match goal with
           | H : (_ <=? _) = true |- _ => apply Z.leb_le in H
           | |- context [?u <? ?v] => destruct (Z.ltb_spec u v)
           | a : bool |- _ => destruct a
           end;
    cbn; try reflexivity; try discriminate; try (apply Z.leb_le; lia).
Qed.

Lemma min_ge_r (x y : number) :
  le y x = true -> le y (min x y) = true.
Proof.
  intro Hle.
  destruct x as [|a| |k]; try (now destruct y);
    destruct y as [|b| |k']; try discriminate;
    unfold min; cbn [lt le units signbit] in *;
    repeat match goal with
           | H : (_ <=? _) = true |- _ => apply Z.leb_le in H
           | |- context [?u <? ?v] => destruct (Z.ltb_spec u v)
           | a : bool |- _ => destruct a
           end;
    cbn; try reflexivity; try discriminate; try (apply Z.leb_le; lia).
Qed.

Lemma add_mono_l (x x' y : number) :
  le x x' = true -> isFinite y = true -> le (add x y) (add x' y) = true.
Proof.
  intros Hle Hy.
  destruct (isFinite x) eqn:Hx; destruct (isFinite x') eqn:Hx'.
  - apply add_finite_mono; try assumption; [|lia].
    rewrite le_units in Hle by assumption. now apply Z.leb_le.
  - destruct x' as [|a'| |k']; try discriminate; [now destruct x|].
    destruct a'; [now destruct x|].
    replace (add (Infinity false) y) with (Infinity false)
      by now destruct y.
    apply le_pos_infinity. now destruct (add_finite x y Hx Hy).
  - destruct x as [|a| |k]; try discriminate.
    destruct a; [|now destruct x'].
    replace (add (Infinity true) y) with (Infinity true) by now destruct y.
    apply le_neg_infinity. now destruct (add_finite x' y Hx' Hy).
  - destruct x as [|a| |k]; try discriminate;
      destruct x' as [|a'| |k']; try discriminate.
    replace (add (Infinity a) y) with (Infinity a) by now destruct y.
    replace (add (Infinity a') y) with (Infinity a') by now destruct y.
    exact Hle.
Qed.

End NumberProperties.

(** ** Retry executor: delays *)

Section RetryDelays.
Import Js GraphCaches GraphRetry.
Local Open Scope Z_scope.

(** X4: for the same draw, the backoff delay never shrinks from one
    attempt to a later one, and from the attempt on at which
    [baseDelay * 2^(attempt-1)] reaches [maxDelay] it is [maxDelay] plus
    the jitter (up to the sign of a zero).  This is for a finite base
    delay that is not negative, a cap that is a number and a finite
    jitter, and as long as the product is a number: the base delay is
    not zero, or the later attempt is at most the 1024th. *)
Theorem calculateBackoffDelay_never_shrinks (a b : nat)
    (base cap jit r : JsNumber.number) :
  (1 <= a <= b)%nat ->
  JsNumber.isFinite base = true ->
  JsNumber.le (JsNumber.ofZ 0) base = true ->
  JsNumber.isNaN cap = false ->
  JsNumber.isFinite (JsNumber.mul r jit) = true ->
  JsNumber.isZero base = false \/ (b <= 1024)%nat ->
  JsNumber.le (calculateBackoffDelay a base cap jit r)
    (calculateBackoffDelay b base cap jit r) = true
  /\ (JsNumber.le cap
        (JsNumber.mul base (JsNumber.pow2 (Z.of_nat a - 1))) = true ->
      JsNumber.le (calculateBackoffDelay b base cap jit r)
        (JsNumber.add cap (JsNumber.mul r jit)) = true
      /\ JsNumber.le (JsNumber.add cap (JsNumber.mul r jit))
           (calculateBackoffDelay b base cap jit r) = true).
Proof.
  intros Hab Hbase Hbase0 Hcap Hjitter Hcase.
  assert (Hnan : forall n : nat, (n <= b)%nat ->
            JsNumber.isNaN
              (JsNumber.mul base (JsNumber.pow2 (Z.of_nat n - 1))) = false).
  { intros n Hn. apply mul_pow2_not_NaN; [exact Hbase|].
    destruct Hcase as [Hzero|Hb]; [now left|right; lia]. }
  assert (Hgrow :
    JsNumber.le (JsNumber.mul base (JsNumber.pow2 (Z.of_nat a - 1)))
      (JsNumber.mul base (JsNumber.pow2 (Z.of_nat b - 1))) = true).
  { apply mul_nonneg_mono; try assumption.
    - apply pow2_nonneg.
    - apply pow2_mono. lia.
    - apply Hnan. lia.
    - apply Hnan. lia. }
  unfold calculateBackoffDelay. split.
  - apply add_mono_l; [|exact Hjitter].
    apply min_mono_l; [exact Hgrow|exact Hcap].
  - intro Hreached. split.
    + apply add_mono_l; [|exact Hjitter].
      apply min_le_r; [apply Hnan; lia|exact Hcap].
    + apply add_mono_l; [|exact Hjitter].
      apply min_ge_r. eapply le_trans; [exact Hreached|exact Hgrow].
Qed.

(** Reading a decimal numeral back. *)
Ltac read_digit :=
  cbn [readDigits];
  match goal with
  | |- context [digitValue ?c] =>
      let v := eval vm_compute in (digitValue c) in
      change (digitValue c) with v
  end;
  cbv iota beta.

Lemma readDigits_uint_acc (d : Decimal.uint) :
  forall acc : positive,
    readDigits (NilEmpty.string_of_uint d) (Some (Z.pos acc))
    = Some (Z.pos (Pos.of_uint_acc d acc)).
Proof.
  induction d; intro acc; cbn [NilEmpty.string_of_uint Pos.of_uint_acc];
    try reflexivity;
    read_digit; rewrite <- IHd; do 2 f_equal; lia.
Qed.

Lemma readDigits_uint_zero (d : Decimal.uint) :
  readDigits (NilEmpty.string_of_uint d) (Some 0%Z)
  = Some (Z.of_N (Pos.of_uint d)).
Proof.
  induction d; cbn [NilEmpty.string_of_uint Pos.of_uint];
    try reflexivity;
    read_digit; try exact IHd; apply readDigits_uint_acc.
Qed.

Lemma readDigits_uint (d : Decimal.uint) :
  d <> Decimal.Nil ->
  readDigits (NilEmpty.string_of_uint d) None
  = Some (Z.of_N (Pos.of_uint d)).
Proof.
  destruct d; intro Hd; try congruence;
    cbn [NilEmpty.string_of_uint Pos.of_uint];
    read_digit; try apply readDigits_uint_zero; apply readDigits_uint_acc.
Qed.

Lemma to_uint_not_nil (p : positive) : Pos.to_uint p <> Decimal.Nil.
Proof.
  intro H. pose proof (DecimalPos.Unsigned.of_to p) as Hof.
  rewrite H in Hof. discriminate.
Qed.

Lemma parseInt_digits (d : Decimal.uint) :
  d <> Decimal.Nil ->
  parseInt (NilEmpty.string_of_uint d)
  = match readDigits (NilEmpty.string_of_uint d) None with
    | Some mathInt => JsNumber.round false (mathInt * JsNumber.ONE) 1
    | None => JsNumber.NaN
    end.
Proof.
  intro Hd. destruct d; try congruence; reflexivity.
Qed.

(** [parseInt] reads the decimal numeral of an integer as the double
    nearest to it. *)
Lemma parseInt_numberToString (n : Z) :
  parseInt (numberToString n) = JsNumber.ofZ n.
Proof.
  unfold numberToString. destruct n as [|p|p]; cbn [Z.to_int].
  - reflexivity.
  - cbn [NilZero.string_of_int]. unfold NilZero.string_of_uint.
    pose proof (to_uint_not_nil p) as Hnil.
    assert (Hdigits :
              parseInt (NilEmpty.string_of_uint (Pos.to_uint p))
              = JsNumber.ofZ (Z.pos p)).
    { rewrite parseInt_digits, readDigits_uint by exact Hnil.
      now rewrite DecimalPos.Unsigned.of_to. }
    destruct (Pos.to_uint p) eqn:Hp; try congruence; exact Hdigits.
  - cbn [NilZero.string_of_int]. unfold NilZero.string_of_uint.
    pose proof (to_uint_not_nil p) as Hnil.
    assert (Hdigits :
              readDigits (NilEmpty.string_of_uint (Pos.to_uint p)) None
              = Some (Z.pos p)).
    { rewrite readDigits_uint by exact Hnil.
      now rewrite DecimalPos.Unsigned.of_to. }
    destruct (Pos.to_uint p) eqn:Hp; try congruence;
      unfold parseInt;
      change (trimStart (String "-" ?s)) with (String "-" s);
      cbv iota beta; rewrite Hdigits; reflexivity.
Qed.

Lemma numberToString_not_empty (n : Z) : numberToString n <> "".
Proof.
  unfold numberToString. destruct n as [|p|p]; cbn [Z.to_int].
  - discriminate.
  - cbn [NilZero.string_of_int]. unfold NilZero.string_of_uint.
    pose proof (to_uint_not_nil p) as Hnil.
    destruct (Pos.to_uint p); try congruence; discriminate.
  - cbn [NilZero.string_of_int]. discriminate.
Qed.

(** The header that is read: the one of [error.headers], or the one of
    [error.response.headers] when the first is absent or empty. *)
Lemma retryAfterHeader_read (e : jsError) (h : string) :
  h <> "" ->
  headersRetryAfter e = Some h
  \/ ((headersRetryAfter e = None \/ headersRetryAfter e = Some "")
      /\ responseHeadersRetryAfter e = Some h) ->
  retryAfterHeader e = Some h.
Proof.
  intros Hne Hheader. unfold retryAfterHeader.
  destruct Hheader as [->|[[->| ->] ->]]; try reflexivity.
  apply String.eqb_neq in Hne. now rewrite Hne.
Qed.

(** A header that reads as a number: the number is the hint. *)
Lemma getRetryAfterSeconds_number (now : JsNumber.number)
    (dateGetTime : string -> JsNumber.number) (e : jsError) (h : string) :
  retryAfterHeader e = Some h -> h <> "" ->
  JsNumber.isNaN (parseInt h) = false ->
  getRetryAfterSeconds now dateGetTime e = Some (parseInt h).
Proof.
  intros Hread Hne Hnum. unfold getRetryAfterSeconds.
  apply String.eqb_neq in Hne. now rewrite Hread, Hne, Hnum.
Qed.

(** X5: a Retry-After header that is the decimal numeral of an integer [n]
    is read as the double nearest to [n], whatever the clock and the date
    parser say, and the delay is that double times 1000. The number of
    seconds is [n] itself when [|n| < 2^53], and the delay is [n * 1000] ms
    itself when [|n| * 1000 < 2^53]. The header of [error.headers] is the
    one read; the one of [error.response.headers] is read when the first
    is absent or empty. *)
Theorem retry_after_numeral_is_seconds (now : JsNumber.number)
    (dateGetTime : string -> JsNumber.number) (e : jsError) (n : Z) :
  headersRetryAfter e = Some (numberToString n)
  \/ ((headersRetryAfter e = None \/ headersRetryAfter e = Some "")
      /\ responseHeadersRetryAfter e = Some (numberToString n)) ->
  getRetryAfterSeconds now dateGetTime e = Some (JsNumber.ofZ n)
  /\ (Z.abs n < 2 ^ 53 ->
      JsNumber.ofZ n = JsNumber.Fin (n * JsNumber.ONE))
  /\ forall random config attempt,
       retryDelay now dateGetTime random config attempt e
       = JsNumber.mul (JsNumber.ofZ n) (JsNumber.ofZ 1000)
       /\ (Z.abs n * 1000 < 2 ^ 53 ->
           retryDelay now dateGetTime random config attempt e
           = JsNumber.Fin (n * 1000 * JsNumber.ONE)).
Proof.
  intro Hheader.
  pose proof (retryAfterHeader_read e (numberToString n)
                (numberToString_not_empty n) Hheader) as Hread.
  assert (Hseconds :
            getRetryAfterSeconds now dateGetTime e
            = Some (JsNumber.ofZ n)).
  { rewrite <- parseInt_numberToString.
    apply getRetryAfterSeconds_number;
      [exact Hread|apply numberToString_not_empty|].
    rewrite parseInt_numberToString. apply ofZ_not_NaN. }
  split; [exact Hseconds|]. split; [apply ofZ_exact|].
  intros random config attempt. unfold retryDelay. rewrite Hseconds.
  split; [reflexivity|]. intro Hsmall.
  rewrite (ofZ_exact n) by lia. now apply mul_thousand.
Qed.

End RetryDelays.

Section RetryClaim.
Import Js GraphCaches GraphRetry.
Local Open Scope Z_scope.

Variable now : JsNumber.number.
Variable dateGetTime : string -> JsNumber.number.
Variable A : Type.
Variable apiCall : nat -> outcome A jsError.
Variable random : nat -> JsNumber.number.
Variable config : retryConfig.

Local Abbreviation delayAt :=
  (retryDelay now dateGetTime random config).
Local Abbreviation retryable :=
  (fun e => isRetryableError e (retryableStatusCodes config)
              (retryableErrorCodes config)).


End RetryClaim.




(** ** Timezone tables: validity and the way back *)

Section TimezoneValidity.
Import Js Timezone.

Lemma round_trip_on_table_values :
  forallb
    (fun w =>
       value_eqb (convertIANAToWindows (convertWindowsToIANA (Str w))) (Str w)
       && isValidIANATimezone (convertWindowsToIANA (Str w))
       && match convertWindowsToIANA (Str w) with
          | Str k => existsb (String.eqb k) getSupportedIANATimezones
          | _ => false
          end)
    (map snd ianaToWindowsMap) = true.
Proof. vm_compute. reflexivity. Qed.

Lemma valid_windows_name_comes_back (w : value) :
  isValidWindowsTimezone w = true ->
  convertIANAToWindows (convertWindowsToIANA w) = w
  /\ isValidIANATimezone (convertWindowsToIANA w) = true
  /\ exists k, convertWindowsToIANA w = Str k
               /\ In k getSupportedIANATimezones.
Proof.
  destruct w as [s| |]; cbn [isValidWindowsTimezone]; try discriminate.
  intro Hvalid. apply existsb_eqb_In in Hvalid.
  pose proof round_trip_on_table_values as Hall.
  rewrite forallb_forall in Hall. specialize (Hall s Hvalid).
  apply andb_prop in Hall. destruct Hall as [Hall Hkey].
  apply andb_prop in Hall. destruct Hall as [Hback Hiana].
  split; [now apply value_eqb_eq|]. split; [exact Hiana|].
  destruct (convertWindowsToIANA (Str s)) as [k| |]; try discriminate.
  exists k. split; [reflexivity|]. now apply existsb_eqb_In.
Qed.

(** X6: from a Windows name of the table, the way to the IANA name and
    back is exact: [convertWindowsToIANA] gives a supported IANA name, and
    [convertIANAToWindows] takes it to the Windows name one started from. *)
Theorem windows_name_round_trip (w : value) :
  isValidWindowsTimezone w = true ->
  convertIANAToWindows (convertWindowsToIANA w) = w
  /\ isValidIANATimezone (convertWindowsToIANA w) = true
  /\ exists k, convertWindowsToIANA w = Str k
               /\ In k getSupportedIANATimezones.
Proof. exact (valid_windows_name_comes_back w). Qed.

Lemma reverse_map_values_are_keys :
  forallb (fun k => existsb (String.eqb k) getSupportedIANATimezones)
    (map snd (buildReverseMap ianaToWindowsMap)) = true.
Proof. vm_compute. reflexivity. Qed.

Lemma utc_is_supported : In "UTC" getSupportedIANATimezones.
Proof. apply existsb_eqb_In. vm_compute. reflexivity. Qed.

Lemma table_values_are_valid :
  forallb (fun w => isValidWindowsTimezone (Str w))
    ("UTC" :: map snd ianaToWindowsMap) = true.
Proof. vm_compute. reflexivity. Qed.

Lemma conversions_stay_in_the_table (x : string) :
  ~ In x objectPrototypeKeys ->
  isValidWindowsTimezone (convertIANAToWindows (Str x)) = true
  /\ (exists k, convertWindowsToIANA (Str x) = Str k
                /\ In k getSupportedIANATimezones)
  /\ (ownProperty ianaToWindowsMap x = None ->
      convertIANAToWindows (Str x) = Str "UTC").
Proof.
  intro Hproto.
  assert (Hnot : existsb (String.eqb x) objectPrototypeKeys = false).
  { destruct (existsb (String.eqb x) objectPrototypeKeys) eqn:H;
      [|reflexivity].
    apply existsb_eqb_In in H. contradiction. }
  pose proof table_values_are_valid as Hvalid.
  rewrite forallb_forall in Hvalid.
  split; [|split].
  - unfold convertIANAToWindows.
    destruct (negb (truthy (Str x))); [reflexivity|].
    unfold getProp. cbn [toPropertyKey].
    destruct (ownProperty ianaToWindowsMap x) as [w|] eqn:Hown.
    + assert (Hw : isValidWindowsTimezone (Str w) = true).
      { apply Hvalid. right. now apply ownProperty_in in Hown. }
      now destruct (negb (truthy (Str w))).
    + now rewrite Hnot.
  - unfold convertWindowsToIANA.
    destruct (negb (truthy (Str x))).
    { exists "UTC". split; [reflexivity|]. exact utc_is_supported. }
    unfold getProp. cbn [toPropertyKey].
    destruct (ownProperty (buildReverseMap ianaToWindowsMap) x) as [k|]
      eqn:Hown.
    + apply ownProperty_in in Hown.
      pose proof reverse_map_values_are_keys as Hkeys.
      rewrite forallb_forall in Hkeys. specialize (Hkeys k Hown).
      apply existsb_eqb_In in Hkeys.
      destruct (negb (truthy (Str k))).
      * exists "UTC". split; [reflexivity|]. exact utc_is_supported.
      * exists k. split; [reflexivity|exact Hkeys].
    + rewrite Hnot. cbn [truthy negb].
      exists "UTC". split; [reflexivity|]. exact utc_is_supported.
  - intro Hown. unfold convertIANAToWindows.
    destruct (negb (truthy (Str x))); [reflexivity|].
    unfold getProp. cbn [toPropertyKey]. now rewrite Hown, Hnot.
Qed.

(** X7: given any string that is not the name of a property of
    [Object.prototype], both converters return a name of the table: a
    known name is translated and an unknown or empty one becomes UTC, which
    the table holds on both sides. *)
Theorem converters_return_supported_names (x : string) :
  ~ In x objectPrototypeKeys ->
  isValidWindowsTimezone (convertIANAToWindows (Str x)) = true
  /\ (exists k, convertWindowsToIANA (Str x) = Str k
                /\ In k getSupportedIANATimezones)
  /\ (ownProperty ianaToWindowsMap x = None ->
      convertIANAToWindows (Str x) = Str "UTC").
Proof. exact (conversions_stay_in_the_table x). Qed.

(** Membership and absence of duplicates in a [Set] built from a list. *)
Lemma setAdd_members (l acc : list string) (x : string) :
  In x (fold_left setAdd l acc) <-> In x acc \/ In x l.
Proof.
  revert acc. induction l as [|y rest IH]; intro acc; cbn [fold_left].
  - cbn. tauto.
  - rewrite IH. unfold setAdd, setHas.
    destruct (existsb (String.eqb y) acc) eqn:Hy.
    + apply existsb_eqb_In in Hy. cbn. split; [tauto|].
      intros [H|[<-|H]]; tauto.
    + rewrite in_app_iff. cbn. tauto.
Qed.

Lemma setAdd_NoDup (l acc : list string) :
  NoDup acc -> NoDup (fold_left setAdd l acc).
Proof.
  revert acc. induction l as [|y rest IH]; intros acc Hacc; cbn [fold_left];
    [exact Hacc|].
  apply IH. unfold setAdd, setHas.
  destruct (existsb (String.eqb y) acc) eqn:Hy; [exact Hacc|].
  apply NoDup_app; [exact Hacc|repeat constructor; easy|].
  intros z Hz [<-|[]].
  apply existsb_eqb_In in Hz. congruence.
Qed.

(** X8: [getSupportedWindowsTimezones] lists every Windows name of the
    table, each exactly once: a name is in the list if and only if
    [isValidWindowsTimezone] accepts it. *)
Theorem supported_windows_names_once :
  NoDup getSupportedWindowsTimezones
  /\ forall w : string,
       In w getSupportedWindowsTimezones
       <-> isValidWindowsTimezone (Str w) = true.
Proof.
  unfold getSupportedWindowsTimezones. split.
  - apply setAdd_NoDup. constructor.
  - intro w. rewrite setAdd_members. cbn [isValidWindowsTimezone In].
    rewrite existsb_eqb_In. tauto.
Qed.

(** X9: a date-time object whose [timeZone] is a string that is not the
    name of a property of [Object.prototype] keeps its [dateTime] through
    both conversions, and once it has been converted for Graph,
    converting it back and forth again gives the same Graph object. *)
Theorem zoned_date_time_stable (d : zonedDateTime) (zone : string) :
  timeZone d = Str zone ->
  ~ In zone objectPrototypeKeys ->
  dateTime (convertDateTimeToGoogle (convertDateTimeToMicrosoft d))
  = dateTime d
  /\ convertDateTimeToMicrosoft
       (convertDateTimeToGoogle (convertDateTimeToMicrosoft d))
     = convertDateTimeToMicrosoft d.
Proof.
  intros Hzone Hproto. split; [reflexivity|].
  unfold convertDateTimeToMicrosoft, convertDateTimeToGoogle.
  cbn [dateTime timeZone]. rewrite Hzone. f_equal.
  apply valid_windows_name_comes_back.
  now apply conversions_stay_in_the_table.
Qed.

End TimezoneValidity.

(** ** Directory caches across calls *)

Section CacheCalls.
Import Js GraphCaches.
Local Open Scope Z_scope.

Lemma JsString_eqb_eq (a b : JsString.t) : JsString.eqb a b = true <-> a = b.
Proof.
  revert b. induction a as [|x a IH]; intros [|y b]; cbn; try easy.
  rewrite andb_true_iff, N.eqb_eq, IH. split.
  - now intros [-> ->].
  - intro H. injection H as -> ->. now split.
Qed.

Lemma JsString_eqb_neq (a b : JsString.t) : a <> b -> JsString.eqb a b = false.
Proof.
  intro Hne. destruct (JsString.eqb a b) eqn:H; [|reflexivity].
  apply JsString_eqb_eq in H. contradiction.
Qed.

Lemma JsMap_get_set_other {V : Type} (m : JsMap.t V) (k k' : JsString.t)
    (v : V) :
  k <> k' -> JsMap.get (JsMap.set m k v) k' = JsMap.get m k'.
Proof.
  intro Hne. induction m as [|[k0 v0] rest IH]; cbn.
  - now rewrite JsString_eqb_neq.
  - destruct (JsString.eqb k0 k) eqn:Hk; cbn.
    + apply JsString_eqb_eq in Hk. subst k0.
      now rewrite !(JsString_eqb_neq k k').
    + now rewrite IH.
Qed.

Lemma JsMap_get_none_not_key {V : Type} (m : JsMap.t V) (k : JsString.t) :
  ~ In k (JsMap.keys m) -> JsMap.get m k = None.
Proof.
  induction m as [|[k0 v0] rest IH]; cbn; [reflexivity|].
  intro Hnot. rewrite JsString_eqb_neq by tauto. apply IH. tauto.
Qed.

Lemma JsMap_get_delete_same {V : Type} (m : JsMap.t V) (k : JsString.t) :
  NoDup (JsMap.keys m) -> JsMap.get (JsMap.delete m k) k = None.
Proof.
  induction m as [|[k0 v0] rest IH]; cbn; [reflexivity|].
  intro Hnodup. apply NoDup_cons_iff in Hnodup. destruct Hnodup as [Hk0 Hrest].
  destruct (JsString.eqb k0 k) eqn:Hk.
  - apply JsString_eqb_eq in Hk. subst k0.
    now apply JsMap_get_none_not_key.
  - cbn. rewrite Hk. now apply IH.
Qed.

Lemma JsMap_get_delete_other {V : Type} (m : JsMap.t V) (k k' : JsString.t) :
  k <> k' -> JsMap.get (JsMap.delete m k) k' = JsMap.get m k'.
Proof.
  intro Hne. induction m as [|[k0 v0] rest IH]; cbn; [reflexivity|].
  destruct (JsString.eqb k0 k) eqn:Hk.
  - apply JsString_eqb_eq in Hk. subst k0.
    now rewrite (JsString_eqb_neq k k').
  - cbn. now rewrite IH.
Qed.

Variable error : Type.
Variable mapGoogleApiError : error -> string -> error.

Local Abbreviation listLabels := (GraphCaches.listLabels error mapGoogleApiError).
Local Abbreviation getUserAddresses :=
  (GraphCaches.getUserAddresses error mapGoogleApiError).
Local Abbreviation createLabel := (GraphCaches.createLabel error mapGoogleApiError).

(** X10: a folder list fetched from Graph is what the next calls get. When
    a call of [listLabels] goes to Graph and resolves with [fs], the cache
    being stamped [T], a second call before [T + TTL] returns [fs] with no
    request and leaves the state as it is. *)
Theorem listLabels_serves_what_it_fetched (st : moduleState)
    (id : JsString.t) (t0 T now : Z) (fs : list folder)
    (remote : outcome (list folder) error * Z) :
  snd (listLabels st id t0 (Resolved fs, T)) = 1%nat ->
  now < T + FOLDER_CACHE_TTL_MS ->
  let st1 := snd (fst (listLabels st id t0 (Resolved fs, T))) in
  fst (fst (listLabels st id t0 (Resolved fs, T))) = Resolved fs
  /\ listLabels st1 id now remote = (Resolved fs, st1, 0%nat).
Proof.
  intros Hwent Hnow st1. subst st1.
  assert (Hfirst :
            listLabels st id t0 (Resolved fs, T)
            = (Resolved fs,
               {| activeRefreshes := activeRefreshes st;
                  folderDirectoryCache :=
                    JsMap.set (folderDirectoryCache st) id
                      {| payload := fs; timestamp := T |};
                  userAddressCache := userAddressCache st |},
               1%nat)).
  { revert Hwent. unfold GraphCaches.listLabels.
    destruct (JsMap.get (folderDirectoryCache st) id) as [c|];
      [destruct (t0 - timestamp c <? FOLDER_CACHE_TTL_MS)|];
      cbn [snd]; intro Hwent; try discriminate; reflexivity. }
  rewrite Hfirst. cbn [fst snd]. split; [reflexivity|].
  unfold GraphCaches.listLabels. cbn [folderDirectoryCache].
  rewrite JsMap_get_set_same. cbn [timestamp payload].
  destruct (Z.ltb_spec (now - T) FOLDER_CACHE_TTL_MS); [reflexivity|lia].
Qed.

(** X11: the caches keep identities apart. Whatever a call of [listLabels]
    or [getUserAddresses] for one identity does, the entry every other
    identity has in either cache is the same afterwards, and the map of
    refreshes in flight is untouched. *)
Theorem lookups_leave_other_identities_alone (st : moduleState)
    (id other : JsString.t) (now : Z) :
  id <> other ->
  (forall remote,
      let st' := snd (fst (listLabels st id now remote)) in
      JsMap.get (folderDirectoryCache st') other
      = JsMap.get (folderDirectoryCache st) other
      /\ userAddressCache st' = userAddressCache st
      /\ activeRefreshes st' = activeRefreshes st)
  /\ (forall remote,
         let st' := snd (fst (getUserAddresses st id now remote)) in
         JsMap.get (userAddressCache st') other
         = JsMap.get (userAddressCache st) other
         /\ folderDirectoryCache st' = folderDirectoryCache st
         /\ activeRefreshes st' = activeRefreshes st).
Proof.
  intro Hne. split; intros [[p|e] later] st'; subst st';
    unfold GraphCaches.listLabels, GraphCaches.getUserAddresses;
    repeat match goal with
      | |- context [JsMap.get ?m id] => destruct (JsMap.get m id) as [c|]
      | |- context [?a <? ?b] => destruct (a <? b)
      end;
    cbn [fst snd folderDirectoryCache userAddressCache activeRefreshes];
    repeat split; try reflexivity; now apply JsMap_get_set_other.
Qed.

(** X12: creating a folder drops the cached folder list of the identity:
    the next [listLabels] for it goes to Graph whatever the time, while the
    other identities keep their entries. A creation that fails leaves the
    cache as it was. *)
Theorem createLabel_invalidates_folder_cache (st : moduleState)
    (id : JsString.t) (newId displayName : string) :
  NoDup (JsMap.keys (folderDirectoryCache st)) ->
  let st' := snd (createLabel st id (Resolved (newId, displayName))) in
  (forall now remote, snd (listLabels st' id now remote) = 1%nat)
  /\ (forall other,
         id <> other ->
         JsMap.get (folderDirectoryCache st') other
         = JsMap.get (folderDirectoryCache st) other)
  /\ userAddressCache st' = userAddressCache st
  /\ (forall e, snd (createLabel st id (Rejected e)) = st).
Proof.
  intros Hnodup st'. subst st'. cbn [GraphCaches.createLabel snd].
  split; [|split; [|split]].
  - intros now [[fs|e] later]; unfold GraphCaches.listLabels;
      cbn [folderDirectoryCache];
      now rewrite JsMap_get_delete_same.
  - intros other Hne. cbn [folderDirectoryCache].
    now apply JsMap_get_delete_other.
  - reflexivity.
  - reflexivity.
Qed.

End CacheCalls.

(** ** Diagnostics and flushing *)

Section DiagnosticsReports.
Import Js GraphCaches.
Local Open Scope Z_scope.

Lemma insertSorted_length (x : entrySummary) (l : list entrySummary) :
  List.length (insertSorted x l) = S (List.length l).
Proof.
  induction l as [|y rest IH]; cbn; [reflexivity|].
  destruct (compareByAge x y >? 0); cbn; [now rewrite IH|reflexivity].
Qed.

Lemma sortEntries_length (l : list entrySummary) :
  List.length (sortEntries l) = List.length l.
Proof.
  induction l as [|x rest IH]; [reflexivity|].
  change (sortEntries (x :: rest)) with (insertSorted x (sortEntries rest)).
  rewrite insertSorted_length, IH. reflexivity.
Qed.

Lemma insertSorted_Forall (P : entrySummary -> Prop) (x : entrySummary)
    (l : list entrySummary) :
  P x -> Forall P l -> Forall P (insertSorted x l).
Proof.
  intros Hx Hl. induction Hl as [|y rest Hy Hrest IH]; cbn.
  - now constructor.
  - destruct (compareByAge x y >? 0); repeat constructor; assumption.
Qed.

Lemma insertSorted_sorted (x : entrySummary) (l : list entrySummary) :
  StronglySorted oldestFirst l -> StronglySorted oldestFirst (insertSorted x l).
Proof.
  intro Hl. induction Hl as [|y rest Hrest IH Hy]; cbn.
  - repeat constructor.
  - destruct (Z.gtb_spec (compareByAge x y) 0) as [Hgt|Hle].
    + constructor; [exact IH|].
      apply insertSorted_Forall; [|exact Hy].
      unfold oldestFirst, compareByAge in *. lia.
    + constructor; [now constructor|].
      constructor; [exact Hle|].
      eapply Forall_impl; [|exact Hy].
      intros z Hz. unfold oldestFirst, compareByAge in *. lia.
Qed.

Lemma sortEntries_sorted (l : list entrySummary) :
  StronglySorted oldestFirst (sortEntries l).
Proof.
  induction l as [|x rest IH]; [constructor|].
  change (sortEntries (x :: rest)) with (insertSorted x (sortEntries rest)).
  apply insertSorted_sorted, IH.
Qed.

Lemma firstn_sorted (n : nat) (l : list entrySummary) :
  StronglySorted oldestFirst l -> StronglySorted oldestFirst (firstn n l).
Proof.
  intro Hl. revert n. induction Hl as [|y rest Hrest IH Hy]; intros [|n]; cbn;
    try constructor.
  - apply IH.
  - apply Forall_forall. intros z Hz. apply in_firstn in Hz.
    rewrite Forall_forall in Hy. now apply Hy.
Qed.

(** X13: the summary of a cache gives its true size, shows at most
    [DEBUG_CACHE_ENTRY_LIMIT = 20] entries (all of them when there are no
    more), oldest first, and for each entry shown the time left is the TTL
    less the age, and never below 0. *)
Theorem summary_size_limit_order {P : Type} (cache : JsMap.t (cacheEntry P))
    (ttl now : Z) :
  let summary := summarizeCacheEntries cache ttl now in
  size summary = List.length cache
  /\ List.length (entries summary)
     = Nat.min DEBUG_CACHE_ENTRY_LIMIT (List.length cache)
  /\ StronglySorted oldestFirst (entries summary)
  /\ forall e,
       In e (entries summary) ->
       match ageMs e with
       | Some age => expiresInMs e = Some (Z.max 0 (ttl - age))
       | None => expiresInMs e = None
       end.
Proof.
  intro summary. subst summary. unfold summarizeCacheEntries.
  cbn [size entries]. split; [reflexivity|]. split; [|split].
  - now rewrite length_firstn, sortEntries_length, length_map.
  - apply firstn_sorted, sortEntries_sorted.
  - intros e He. apply in_firstn, in_sortEntries in He.
    rewrite in_map_iff in He. destruct He as [[k v] [<- _]].
    cbn [ageMs expiresInMs]. now destruct (negb (timestamp v =? 0)).
Qed.

(** X14: what a flush reports as cleared is gone. For a cache that the
    result names, the size reported is the size it had and the next lookup
    of every identity goes to Graph; and a second flush with the same
    targets finds nothing: it reports 0 and leaves the state as it is. *)
Theorem flush_then_lookups_go_to_graph (error : Type)
    (mapGoogleApiError : error -> string -> error) (st : moduleState)
    (targets : option (list string)) :
  let result := fst (flushDebugCaches st targets) in
  let st' := snd (flushDebugCaches st targets) in
  (forall n,
      clearedFolders result = Some n ->
      n = JsMap.size (folderDirectoryCache st)
      /\ forall id now remote,
           snd (listLabels error mapGoogleApiError st' id now remote) = 1%nat)
  /\ (forall n,
         clearedAddresses result = Some n ->
         n = JsMap.size (userAddressCache st)
         /\ forall id now remote,
              snd (getUserAddresses error mapGoogleApiError st' id now remote)
              = 1%nat)
  /\ flushDebugCaches st' targets
     = ({| clearedFolders :=
             option_map (fun _ => 0%nat) (clearedFolders result);
           clearedAddresses :=
             option_map (fun _ => 0%nat) (clearedAddresses result);
           flushedTargets := flushedTargets result |},
        st').
Proof.
  intros result st'. subst result st'. unfold flushDebugCaches.
  set (kept := filter _ (normalizedTargets targets)).
  set (targetSet :=
         if (List.length (fold_left setAdd kept []) =? 0)%nat
         then setAdd (setAdd (fold_left setAdd kept []) "folders") "addresses"
         else fold_left setAdd kept []).
  cbn [fst snd clearedFolders clearedAddresses flushedTargets
       folderDirectoryCache userAddressCache activeRefreshes].
  destruct (setHas targetSet "folders"), (setHas targetSet "addresses");
    cbn [option_map JsMap.clear JsMap.size List.length];
    (split; [|split]);
    try (intros n Hn;
         first [discriminate
               |injection Hn as <-; split; [reflexivity|];
                intros id now [[p|e] later]; reflexivity]);
    reflexivity.
Qed.

(** X15: the targets a flush reports are ['folders'] and ['addresses']
    only, each at most once and at least one of them; a cache is reported
    as cleared exactly when its name is among them. *)
Theorem flush_reports_each_target_once (st : moduleState)
    (targets : option (list string)) :
  let result := fst (flushDebugCaches st targets) in
  NoDup (flushedTargets result)
  /\ flushedTargets result <> []
  /\ (forall t, In t (flushedTargets result) ->
                t = "folders" \/ t = "addresses")
  /\ (In "folders" (flushedTargets result)
      <-> clearedFolders result <> None)
  /\ (In "addresses" (flushedTargets result)
      <-> clearedAddresses result <> None).
Proof.
  intro result. subst result. unfold flushDebugCaches.
  set (kept := filter _ (normalizedTargets targets)).
  assert (Hkept : forall t, In t kept -> t = "folders" \/ t = "addresses").
  { intros t Ht. subst kept. apply filter_In in Ht. destruct Ht as [_ Ht].
    apply orb_prop in Ht. destruct Ht as [Ht|Ht]; apply String.eqb_eq in Ht;
      tauto. }
  assert (Hnodup : NoDup (fold_left setAdd kept [])).
  { apply setAdd_NoDup. constructor. }
  assert (Hin : forall t, In t (fold_left setAdd kept []) <-> In t kept).
  { intro t. rewrite setAdd_members. cbn. tauto. }
  set (chosen := fold_left setAdd kept []) in *.
  set (targetSet :=
         if (List.length chosen =? 0)%nat
         then setAdd (setAdd chosen "folders") "addresses"
         else chosen).
  cbn [fst clearedFolders clearedAddresses flushedTargets].
  assert (Hset : NoDup targetSet /\ targetSet <> []
                 /\ forall t, In t targetSet ->
                              t = "folders" \/ t = "addresses").
  { subst targetSet. destruct (Nat.eqb_spec (List.length chosen) 0) as [H0|H0].
    - apply length_zero_iff_nil in H0. rewrite H0. cbn.
      split; [repeat constructor; cbn; intuition discriminate|].
      split; [discriminate|]. intros t [<-|[<-|[]]]; tauto.
    - split; [exact Hnodup|]. split.
      + intro H. rewrite H in H0. now cbn in H0.
      + intros t Ht. apply Hkept. now apply Hin. }
  destruct Hset as [H1 [H2 H3]].
  split; [exact H1|]. split; [exact H2|]. split; [exact H3|].
  split; unfold setHas;
    (destruct (existsb _ targetSet) eqn:Hhas;
     [apply existsb_eqb_In in Hhas; split; [discriminate|tauto]
     |split; [intro H; apply existsb_eqb_In in H; congruence|congruence]]).
Qed.

End DiagnosticsReports.

(** ** Token management under every schedule *)

Section TokenInvariants.
Import Js MicrosoftConfig Database GraphService.

Variable isTokenExpired : Z -> bool.
Variable determineExpiryDate : Z -> Z.

Local Abbreviation run := (GraphService.run isTokenExpired determineExpiryDate).
Local Abbreviation step := (GraphService.step isTokenExpired determineExpiryDate).

Lemma run_invariant (I : world -> Prop) :
  (forall w e, I w -> I (step w e)) ->
  forall events w, I w -> I (run w events).
Proof.
  intros Hstep events. induction events as [|e rest IH]; intros w Hw.
  - exact Hw.
  - cbn. apply IH, Hstep, Hw.
Qed.

Lemma replace_length {X : Type} (l : list X) (n : nat) (x : X) :
  List.length (replace l n x) = List.length l.
Proof.
  revert n. induction l as [|y rest IH]; intros [|n]; cbn; try reflexivity.
  now rewrite IH.
Qed.

Lemma nth_error_replace_same {X : Type} (l : list X) (n : nat) (x y : X) :
  nth_error l n = Some y -> nth_error (replace l n x) n = Some x.
Proof.
  revert n. induction l as [|z rest IH]; intros [|n]; cbn; try discriminate.
  - reflexivity.
  - apply IH.
Qed.

Lemma awaitingUser_replace (cs : list callState) (n : nat)
    (old new : callState) :
  nth_error cs n = Some old ->
  (awaitingUser (replace cs n new) + awaitingUser [old]
   = awaitingUser cs + awaitingUser [new])%nat.
Proof.
  revert n. induction cs as [|c rest IH]; intros [|n]; cbn [nth_error];
    try discriminate.
  - intro H. injection H as ->. unfold awaitingUser. cbn [replace filter].
    destruct old, new; cbn; lia.
  - intro H. specialize (IH n H). unfold awaitingUser in *.
    cbn [replace filter]. destruct c; cbn in *; lia.
Qed.

Lemma awaitingUser_app (a b : list callState) :
  awaitingUser (a ++ b) = (awaitingUser a + awaitingUser b)%nat.
Proof. unfold awaitingUser. now rewrite filter_app, length_app. Qed.

Lemma oneRequestEach_step (w : world) (e : event) :
  oneRequestEach w -> oneRequestEach (step w e).
Proof.
  unfold oneRequestEach. intros [Hreq Hcalls].
  destruct e as [id force|c failure|c failure|p reply|p failure|c];
    cbn [GraphService.step].
  - destruct (JsMap.get (activeRefreshes w) id);
      cbn [tokenRequests promises calls];
      rewrite awaitingUser_app, length_app; cbn; lia.
  - destruct (nth_error (calls w) c) as [[id force| | | |]|] eqn:Hc;
      try (split; assumption).
    pose proof (awaitingUser_replace (calls w) c (AwaitingUser id force)) as Hr.
    destruct failure as [err|].
    { cbn [setCall tokenRequests promises calls].
      specialize (Hr (Returned (Rejected (Thrown err))) Hc).
      rewrite replace_length. cbn in Hr. lia. }
    destruct (getUserByMicrosoftId (database w) id) as [u|].
    2:{ cbn [setCall tokenRequests promises calls].
        specialize (Hr (Returned (Rejected (UserNotFound id))) Hc).
        rewrite replace_length. cbn in Hr. lia. }
    destruct (negb (force || isTokenExpired (tokenExpiry u))).
    { cbn [setCall tokenRequests promises calls].
      specialize (Hr (AwaitingLastUsed (accessToken u)) Hc).
      rewrite replace_length. cbn in Hr. lia. }
    cbn [tokenRequests promises calls].
    specialize (Hr (AwaitingOwnRefresh id (List.length (promises w))) Hc).
    rewrite replace_length, !length_app. cbn in *. lia.
  - destruct (nth_error (calls w) c) as [[| token | | |]|] eqn:Hc;
      try (split; assumption).
    destruct failure as [err|]; cbn [setCall tokenRequests promises calls];
      [pose proof (awaitingUser_replace (calls w) c (AwaitingLastUsed token)
                     (Returned (Rejected (Thrown err))) Hc) as Hr
      |pose proof (awaitingUser_replace (calls w) c (AwaitingLastUsed token)
                     (Returned (Resolved token)) Hc) as Hr];
      rewrite replace_length; cbn in Hr; lia.
  - destruct (nth_error (promises w) p) as [[id sent| |]|];
      try (split; assumption).
    destruct (refreshAccessToken sent reply);
      cbn [setPromise tokenRequests promises calls];
      rewrite replace_length; lia.
  - destruct (nth_error (promises w) p) as [[|id tokens expiry|]|];
      try (split; assumption).
    destruct failure; cbn [setPromise tokenRequests promises calls];
      rewrite replace_length; lia.
  - destruct (nth_error (calls w) c) as [[| |id p|p|]|] eqn:Hc;
      try (split; assumption);
      destruct (nth_error (promises w) p) as [[| |result]|];
      try (split; assumption);
      cbn [setCall tokenRequests promises calls];
      [pose proof (awaitingUser_replace (calls w) c (AwaitingOwnRefresh id p)
                     (Returned result) Hc) as Hr
      |pose proof (awaitingUser_replace (calls w) c (AwaitingActiveRefresh p)
                     (Returned result) Hc) as Hr];
      rewrite replace_length; cbn in Hr; lia.
Qed.

Lemma calls_length_step (w : world) (e : event) :
  List.length (calls (step w e))
  = (List.length (calls w) + callsMade [e])%nat.
Proof.
  destruct e as [id force|c failure|c failure|p reply|p failure|c];
    cbn [GraphService.step callsMade filter List.length].
  - destruct (JsMap.get (activeRefreshes w) id); cbn [calls];
      rewrite length_app; reflexivity.
  - destruct (nth_error (calls w) c) as [[id force| | | |]|]; try lia.
    destruct failure; [cbn; rewrite replace_length; lia|].
    destruct (getUserByMicrosoftId (database w) id) as [u|];
      [|cbn; rewrite replace_length; lia].
    destruct (negb (force || isTokenExpired (tokenExpiry u)));
      cbn; rewrite replace_length; lia.
  - destruct (nth_error (calls w) c) as [[| token | | |]|]; try lia.
    destruct failure; cbn; rewrite replace_length; lia.
  - destruct (nth_error (promises w) p) as [[id sent| |]|]; try lia.
    destruct (refreshAccessToken sent reply); cbn; lia.
  - destruct (nth_error (promises w) p) as [[|id tokens expiry|]|]; try lia.
    destruct failure; cbn; lia.
  - destruct (nth_error (calls w) c) as [[| |id p|p|]|]; try lia;
      destruct (nth_error (promises w) p) as [[| |result]|]; try lia;
      cbn; rewrite replace_length; lia.
Qed.

Lemma calls_length_run (events : list event) :
  forall w,
    List.length (calls (run w events))
    = (List.length (calls w) + callsMade events)%nat.
Proof.
  induction events as [|e rest IH]; intro w.
  - cbn. lia.
  - cbn [GraphService.run fold_left]. unfold GraphService.run in IH.
    rewrite IH, calls_length_step.
    unfold callsMade. cbn [filter]. destruct e; cbn; lia.
Qed.

(** X16: under every schedule of calls, completions and replies, a refresh
    once posted is never posted again: there are exactly as many requests
    to the token endpoint as refresh promises, and never more than calls of
    [getValidAccessToken]. *)
Theorem token_requests_one_per_promise (db : Database.t)
    (events : list event) :
  let w := run (atRest db) events in
  List.length (calls w) = callsMade events
  /\ List.length (tokenRequests w) = List.length (promises w)
  /\ (List.length (tokenRequests w) <= callsMade events)%nat.
Proof.
  intro w. subst w.
  pose proof (calls_length_run events (atRest db)) as Hcalls.
  cbn [atRest calls List.length Nat.add] in Hcalls.
  assert (Hinv : oneRequestEach (run (atRest db) events)).
  { apply run_invariant; [apply oneRequestEach_step|].
    split; cbn; lia. }
  destruct Hinv as [Hreq Hbound].
  split; [exact Hcalls|]. split; [exact Hreq|]. lia.
Qed.

Lemma Forall_replace {X : Type} (P : X -> Prop) (l : list X) (n : nat)
    (x : X) :
  Forall P l -> P x -> Forall P (replace l n x).
Proof.
  intros Hl Hx. revert n.
  induction Hl as [|y rest Hy Hrest IH]; intros [|n]; cbn;
    constructor; auto.
Qed.

Lemma Forall_nth_error {X : Type} (P : X -> Prop) (l : list X) (n : nat)
    (x : X) :
  Forall P l -> nth_error l n = Some x -> P x.
Proof.
  intros Hl Hn. rewrite Forall_forall in Hl.
  apply Hl. eapply nth_error_In. exact Hn.
Qed.

Lemma refreshAccessToken_keeps_a_refresh_token (sent : string)
    (reply : tokenEndpointReply) (tokens : newTokens) :
  sent <> "" ->
  refreshAccessToken sent reply = Resolved tokens ->
  refresh_token tokens <> "".
Proof.
  intros Hsent. destruct reply as [e|err desc|access refresh expires];
    cbn [refreshAccessToken]; try discriminate.
  intro H. injection H as <-. cbn [refresh_token].
  destruct refresh as [r|]; cbn [orElse]; [|exact Hsent].
  destruct (String.eqb r "") eqn:Hr; [exact Hsent|].
  now apply String.eqb_neq.
Qed.

Lemma updateTokens_lookup (db : Database.t) (id id' : JsString.t)
    (access refresh : string) (expiry : Z) (u : user) :
  getUserByMicrosoftId (updateTokens db id access refresh expiry) id' = Some u ->
  getUserByMicrosoftId db id' = Some u
  \/ u = {| accessToken := access; refreshToken := refresh;
            tokenExpiry := expiry |}.
Proof.
  unfold updateTokens, getUserByMicrosoftId.
  destruct (JsMap.get db id) as [old|] eqn:Hold; [|now left].
  destruct (JsString.eqb id id') eqn:Heq.
  - apply JsString_eqb_eq in Heq. subst id'.
    rewrite JsMap_get_set_same. intro H. injection H as <-. now right.
  - rewrite JsMap_get_set_other; [now left|].
    intro H. subst id'. now rewrite JsString_eqb_refl in Heq.
Qed.

Lemma refreshTokensKept_step (w : world) (e : event) :
  refreshTokensKept w -> refreshTokensKept (step w e).
Proof.
  unfold refreshTokensKept. intros [Hdb Hps].
  destruct e as [id force|c failure|c failure|p reply|p failure|c];
    cbn [GraphService.step].
  - destruct (JsMap.get (activeRefreshes w) id); now split.
  - destruct (nth_error (calls w) c) as [[id force| | | |]|];
      try (now split).
    destruct failure; [now split|].
    destruct (getUserByMicrosoftId (database w) id) as [u|] eqn:Hu;
      [|now split].
    destruct (negb (force || isTokenExpired (tokenExpiry u))); [now split|].
    split; [exact Hdb|]. cbn [promises].
    apply Forall_app. split; [exact Hps|].
    constructor; [|constructor]. cbn. now apply (Hdb id).
  - destruct (nth_error (calls w) c) as [[| token | | |]|]; try (now split).
    destruct failure; now split.
  - destruct (nth_error (promises w) p) as [[id sent| |]|] eqn:Hp;
      try (now split).
    pose proof (Forall_nth_error _ _ _ _ Hps Hp) as Hsent. cbn in Hsent.
    destruct (refreshAccessToken sent reply) as [tokens|err] eqn:Hreply;
      (split; [exact Hdb|]); cbn [setPromise promises];
      apply Forall_replace; try exact Hps; cbn; [|exact I].
    now apply (refreshAccessToken_keeps_a_refresh_token sent reply).
  - destruct (nth_error (promises w) p) as [[|id tokens expiry|]|] eqn:Hp;
      try (now split).
    pose proof (Forall_nth_error _ _ _ _ Hps Hp) as Htokens. cbn in Htokens.
    destruct failure as [err|].
    + split; [exact Hdb|]. cbn [setPromise promises].
      apply Forall_replace; [exact Hps|exact I].
    + cbn [database promises]. split.
      * intros id' u Hu. apply updateTokens_lookup in Hu.
        destruct Hu as [Hu| ->]; [now apply (Hdb id')|exact Htokens].
      * apply Forall_replace; [exact Hps|exact I].
  - destruct (nth_error (calls w) c) as [[| |id p|p|]|]; try (now split);
      destruct (nth_error (promises w) p) as [[| |result]|]; now split.
Qed.

(** X17: a stored refresh token is never replaced by an empty one. If no
    stored record has an empty refresh token, then under every schedule
    and whatever the token endpoint replies (with or without a new refresh
    token, or with an empty one), no stored record ever has an empty
    refresh token. Which token a record ends up with is another matter:
    the write of a refresh puts back the token that refresh posted when
    the reply has none. *)
Theorem stored_refresh_token_never_empty (db : Database.t)
    (events : list event) :
  (forall id u, getUserByMicrosoftId db id = Some u -> refreshToken u <> "") ->
  forall id u,
    getUserByMicrosoftId (database (run (atRest db) events)) id = Some u ->
    refreshToken u <> "".
Proof.
  intro Hdb.
  assert (Hinv : refreshTokensKept (run (atRest db) events)).
  { apply run_invariant; [apply refreshTokensKept_step|].
    split; [exact Hdb|constructor]. }
  exact (proj1 Hinv).
Qed.

Lemma database_step (w : world) (e : event) :
  (forall p, e <> TokensUpdated p None) ->
  database (step w e) = database w.
Proof.
  intro Hnot.
  destruct e as [id force|c failure|c failure|p reply|p failure|c];
    cbn [GraphService.step].
  - now destruct (JsMap.get (activeRefreshes w) id).
  - destruct (nth_error (calls w) c) as [[id force| | | |]|]; try reflexivity.
    destruct failure; [reflexivity|].
    destruct (getUserByMicrosoftId (database w) id) as [u|]; [|reflexivity].
    now destruct (negb (force || isTokenExpired (tokenExpiry u))).
  - destruct (nth_error (calls w) c) as [[| token | | |]|]; try reflexivity.
    now destruct failure.
  - destruct (nth_error (promises w) p) as [[id sent| |]|]; try reflexivity.
    now destruct (refreshAccessToken sent reply).
  - destruct failure as [err|]; [|now specialize (Hnot p)].
    now destruct (nth_error (promises w) p) as [[|id tokens expiry|]|].
  - destruct (nth_error (calls w) c) as [[| |id p|p|]|]; try reflexivity;
      now destruct (nth_error (promises w) p) as [[| |result]|].
Qed.

(** X18: the stored credentials change only when a refresh has been
    written. A schedule in which no write of new tokens succeeds (calls,
    loads, updates of last-used, replies of the token endpoint, failed
    writes, resumptions) leaves the database as it was. *)
Theorem database_written_only_by_refresh (w : world) (events : list event) :
  (forall p, ~ In (TokensUpdated p None) events) ->
  database (run w events) = database w.
Proof.
  revert w. induction events as [|e rest IH]; intros w Hnot; [reflexivity|].
  cbn [GraphService.run fold_left]. unfold GraphService.run in IH.
  rewrite IH.
  - apply database_step. intros p ->. apply (Hnot p). now left.
  - intros p Hin. apply (Hnot p). now right.
Qed.

Lemma keys_set_incl {V : Type} (m : JsMap.t V) (k k' : JsString.t) (v : V) :
  In k' (JsMap.keys (JsMap.set m k v)) -> k' = k \/ In k' (JsMap.keys m).
Proof.
  induction m as [|[k0 v0] rest IH]; cbn.
  - intros [<-|[]]. now left.
  - destruct (JsString.eqb k0 k); cbn.
    + intros [<-|H]; right; [now left|now right].
    + intros [<-|H]; [right; now left|].
      destruct (IH H) as [->|Hin]; [now left|right; now right].
Qed.

Lemma NoDup_keys_set {V : Type} (m : JsMap.t V) (k : JsString.t) (v : V) :
  NoDup (JsMap.keys m) -> NoDup (JsMap.keys (JsMap.set m k v)).
Proof.
  induction m as [|[k0 v0] rest IH]; cbn; intro Hnodup.
  - constructor; [easy|constructor].
  - apply NoDup_cons_iff in Hnodup. destruct Hnodup as [Hk0 Hrest].
    destruct (JsString.eqb k0 k) eqn:Heq; cbn.
    + now constructor.
    + constructor; [|now apply IH].
      intro Hin. apply keys_set_incl in Hin. destruct Hin as [->|Hin].
      * now rewrite JsString_eqb_refl in Heq.
      * contradiction.
Qed.

Lemma keys_delete_incl {V : Type} (m : JsMap.t V) (k k' : JsString.t) :
  In k' (JsMap.keys (JsMap.delete m k)) -> In k' (JsMap.keys m).
Proof.
  induction m as [|[k0 v0] rest IH]; cbn; [easy|].
  destruct (JsString.eqb k0 k); cbn; intuition.
Qed.

Lemma NoDup_keys_delete {V : Type} (m : JsMap.t V) (k : JsString.t) :
  NoDup (JsMap.keys m) -> NoDup (JsMap.keys (JsMap.delete m k)).
Proof.
  induction m as [|[k0 v0] rest IH]; cbn; intro Hnodup; [constructor|].
  apply NoDup_cons_iff in Hnodup. destruct Hnodup as [Hk0 Hrest].
  destruct (JsString.eqb k0 k); [exact Hrest|].
  cbn. constructor; [|now apply IH].
  intro Hin. apply Hk0. eapply keys_delete_incl. exact Hin.
Qed.

Lemma activeRefreshes_NoDup_step (w : world) (e : event) :
  NoDup (JsMap.keys (activeRefreshes w)) ->
  NoDup (JsMap.keys (activeRefreshes (step w e))).
Proof.
  intro Hw.
  destruct e as [id force|c failure|c failure|p reply|p failure|c];
    cbn [GraphService.step].
  - now destruct (JsMap.get (activeRefreshes w) id).
  - destruct (nth_error (calls w) c) as [[id force| | | |]|]; try exact Hw.
    destruct failure; [exact Hw|].
    destruct (getUserByMicrosoftId (database w) id) as [u|]; [|exact Hw].
    destruct (negb (force || isTokenExpired (tokenExpiry u))); [exact Hw|].
    cbn [activeRefreshes]. now apply NoDup_keys_set.
  - destruct (nth_error (calls w) c) as [[| token | | |]|]; try exact Hw.
    now destruct failure.
  - destruct (nth_error (promises w) p) as [[id sent| |]|]; try exact Hw.
    now destruct (refreshAccessToken sent reply).
  - destruct (nth_error (promises w) p) as [[|id tokens expiry|]|];
      try exact Hw.
    now destruct failure.
  - destruct (nth_error (calls w) c) as [[| |id p|p|]|]; try exact Hw;
      destruct (nth_error (promises w) p) as [[| |result]|]; try exact Hw.
    cbn [activeRefreshes]. now apply NoDup_keys_delete.
Qed.

(** X19: the entry of a refresh in flight is removed whatever the refresh
    came to. In every world a schedule can lead to, when the call that
    started a refresh resumes on its settled promise, it returns what the
    promise settled as, success or failure, and no entry is left in
    [activeRefreshes] for its identity. *)
Theorem owner_resumes_and_clears_entry (db : Database.t)
    (events : list event) (c p : nat) (id : JsString.t)
    (result : outcome string tokenError) :
  let w := run (atRest db) events in
  nth_error (calls w) c = Some (AwaitingOwnRefresh id p) ->
  nth_error (promises w) p = Some (Settled result) ->
  let w' := step w (Resumed c) in
  nth_error (calls w') c = Some (Returned result)
  /\ JsMap.get (activeRefreshes w') id = None
  /\ database w' = database w
  /\ tokenRequests w' = tokenRequests w.
Proof.
  intros w Hcall Hpromise w'. subst w'.
  assert (Hnodup : NoDup (JsMap.keys (activeRefreshes w))).
  { subst w. apply (run_invariant
                      (fun w => NoDup (JsMap.keys (activeRefreshes w)))).
    - apply activeRefreshes_NoDup_step.
    - constructor. }
  cbn [GraphService.step]. rewrite Hcall, Hpromise.
  cbn [calls activeRefreshes database tokenRequests].
  split; [now apply (nth_error_replace_same _ _ _ _ Hcall)|].
  split; [now apply JsMap_get_delete_same|]. now split.
Qed.

(** X20: a call that finds a refresh in flight joins it. In any world in
    which [activeRefreshes] holds a promise for the identity, a new call
    posts nothing and starts no promise; and once that promise has
    settled, the call returns what it settled as. *)
Theorem late_call_joins_the_refresh (w : world) (id : JsString.t)
    (force : bool) (p : nat) :
  JsMap.get (activeRefreshes w) id = Some p ->
  let c := List.length (calls w) in
  let w1 := step w (Call id force) in
  nth_error (calls w1) c = Some (AwaitingActiveRefresh p)
  /\ tokenRequests w1 = tokenRequests w
  /\ promises w1 = promises w
  /\ forall result,
       nth_error (promises w) p = Some (Settled result) ->
       nth_error (calls (step w1 (Resumed c))) c = Some (Returned result).
Proof.
  intros Hget c w1. subst c w1. cbn [GraphService.step]. rewrite Hget.
  cbn [calls tokenRequests promises].
  assert (Hnth : nth_error (calls w ++ [AwaitingActiveRefresh p])
                   (List.length (calls w))
                 = Some (AwaitingActiveRefresh p)).
  { rewrite nth_error_app2 by lia. now rewrite Nat.sub_diag. }
  split; [exact Hnth|]. split; [reflexivity|]. split; [reflexivity|].
  intros result Hp. cbn [calls]. rewrite Hnth. cbn [promises]. rewrite Hp.
  cbn [setCall calls]. now apply (nth_error_replace_same _ _ _ _ Hnth).
Qed.

(** X21: what a call does once its user is loaded depends on the record
    alone. With no record for the identity it fails, naming the identity,
    and posts nothing. With a token that is not expired and no
    [forceRefresh] it posts nothing, writes nothing, and returns the stored
    access token once last-used is updated. With [forceRefresh] it posts a
    refresh with the stored refresh token even when the token is not
    expired. *)
Theorem lone_call_by_record (db : Database.t) (id : JsString.t) :
  (getUserByMicrosoftId db id = None ->
   forall force,
     run (atRest db) [Call id force; UserLoaded 0 None]
     = {| database := db; activeRefreshes := []; promises := [];
          calls := [Returned (Rejected (UserNotFound id))];
          tokenRequests := [] |})
  /\ (forall u,
         getUserByMicrosoftId db id = Some u ->
         isTokenExpired (tokenExpiry u) = false ->
         run (atRest db) [Call id false; UserLoaded 0 None;
                          LastUsedUpdated 0 None]
         = {| database := db; activeRefreshes := []; promises := [];
              calls := [Returned (Resolved (accessToken u))];
              tokenRequests := [] |})
  /\ (forall u,
         getUserByMicrosoftId db id = Some u ->
         let w := run (atRest db) [Call id true; UserLoaded 0 None] in
         tokenRequests w = [(id, refreshToken u)]
         /\ calls w = [AwaitingOwnRefresh id 0]
         /\ JsMap.get (activeRefreshes w) id = Some 0%nat).
Proof.
  split; [|split].
  - intros Hnone force. unfold atRest, GraphService.run. cbn [fold_left].
    cbn [GraphService.step activeRefreshes JsMap.get calls app].
    cbn [GraphService.step calls nth_error database]. now rewrite Hnone.
  - intros u Hget Hvalid. unfold atRest, GraphService.run. cbn [fold_left].
    cbn [GraphService.step activeRefreshes JsMap.get calls app].
    cbn [GraphService.step calls nth_error database].
    rewrite Hget, Hvalid. reflexivity.
  - intros u Hget w. subst w. unfold atRest, GraphService.run.
    cbn [fold_left].
    cbn [GraphService.step activeRefreshes JsMap.get calls app].
    cbn [GraphService.step calls nth_error database].
    rewrite Hget. cbn [orb negb tokenRequests calls activeRefreshes app
                       replace promises List.length JsMap.set JsMap.get].
    now rewrite JsString_eqb_refl.
Qed.

End TokenInvariants.

(** ** Authenticated-call wrapper: what a result stands for *)

(** The defining equation of the wrapper, under a name that the names of
    [GraphService] do not hide. *)
Lemma wrapper_equation (A : Type) (apiCall : nat -> Js.outcome A Js.jsError)
    (forcedRefresh : nat -> Js.outcome string GraphService.tokenError)
    (n : nat) :
  GraphService.handleGraphApiCall A apiCall forcedRefresh n
  = match apiCall n with
    | Js.Resolved result => (Js.Resolved result, [GraphService.ApiCalled n])
    | Js.Rejected error =>
        if GraphService.is401 error && (n <? GraphService.MAX_RETRIES)%nat
        then
          match forcedRefresh n with
          | Js.Resolved _ =>
              let '(result, events) :=
                GraphService.handleGraphApiCall A apiCall forcedRefresh (S n) in
              (result,
               GraphService.ApiCalled n :: GraphService.RefreshForced n
                 :: events)
          | Js.Rejected refreshError =>
              (Js.Rejected refreshError,
               [GraphService.ApiCalled n; GraphService.RefreshForced n])
          end
        else (Js.Rejected (GraphService.Thrown error),
              [GraphService.ApiCalled n])
    end.
Proof. exact (handleGraphApiCall_unfold A apiCall forcedRefresh n). Qed.

Section WrapperResults.
Import Js GraphService.

Variable A : Type.
Variable apiCall : nat -> outcome A jsError.
Variable forcedRefresh : nat -> outcome string tokenError.

Local Abbreviation wrapper := (handleGraphApiCall A apiCall forcedRefresh).

Lemma wrapper_result_from (j : nat) :
  forall k,
    (j + k = MAX_RETRIES)%nat ->
    (forall result events,
        wrapper k = (Resolved result, events) ->
        exists n,
          (k <= n <= MAX_RETRIES)%nat
          /\ apiCall n = Resolved result
          /\ (forall m, (k <= m < n)%nat -> recoveredAt A apiCall forcedRefresh m)
          /\ apiCalls events = S (n - k)
          /\ forcedRefreshes events = (n - k)%nat)
    /\ (forall err events,
           wrapper k = (Rejected err, events) ->
           (exists n e, (k <= n <= MAX_RETRIES)%nat
                        /\ apiCall n = Rejected e /\ err = Thrown e)
           \/ (exists n, (k <= n < MAX_RETRIES)%nat
                         /\ forcedRefresh n = Rejected err)).
Proof.
  induction j as [|j IH]; intros k Hk;
    pose proof (wrapper_equation A apiCall forcedRefresh k) as Hwk.
  - assert (Hlast : (k <? MAX_RETRIES)%nat = false)
      by (apply Nat.ltb_ge; lia).
    destruct (apiCall k) as [r|e] eqn:Hcall;
      rewrite ?Hlast, ?andb_false_r in Hwk;
      split; intros res events H; rewrite Hwk in H; try discriminate;
      injection H as <- <-.
    + exists k. replace (k - k)%nat with 0%nat by lia.
      repeat split; try lia; try assumption.
    + left. exists k, e. repeat split; try lia. assumption.
  - destruct (IH (S k) ltac:(lia)) as [IHok IHerr].
    assert (Hlt : (k <? MAX_RETRIES)%nat = true)
      by (apply Nat.ltb_lt; lia).
    destruct (apiCall k) as [r|e] eqn:Hcall; rewrite ?Hlt in Hwk.
    { split; intros res events H; rewrite Hwk in H; try discriminate;
        injection H as <- <-.
      exists k. replace (k - k)%nat with 0%nat by lia.
      repeat split; try lia; try assumption. }
    destruct (is401 e) eqn:H401; cbn [andb] in Hwk.
    2:{ split; intros res events H; rewrite Hwk in H; try discriminate;
          injection H as <- <-.
        left. exists k, e. repeat split; try lia. assumption. }
    destruct (forcedRefresh k) as [token|refreshError] eqn:Hrefresh.
    2:{ split; intros res events H; rewrite Hwk in H; try discriminate;
          injection H as <- <-.
        right. exists k. split; [lia|assumption]. }
    destruct (wrapper (S k)) as [res evs] eqn:Hrest.
    split; intros res' events H; rewrite Hwk in H; injection H as -> <-.
    + destruct (IHok res' evs eq_refl) as [n [Hn [Hres [Hrec [Hcalls Hrefs]]]]].
      exists n. split; [lia|]. split; [exact Hres|]. split.
      * intros m Hm. destruct (Nat.eq_dec m k) as [->|Hne].
        -- exists e, token. now repeat split.
        -- apply Hrec. lia.
      * unfold apiCalls, forcedRefreshes in *. cbn [filter List.length].
        rewrite Hcalls, Hrefs. split; lia.
    + destruct (IHerr res' evs eq_refl) as [[n [e' [Hn He']]]|[n [Hn He']]].
      * left. exists n, e'. split; [lia|exact He'].
      * right. exists n. split; [lia|exact He'].
Qed.

(** X22: a result of the wrapper is never made up. When it resolves, the
    value is what the call returned at some retry count [n <= 2]; every
    call before that failed as Unauthorized and was followed by a forced
    refresh that went through, and the run made [n + 1] calls and forced
    [n] refreshes. When it throws, the error is one the call threw or one
    a forced refresh threw. *)
Theorem wrapper_result_comes_from_a_call :
  (forall result events,
      wrapper 0 = (Resolved result, events) ->
      exists n,
        (n <= MAX_RETRIES)%nat
        /\ apiCall n = Resolved result
        /\ (forall m, (m < n)%nat -> recoveredAt A apiCall forcedRefresh m)
        /\ apiCalls events = S n
        /\ forcedRefreshes events = n)
  /\ (forall err events,
         wrapper 0 = (Rejected err, events) ->
         (exists n e, (n <= MAX_RETRIES)%nat
                      /\ apiCall n = Rejected e /\ err = Thrown e)
         \/ (exists n, (n < MAX_RETRIES)%nat
                       /\ forcedRefresh n = Rejected err)).
Proof.
  destruct (wrapper_result_from MAX_RETRIES 0 ltac:(lia)) as [Hok Herr].
  split.
  - intros result events H.
    destruct (Hok result events H) as [n [Hn [Hres [Hrec [Hcalls Hrefs]]]]].
    exists n. rewrite Nat.sub_0_r in Hcalls, Hrefs.
    repeat split; try lia; try assumption.
    intros m Hm. apply Hrec. lia.
  - intros err events H.
    destruct (Herr err events H) as [[n [e [Hn He]]]|[n [Hn He]]].
    + left. exists n, e. split; [lia|exact He].
    + right. exists n. split; [lia|exact He].
Qed.

End WrapperResults.

(** ** Token exchange and the tasks service *)

Section TokenExchange.
Import Js MicrosoftConfig Database.

(** X23: the exchange of an authorization code succeeds exactly when the
    token endpoint replied with a non-empty access token; the tokens
    returned are then the reply's own, the refresh token as it came (absent
    when the reply had none: nothing is filled in). *)
Theorem getTokensFromCode_resolves_iff (reply : codeReply)
    (tokens : grantedTokens) :
  getTokensFromCode reply = Resolved tokens
  <-> exists access,
        reply = CodeTokenReply (Some access) (granted_refresh_token tokens)
                  (granted_expires_in tokens)
        /\ access <> ""
        /\ granted_access_token tokens = access.
Proof.
  split.
  - destruct reply as [e|err desc|[access|] refresh expires];
      cbn [getTokensFromCode orElse]; try discriminate.
    destruct (String.eqb access "") eqn:Hempty; [discriminate|].
    intro H. injection H as <-. exists access. cbn.
    repeat split. now apply String.eqb_neq.
  - intros [access [-> [Hne Haccess]]]. cbn [getTokensFromCode orElse].
    apply String.eqb_neq in Hne. rewrite Hne.
    destruct tokens as [a r e]. cbn in *. now subst.
Qed.

Variable isTokenExpired : Z -> bool.
Variable determineExpiryDate : Z -> Z.
Variable mapGoogleApiError :
  TasksService.serviceError -> TasksService.serviceError.

(** X24: in the tasks service the token a call returns is the token the
    database holds for the identity afterwards, the records of the other
    identities are as they were, and a call that fails leaves the whole
    database as it was. *)
Theorem tasks_token_returned_is_stored (db db' : Database.t)
    (id : JsString.t) (userLoad lastUsedUpdate : option jsError)
    (reply : tokenEndpointReply) (tokensUpdate : option jsError)
    (result : outcome string TasksService.serviceError) :
  TasksService.getValidAccessToken isTokenExpired determineExpiryDate
    mapGoogleApiError db id userLoad lastUsedUpdate reply tokensUpdate
  = (result, db') ->
  match result with
  | Resolved token =>
      (exists u, getUserByMicrosoftId db' id = Some u
                 /\ accessToken u = token)
      /\ (forall id', id' <> id ->
            getUserByMicrosoftId db' id' = getUserByMicrosoftId db id')
  | Rejected _ => db' = db
  end.
Proof.
  unfold TasksService.getValidAccessToken.
  destruct userLoad as [e|].
  { intro H. now injection H as <- <-. }
  destruct (getUserByMicrosoftId db id) as [u|] eqn:Hu.
  2:{ intro H. now injection H as <- <-. }
  destruct (isTokenExpired (tokenExpiry u)).
  2:{ intro H. injection H as <- <-. split; [now exists u|reflexivity]. }
  destruct (refreshAccessToken (refreshToken u) reply) as [tokens|e].
  2:{ intro H. now injection H as <- <-. }
  destruct tokensUpdate as [e|].
  { intro H. now injection H as <- <-. }
  intro H. injection H as <- <-.
  unfold updateTokens. unfold getUserByMicrosoftId in *. rewrite Hu.
  split.
  - eexists. rewrite JsMap_get_set_same. split; reflexivity.
  - intros id' Hne. apply JsMap_get_set_other. congruence.
Qed.

End TokenExchange.

(** ** Tasks *)

Section TaskProperties.
Import Js TasksService.

Lemma fold_left_listAllTasks
    (taskLists : list (todoList * outcome (option (list todoTask)) jsError))
    (acc : list task) :
  fold_left
    (fun allTasks '(taskList, tasksResponse) =>
       match tasksResponse with
       | Resolved value =>
           let listTasks := match value with Some l => l | None => [] end in
           (allTasks
              ++ map (fun t =>
                        taskOf t (Some (list_displayName taskList))
                          (Some (list_id taskList)))
                   listTasks)%list
       | Rejected _ => allTasks
       end)
    taskLists acc
  = (acc
       ++ flat_map
            (fun '(taskList, tasksResponse) =>
               match tasksResponse with
               | Resolved (Some l) =>
                   map (fun t =>
                          taskOf t (Some (list_displayName taskList))
                            (Some (list_id taskList))) l
               | _ => []
               end)
            taskLists)%list.
Proof.
  revert acc. induction taskLists as [|[l r] rest IH]; intro acc.
  - cbn. now rewrite app_nil_r.
  - cbn [fold_left flat_map]. rewrite IH.
    destruct r as [[raw|]|e]; cbn; rewrite ?app_nil_r, <- ?app_assoc;
      reflexivity.
Qed.

(** X25: once the task lists are known, [listAllTasks] does not fail: a
    list whose tasks cannot be fetched is left out, and the tasks returned
    are exactly the tasks of the lists that replied, each with the name and
    the id of its list. *)
Theorem listAllTasks_skips_failing_lists
    (mapGoogleApiError : serviceError -> serviceError)
    (taskLists : list (todoList * outcome (option (list todoTask)) jsError)) :
  exists tasks,
    listAllTasks mapGoogleApiError (Resolved tt) (Resolved (Some taskLists))
    = Resolved tasks
    /\ forall t,
         In t tasks
         <-> exists l raw r,
               In (l, Resolved (Some raw)) taskLists
               /\ In r raw
               /\ t = taskOf r (Some (list_displayName l)) (Some (list_id l)).
Proof.
  eexists. split.
  - unfold listAllTasks. destruct taskLists as [|p rest] eqn:Hlists.
    + change (@nil task) with
        (flat_map
           (fun '(taskList, tasksResponse) =>
              match tasksResponse with
              | Resolved (Some l) =>
                  map (fun t =>
                         taskOf t (Some (list_displayName taskList))
                           (Some (list_id taskList))) l
              | _ => []
              end)
           (@nil (todoList * outcome (option (list todoTask)) jsError))).
      rewrite <- Hlists. reflexivity.
    + rewrite fold_left_listAllTasks. cbn [app]. rewrite <- Hlists.
      reflexivity.
  - intro t. rewrite in_flat_map. split.
    + intros [[l resp] [Hin Ht]].
      destruct resp as [[raw|]|e]; try contradiction.
      apply in_map_iff in Ht. destruct Ht as [r [<- Hr]].
      now exists l, raw, r.
    + intros [l [raw [r [Hin [Hr ->]]]]].
      exists (l, Resolved (Some raw)). split; [exact Hin|].
      apply in_map_iff. now exists r.
Qed.

(** X26: a status set by [updateTask] reads back. When Graph answers with
    the status the patch carried, the task returned is completed exactly
    when the update asked for completed, and needs action otherwise. *)
Theorem updated_status_reads_back (updates : taskUpdates)
    (client : outcome unit serviceError)
    (remote : taskPatch -> outcome todoTask jsError) (s : string) (t : task) :
  updates_status updates = Some s ->
  (forall body response,
      remote body = Resolved response ->
      todo_status response = patch_status body) ->
  updateTask updates client remote = Resolved t ->
  status t = if String.eqb s "completed" then "completed" else "needsAction".
Proof.
  intros Hs Hecho. unfold updateTask. destruct client as [[]|e];
    [|discriminate].
  destruct (remote (updateTaskBody updates)) as [response|e] eqn:Hr;
    [|discriminate].
  intro H. injection H as <-. cbn [taskOf status].
  rewrite (Hecho _ _ Hr). cbn [updateTaskBody patch_status]. rewrite Hs.
  cbn [statusOf]. now destruct (String.eqb s "completed").
Qed.

Lemma endsWith_appended (x : string) : endsWith (x ++ "Z") "Z" = true.
Proof.
  induction x as [|c x IH]; [reflexivity|].
  cbn [append endsWith]. rewrite IH. apply orb_true_r.
Qed.

Lemma dropLast_appended (x : string) : dropLast (x ++ "Z") = x.
Proof.
  induction x as [|c x IH]; [reflexivity|].
  cbn [append dropLast]. rewrite IH. now destruct x.
Qed.

Lemma endsWith_Z_shape (s : string) :
  endsWith s "Z" = true -> exists x, s = x ++ "Z".
Proof.
  induction s as [|c s IH].
  - cbn. discriminate.
  - cbn [endsWith]. intro H. apply orb_true_iff in H.
    destruct H as [H|H].
    + apply String.eqb_eq in H. exists "". now rewrite H.
    + destruct (IH H) as [x ->]. now exists (String c x).
Qed.

Lemma isDateOnly_not_Z (x : string) : isDateOnly (x ++ "Z") = false.
Proof.
  do 9 (destruct x as [|? x]; [reflexivity|]).
  destruct x as [|? x].
  - cbn [append isDateOnly].
    replace (isDigit "Z") with false by reflexivity.
    now rewrite andb_false_r.
  - now destruct x.
Qed.

Lemma isDateOnly_not_empty (d : string) : isDateOnly d = true -> d <> "".
Proof. now destruct d. Qed.

(** X27: the due date a task is sent with. A timestamp that ends in [Z]
    goes out without the [Z], from [createTask] and from [updateTask]
    alike; a bare date goes out as midnight from [createTask] and as it is
    from [updateTask]. *)
Theorem due_date_sent :
  (forall x,
      x <> "" ->
      createTaskDue (Some (x ++ "Z")) = DueAt x
      /\ updateTaskDue (Some (Some (x ++ "Z"))) = DueAt x)
  /\ (forall d,
         isDateOnly d = true ->
         createTaskDue (Some d) = DueAt (d ++ "T00:00:00")
         /\ updateTaskDue (Some (Some d)) = DueAt d).
Proof.
  split.
  - intros x Hx.
    assert (HxZ : String.eqb (x ++ "Z") "" = false)
      by (apply String.eqb_neq; now destruct x).
    assert (Hx' : String.eqb x "" = false) by now apply String.eqb_neq.
    unfold createTaskDue, updateTaskDue. cbn [MicrosoftConfig.orElse].
    rewrite HxZ, isDateOnly_not_Z, endsWith_appended, dropLast_appended.
    split; [reflexivity|]. cbn [MicrosoftConfig.orElse]. now rewrite Hx'.
  - intros d Hd.
    assert (Hne : String.eqb d "" = false)
      by (apply String.eqb_neq; now apply isDateOnly_not_empty).
    assert (HZ : endsWith d "Z" = false).
    { destruct (endsWith d "Z") eqn:HZ; [|reflexivity].
      destruct (endsWith_Z_shape d HZ) as [x ->].
      now rewrite isDateOnly_not_Z in Hd. }
    unfold createTaskDue, updateTaskDue. cbn [MicrosoftConfig.orElse].
    rewrite Hne, Hd, HZ. split; [reflexivity|].
    cbn [MicrosoftConfig.orElse]. now rewrite Hne.
Qed.

End TaskProperties.

(** ** Mail folders and flags *)

Section MailProperties.
Import Js GraphMail.

Lemma labelIds_parts (m : graphMessage) :
  labelIds m
  = ((match parentFolderId m with
      | Some folderId =>
          if truthy (Str folderId) then
            if truthy
                 (getProp OUTLOOK_TO_GMAIL_FOLDER_MAP (toLowerCase folderId))
            then [getProp OUTLOOK_TO_GMAIL_FOLDER_MAP (toLowerCase folderId)]
            else []
          else []
      | None => []
      end)
       ++ (match isRead m with
           | Some true => []
           | _ => [Str "UNREAD"]
           end)
       ++ (match flagStatus m with
           | Some status =>
               if String.eqb status "flagged" then [Str "STARRED"] else []
           | None => []
           end))%list.
Proof.
  unfold labelIds.
  destruct (parentFolderId m) as [f|];
    [destruct (truthy (Str f));
     [destruct (truthy
                  (getProp OUTLOOK_TO_GMAIL_FOLDER_MAP (toLowerCase f)))|]|];
    destruct (isRead m) as [[|]|];
    (destruct (flagStatus m) as [s|];
     [destruct (String.eqb s "flagged")|]); reflexivity.
Qed.

(** What a folder can be labelled with: one of the five Gmail system
    labels of the table, a member of [Object.prototype], or nothing. *)
Lemma folder_label_values (k : string) :
  match getProp OUTLOOK_TO_GMAIL_FOLDER_MAP k with
  | Str label => In label ["INBOX"; "SENT"; "DRAFT"; "SPAM"; "TRASH"]
  | _ => True
  end.
Proof.
  unfold getProp, OUTLOOK_TO_GMAIL_FOLDER_MAP. cbn [ownProperty].
  repeat match goal with
         | |- context [String.eqb ?a k] => destruct (String.eqb a k)
         end;
    cbn [In]; try tauto.
  now destruct (existsb (String.eqb k) objectPrototypeKeys).
Qed.

Lemma folder_label_not (m : graphMessage) (label : string) :
  ~ In label ["INBOX"; "SENT"; "DRAFT"; "SPAM"; "TRASH"] ->
  ~ In (Str label)
      (match parentFolderId m with
       | Some folderId =>
           if truthy (Str folderId) then
             if truthy
                  (getProp OUTLOOK_TO_GMAIL_FOLDER_MAP (toLowerCase folderId))
             then [getProp OUTLOOK_TO_GMAIL_FOLDER_MAP (toLowerCase folderId)]
             else []
           else []
       | None => []
       end).
Proof.
  intros Hnot Hin. destruct (parentFolderId m) as [f|]; [|exact Hin].
  destruct (truthy (Str f)); [|exact Hin].
  pose proof (folder_label_values (toLowerCase f)) as Hvalues.
  destruct (truthy (getProp OUTLOOK_TO_GMAIL_FOLDER_MAP (toLowerCase f)));
    [|exact Hin].
  destruct Hin as [Heq|[]]. rewrite Heq in Hvalues. now apply Hnot.
Qed.

Lemma unread_iff (m : graphMessage) :
  In (Str "UNREAD") (labelIds m) <-> isRead m <> Some true.
Proof.
  rewrite labelIds_parts, !in_app_iff. split.
  - intros [H|[H|H]].
    + exfalso. revert H. apply folder_label_not.
      cbn [In]. intuition discriminate.
    + destruct (isRead m) as [[|]|]; [destruct H|discriminate..].
    + destruct (flagStatus m) as [s|]; [|destruct H].
      destruct (String.eqb s "flagged"); [|destruct H].
      destruct H as [H|[]]. discriminate.
  - intro H. right. left.
    destruct (isRead m) as [[|]|]; [now elim H|now left..].
Qed.

Lemma starred_iff (m : graphMessage) :
  In (Str "STARRED") (labelIds m) <-> flagStatus m = Some "flagged".
Proof.
  rewrite labelIds_parts, !in_app_iff. split.
  - intros [H|[H|H]].
    + exfalso. revert H. apply folder_label_not.
      cbn [In]. intuition discriminate.
    + destruct (isRead m) as [[|]|]; [destruct H|..];
        destruct H as [H|[]]; discriminate.
    + destruct (flagStatus m) as [s|]; [|destruct H].
      destruct (String.eqb s "flagged") eqn:Hs; [|destruct H].
      apply String.eqb_eq in Hs. now subst.
  - intro H. right. right. rewrite H. now left.
Qed.

(** X28: what [toggleStar] and [markAsRead] set is what the conversion of
    a message reads. When [toggleStar] succeeds it has handed one flag
    status to Graph, and a message with that status is labelled STARRED
    exactly when it was asked to star; when [markAsRead] succeeds, a
    message with the [isRead] it sent is labelled UNREAD exactly when it
    was asked to mark unread. *)
Theorem star_and_read_come_back (error : Type)
    (mapGoogleApiError : error -> string -> error)
    (client remote : outcome unit error) (asked : bool) :
  (forall result sent,
      toggleStar error mapGoogleApiError asked client remote
      = (Resolved result, sent) ->
      result = asked
      /\ exists status,
           sent = [status]
           /\ forall m,
                flagStatus m = Some status ->
                (In (Str "STARRED") (labelIds m) <-> asked = true))
  /\ (forall result sent,
         markAsRead error mapGoogleApiError asked client remote
         = (Resolved result, sent) ->
         result = asked
         /\ sent = [asked]
         /\ forall m,
              isRead m = Some asked ->
              (In (Str "UNREAD") (labelIds m) <-> asked = false)).
Proof.
  split; intros result sent; [unfold toggleStar|unfold markAsRead];
    destruct client as [[]|e]; try discriminate;
    destruct remote as [[]|e]; try discriminate;
    intro H; injection H as <- <-; (split; [reflexivity|]).
  - eexists. split; [reflexivity|]. intros m Hm.
    rewrite starred_iff, Hm. destruct asked; split; intro H;
      try reflexivity; discriminate.
  - split; [reflexivity|]. intros m Hm.
    rewrite unread_iff, Hm. destruct asked; split; intro H;
      try reflexivity; try discriminate. now elim H.
Qed.

Lemma targetFolder_cases (label : string) :
  (exists folder,
      In (folder, label)
        [("inbox", "INBOX"); ("sentitems", "SENT"); ("drafts", "DRAFT");
         ("junkemail", "SPAM"); ("deleteditems", "TRASH")]
      /\ targetFolder label = Str folder)
  \/ targetFolder label = Str label
  \/ (targetFolder label = Proto label /\ label <> "").
Proof.
  unfold targetFolder, GMAIL_TO_OUTLOOK_FOLDER_MAP. cbn [ownEntry].
  repeat match goal with
         | |- context [String.eqb ?a label] =>
             let H := fresh "H" in
             destruct (String.eqb a label) eqn:H;
             [apply String.eqb_eq in H; subst label;
              first [ now (right; left)
                    | left; eexists; split; [|reflexivity]; cbn [In];
                      tauto ]|clear H]
         end.
  destruct (existsb (String.eqb label) objectPrototypeKeys) eqn:Hp;
    [|now (right; left)].
  right. right. split; [reflexivity|]. intros ->. discriminate.
Qed.

(** X29: the two folder tables are each other's inverse, and a move is
    read back as the label it was asked for. Every folder of the Outlook
    table is the target of its Gmail label; and when the target of a label
    is another name than the label, a message whose parent folder is that
    target converts with the label first. *)
Theorem moved_message_carries_the_label :
  (forall folder label,
      ownProperty OUTLOOK_TO_GMAIL_FOLDER_MAP folder = Some label ->
      targetFolder label = Str folder)
  /\ (forall label folder m,
         targetFolder label = Str folder ->
         folder <> label ->
         parentFolderId m = Some folder ->
         hd_error (labelIds m) = Some (Str label)).
Proof.
  split.
  - intros folder label. unfold OUTLOOK_TO_GMAIL_FOLDER_MAP.
    cbn [ownProperty].
    repeat match goal with
           | |- context [String.eqb ?a folder] =>
               let H := fresh "H" in
               destruct (String.eqb a folder) eqn:H;
               [apply String.eqb_eq in H; subst folder;
                intro Hl; injection Hl as <-; reflexivity|clear H]
           end.
    discriminate.
  - intros label folder m Htarget Hne Hparent.
    rewrite labelIds_parts, Hparent.
    destruct (targetFolder_cases label)
      as [[f [Hin Hf]]|[Hself|[Hproto _]]].
    + rewrite Hf in Htarget. injection Htarget as <-.
      cbn [In] in Hin.
      repeat (destruct Hin as [Hin|Hin];
              [injection Hin as <- <-; reflexivity|]).
      destruct Hin.
    + rewrite Hself in Htarget. injection Htarget as <-. now elim Hne.
    + rewrite Hproto in Htarget. discriminate.
Qed.


End MailProperties.

(** * The further properties at concrete inputs *)


(** [parseInt] and the backoff formula at the edges of double
    arithmetic: a numeral past [2^53] is read as the nearest double; a
    leading no-break space is skipped like any white space; and a base
    delay of 0 at the 1025th attempt is [0 * Infinity], not a number. *)
Example parseInt_past_2_53 :
  GraphRetry.parseInt "9007199254740993"
  = JsNumber.Fin (9007199254740992 * JsNumber.ONE).
Proof. vm_compute. reflexivity. Qed.

Example parseInt_skips_no_break_space :
  GraphRetry.parseInt (String (ascii_of_nat 160) "7") = JsNumber.ofZ 7.
Proof. vm_compute. reflexivity. Qed.

Example backoff_of_zero_base_at_attempt_1025 :
  GraphRetry.calculateBackoffDelay 1025 (JsNumber.ofZ 0)
    (JsNumber.ofZ 32000) (JsNumber.ofZ 1000) (JsNumber.Fin 0)
  = JsNumber.NaN.
Proof. vm_compute. reflexivity. Qed.

(** The default backoff with a draw of 0.5: the wait before the third
    retry is not shorter than the wait before the first. *)
Lemma backoff_third_attempt_not_shorter :
  JsNumber.le
    (GraphRetry.calculateBackoffDelay 1 (JsNumber.ofZ 1000)
       (JsNumber.ofZ 32000) (JsNumber.ofZ 1000) (JsNumber.Fin (2 ^ 1073)))
    (GraphRetry.calculateBackoffDelay 3 (JsNumber.ofZ 1000)
       (JsNumber.ofZ 32000) (JsNumber.ofZ 1000) (JsNumber.Fin (2 ^ 1073)))
  = true.
Proof.
  apply (proj1
           (calculateBackoffDelay_never_shrinks 1 3 (JsNumber.ofZ 1000)
              (JsNumber.ofZ 32000) (JsNumber.ofZ 1000)
              (JsNumber.Fin (2 ^ 1073))
              ltac:(lia)
              ltac:(vm_compute; reflexivity)
              ltac:(vm_compute; reflexivity)
              ltac:(vm_compute; reflexivity)
              ltac:(vm_compute; reflexivity)
              ltac:(right; lia))).
Defined.

(** [Retry-After: 120]: a wait of 120000 ms. *)
Lemma retry_after_120_is_two_minutes :
  let throttled :=
    {| Js.statusCode := Some 429%Z; Js.code := None; Js.bodyErrorCode := None;
       Js.message := None; Js.headersRetryAfter := Some "120";
       Js.responseHeadersRetryAfter := None |} in
  GraphRetry.retryDelay (JsNumber.ofZ 0) (fun _ => JsNumber.NaN)
    (fun _ => JsNumber.ofZ 0) GraphRetry.DEFAULT_CONFIG 1 throttled
  = JsNumber.Fin (120 * 1000 * JsNumber.ONE).
Proof.
  intro throttled.
  apply (proj2
           (proj2 (proj2
              (retry_after_numeral_is_seconds (JsNumber.ofZ 0)
                 (fun _ => JsNumber.NaN) throttled 120
                 ltac:(left; vm_compute; reflexivity)))
              (fun _ => JsNumber.ofZ 0) GraphRetry.DEFAULT_CONFIG 1%nat)).
  vm_compute. reflexivity.
Defined.

(** W. Europe Standard Time goes to Europe/Berlin and comes back. *)
Lemma w_europe_comes_back :
  Timezone.convertIANAToWindows
    (Timezone.convertWindowsToIANA (Js.Str "W. Europe Standard Time"))
  = Js.Str "W. Europe Standard Time".
Proof.
  apply (proj1
           (windows_name_round_trip (Js.Str "W. Europe Standard Time")
              ltac:(vm_compute; reflexivity))).
Defined.

(** A name the table does not have is converted to a supported name. *)
Lemma unknown_zone_converts_to_a_supported_name :
  Timezone.isValidWindowsTimezone
    (Timezone.convertIANAToWindows (Js.Str "Mars/Olympus_Mons"))
  = true.
Proof.
  apply (proj1
           (converters_return_supported_names "Mars/Olympus_Mons"
              ltac:(intro H; simpl in H;
                    repeat (destruct H as [H|H]; [discriminate H|]);
                    exact H))).
Defined.

(** A meeting at ten in Prague. *)
Lemma prague_meeting_keeps_its_time :
  let d :=
    {| Timezone.dateTime := Js.Str "2025-01-01T10:00:00";
       Timezone.timeZone := Js.Str "Europe/Prague" |} in
  Timezone.dateTime
    (Timezone.convertDateTimeToGoogle (Timezone.convertDateTimeToMicrosoft d))
  = Timezone.dateTime d.
Proof.
  intro d.
  apply (proj1
           (zoned_date_time_stable d "Europe/Prague" eq_refl
              ltac:(intro H; simpl in H;
                    repeat (destruct H as [H|H]; [discriminate H|]);
                    exact H))).
Defined.

(** A first call at time 0 caches the folders at time 10; a call at time 20
    is served from the cache although Graph would fail. *)
Lemma second_listLabels_served_from_cache :
  let u1 := JsString.ofString "u1" in
  let inbox :=
    {| GraphCaches.folderId := "inbox"; GraphCaches.folderName := "Inbox";
       GraphCaches.messagesTotal := 12; GraphCaches.messagesUnread := 3 |} in
  let st :=
    {| GraphCaches.activeRefreshes := [];
       GraphCaches.folderDirectoryCache := [];
       GraphCaches.userAddressCache := [] |} in
  let st1 :=
    snd (fst (GraphCaches.listLabels unit (fun e _ => e) st u1 0
                (Js.Resolved [inbox], 10%Z))) in
  GraphCaches.listLabels unit (fun e _ => e) st1 u1 20 (Js.Rejected tt, 20%Z)
  = (Js.Resolved [inbox], st1, 0%nat).
Proof.
  intros u1 inbox st.
  apply (proj2
           (listLabels_serves_what_it_fetched unit (fun e _ => e) st u1 0 10
              20 [inbox] (Js.Rejected tt, 20%Z)
              ltac:(vm_compute; reflexivity) ltac:(vm_compute; reflexivity))).
Defined.

(** A lookup for [u1] leaves the cached addresses of [u2] in place. *)
Lemma lookup_for_u1_keeps_u2 :
  let u1 := JsString.ofString "u1" in
  let u2 := JsString.ofString "u2" in
  let st :=
    {| GraphCaches.activeRefreshes := [];
       GraphCaches.folderDirectoryCache := [];
       GraphCaches.userAddressCache :=
         [(u2, {| GraphCaches.payload := ["u2@example.com"];
                  GraphCaches.timestamp := 1000 |})] |} in
  let st' :=
    snd (fst (GraphCaches.getUserAddresses unit (fun e _ => e) st u1 2000
                (Js.Resolved ["u1@example.com"], 2000%Z))) in
  JsMap.get (GraphCaches.userAddressCache st') u2
  = JsMap.get (GraphCaches.userAddressCache st) u2.
Proof.
  intros u1 u2 st.
  apply (proj1
           (proj2
              (lookups_leave_other_identities_alone unit (fun e _ => e) st
                 u1 u2 2000
                 ltac:(intro H; vm_compute in H; discriminate H))
              (Js.Resolved ["u1@example.com"], 2000%Z))).
Defined.

(** After [createLabel] the cached folder list of [u1] is not used. *)
Lemma listLabels_after_createLabel_asks_graph :
  let u1 := JsString.ofString "u1" in
  let st :=
    {| GraphCaches.activeRefreshes := [];
       GraphCaches.folderDirectoryCache :=
         [(u1, {| GraphCaches.payload := []; GraphCaches.timestamp := 1000 |})];
       GraphCaches.userAddressCache := [] |} in
  let st' :=
    snd (GraphCaches.createLabel unit (fun e _ => e) st u1
           (Js.Resolved ("f1", "Invoices"))) in
  snd (GraphCaches.listLabels unit (fun e _ => e) st' u1 1001
         (Js.Rejected tt, 1001%Z))
  = 1%nat.
Proof.
  intros u1 st.
  apply (proj1
           (createLabel_invalidates_folder_cache unit (fun e _ => e) st u1
              "f1" "Invoices"
              ltac:(simpl; constructor; [intros []|constructor]))
           1001%Z (Js.Rejected tt, 1001%Z)).
Defined.

(** A refresh whose reply carries no refresh token leaves a refresh token
    that is not empty in the record. *)
Lemma refresh_without_rotation_keeps_a_token :
  String.eqb
    (Database.refreshToken
       {| Database.accessToken := "new-access";
          Database.refreshToken := "old-refresh";
          Database.tokenExpiry := 3600000 |})
    ""
  = false.
Proof.
  apply String.eqb_neq.
  apply (stored_refresh_token_never_empty Scenario.isTokenExpired
           Scenario.determineExpiryDate Scenario.expiring
           (GraphService.refreshRun Scenario.u1 false
              (MicrosoftConfig.TokenReply "new-access" None 3600))
           ltac:(intros id u H;
                 unfold Database.getUserByMicrosoftId, Scenario.expiring in H;
                 simpl in H;
                 match type of H with
                 | (if ?b then _ else _) = _ => destruct b
                 end;
                 [injection H as <-; discriminate|discriminate H])
           Scenario.u1).
  vm_compute. reflexivity.
Defined.

(** Up to the reply of the token endpoint the database is as it was. *)
Lemma database_unchanged_before_the_write :
  GraphService.database
    (GraphService.run Scenario.isTokenExpired Scenario.determineExpiryDate
       (GraphService.atRest Scenario.expiring)
       [GraphService.Call Scenario.u1 false; GraphService.UserLoaded 0 None;
        GraphService.EndpointReplied 0
          (MicrosoftConfig.TokenReply "new-access" None 3600)])
  = Scenario.expiring.
Proof.
  apply (database_written_only_by_refresh Scenario.isTokenExpired
           Scenario.determineExpiryDate
           (GraphService.atRest Scenario.expiring)
           [GraphService.Call Scenario.u1 false;
            GraphService.UserLoaded 0 None;
            GraphService.EndpointReplied 0
              (MicrosoftConfig.TokenReply "new-access" None 3600)]
           ltac:(intros p H; simpl in H;
                 repeat (destruct H as [H|H]; [discriminate H|]);
                 exact H)).
Defined.

(** The owner of a refresh that went through resumes and removes the
    entry. *)
Lemma owner_resumes_after_the_write :
  let w :=
    GraphService.run Scenario.isTokenExpired Scenario.determineExpiryDate
      (GraphService.atRest Scenario.expiring)
      [GraphService.Call Scenario.u1 false; GraphService.UserLoaded 0 None;
       GraphService.EndpointReplied 0
         (MicrosoftConfig.TokenReply "new-access" None 3600);
       GraphService.TokensUpdated 0 None] in
  let w' :=
    GraphService.step Scenario.isTokenExpired Scenario.determineExpiryDate w
      (GraphService.Resumed 0) in
  nth_error (GraphService.calls w') 0
  = Some (GraphService.Returned (Js.Resolved "new-access"))
  /\ JsMap.get (GraphService.activeRefreshes w') Scenario.u1 = None.
Proof.
  intros w w'.
  pose proof
    (owner_resumes_and_clears_entry Scenario.isTokenExpired
       Scenario.determineExpiryDate Scenario.expiring
       [GraphService.Call Scenario.u1 false; GraphService.UserLoaded 0 None;
        GraphService.EndpointReplied 0
          (MicrosoftConfig.TokenReply "new-access" None 3600);
        GraphService.TokensUpdated 0 None]
       0%nat 0%nat Scenario.u1 (Js.Resolved "new-access")
       ltac:(vm_compute; reflexivity) ltac:(vm_compute; reflexivity)) as H.
  exact (conj (proj1 H) (proj1 (proj2 H))).
Defined.

(** A call made while the refresh of [u1] is in flight posts nothing. *)
Lemma call_during_refresh_posts_nothing :
  let w :=
    GraphService.run Scenario.isTokenExpired Scenario.determineExpiryDate
      (GraphService.atRest Scenario.expiring)
      [GraphService.Call Scenario.u1 false; GraphService.UserLoaded 0 None] in
  let w1 :=
    GraphService.step Scenario.isTokenExpired Scenario.determineExpiryDate w
      (GraphService.Call Scenario.u1 false) in
  GraphService.tokenRequests w1 = GraphService.tokenRequests w.
Proof.
  intros w w1.
  apply (proj1 (proj2
           (late_call_joins_the_refresh Scenario.isTokenExpired
              Scenario.determineExpiryDate w Scenario.u1 false 0%nat
              ltac:(vm_compute; reflexivity)))).
Defined.

(** The tasks service after a refresh: the new token is the stored one. *)
Lemma tasks_refresh_stores_the_token_it_returns :
  exists u,
    Database.getUserByMicrosoftId
      [(Scenario.u1,
        {| Database.accessToken := "new-access";
           Database.refreshToken := "old-refresh";
           Database.tokenExpiry := 3600000 |})]
      Scenario.u1
    = Some u
    /\ Database.accessToken u = "new-access".
Proof.
  apply (proj1
           (tasks_token_returned_is_stored Scenario.isTokenExpired
              Scenario.determineExpiryDate (fun e => e) Scenario.expiring
              [(Scenario.u1,
                {| Database.accessToken := "new-access";
                   Database.refreshToken := "old-refresh";
                   Database.tokenExpiry := 3600000 |})]
              Scenario.u1 None None
              (MicrosoftConfig.TokenReply "new-access" None 3600) None
              (Js.Resolved "new-access")
              ltac:(vm_compute; reflexivity))).
Defined.

(** Marking a task completed, Graph answering with the patched status. *)
Lemma completed_task_reads_completed :
  TasksService.status
    {| TasksService.id := "t1"; TasksService.title := "Pay the invoice";
       TasksService.notes := ""; TasksService.due := None;
       TasksService.status := "completed";
       TasksService.taskList := None; TasksService.taskListId := None |}
  = "completed".
Proof.
  apply (updated_status_reads_back
           {| TasksService.updates_status := Some "completed";
              TasksService.updates_title := None;
              TasksService.updates_notes := None;
              TasksService.updates_due := None |}
           (Js.Resolved tt)
           (fun body =>
              Js.Resolved
                {| TasksService.todo_id := "t1";
                   TasksService.todo_title := "Pay the invoice";
                   TasksService.todo_content := None;
                   TasksService.todo_dateTime := None;
                   TasksService.todo_status :=
                     TasksService.patch_status body |})
           "completed" _ eq_refl
           ltac:(intros body response H; injection H as <-; reflexivity)
           ltac:(vm_compute; reflexivity)).
Defined.

(** A flush of the folders: the next [listLabels] goes to Graph. *)
Lemma listLabels_after_flush_asks_graph :
  let u1 := JsString.ofString "u1" in
  let st :=
    {| GraphCaches.activeRefreshes := [];
       GraphCaches.folderDirectoryCache :=
         [(u1, {| GraphCaches.payload := []; GraphCaches.timestamp := 1000 |})];
       GraphCaches.userAddressCache := [] |} in
  let st' := snd (GraphCaches.flushDebugCaches st (Some ["folders"])) in
  snd (GraphCaches.listLabels unit (fun e _ => e) st' u1 1001
         (Js.Rejected tt, 1001%Z))
  = 1%nat.
Proof.
  intros u1 st.
  apply (proj2
           (proj1
              (flush_then_lookups_go_to_graph unit (fun e _ => e) st
                 (Some ["folders"]))
              1%nat ltac:(vm_compute; reflexivity))
           u1 1001%Z (Js.Rejected tt, 1001%Z)).
Defined.

(** A forced call on a token that is still good posts the stored refresh
    token. *)
Lemma forced_call_posts_the_stored_refresh_token :
  GraphService.tokenRequests
    (GraphService.run Scenario.isTokenExpired Scenario.determineExpiryDate
       (GraphService.atRest Scenario.valid)
       [GraphService.Call Scenario.u1 true; GraphService.UserLoaded 0 None])
  = [(Scenario.u1, "old-refresh")].
Proof.
  apply (proj1
           (proj2 (proj2
                     (lone_call_by_record Scenario.isTokenExpired
                        Scenario.determineExpiryDate Scenario.valid
                        Scenario.u1))
              {| Database.accessToken := "old-access";
                 Database.refreshToken := "old-refresh";
                 Database.tokenExpiry := 3600000 |}
              ltac:(vm_compute; reflexivity))).
Defined.

(** A call that is Unauthorized once and then answers: the answer is that
    of the second call. *)
Lemma wrapper_answer_is_the_second_call :
  let unauthorized :=
    {| Js.statusCode := Some 401%Z; Js.code := None; Js.bodyErrorCode := None;
       Js.message := None; Js.headersRetryAfter := None;
       Js.responseHeadersRetryAfter := None |} in
  let apiCall :=
    fun n : nat =>
      if (n <? 1)%nat then Js.Rejected unauthorized else Js.Resolved "mail" in
  let forcedRefresh :=
    fun _ : nat => @Js.Resolved string GraphService.tokenError "fresh-token" in
  exists n,
    (n <= GraphService.MAX_RETRIES)%nat
    /\ apiCall n = Js.Resolved "mail"
    /\ (forall m, (m < n)%nat ->
                  GraphService.recoveredAt string apiCall forcedRefresh m)
    /\ GraphService.apiCalls
         [GraphService.ApiCalled 0; GraphService.RefreshForced 0;
          GraphService.ApiCalled 1]
       = S n
    /\ GraphService.forcedRefreshes
         [GraphService.ApiCalled 0; GraphService.RefreshForced 0;
          GraphService.ApiCalled 1]
       = n.
Proof.
  intros unauthorized apiCall forcedRefresh.
  apply (proj1
           (wrapper_result_comes_from_a_call string apiCall forcedRefresh)
           "mail"
           [GraphService.ApiCalled 0; GraphService.RefreshForced 0;
            GraphService.ApiCalled 1]).
  vm_compute. reflexivity.
Defined.

(** A UTC timestamp is sent to Microsoft To Do without its [Z]. *)
Lemma utc_due_date_loses_its_Z :
  TasksService.createTaskDue (Some "2025-01-01T10:00:00Z")
  = TasksService.DueAt "2025-01-01T10:00:00".
Proof.
  apply (proj1
           (proj1 due_date_sent "2025-01-01T10:00:00"
              ltac:(discriminate))).
Defined.

(** Starring a message. *)
Lemma starred_message_is_labelled_starred :
  true = true
  /\ exists status,
       ["flagged"] = [status]
       /\ forall m,
            GraphMail.flagStatus m = Some status ->
            (In (Js.Str "STARRED") (GraphMail.labelIds m) <-> true = true).
Proof.
  apply (proj1
           (star_and_read_come_back unit (fun e _ => e) (Js.Resolved tt)
              (Js.Resolved tt) true)
           true ["flagged"]).
  reflexivity.
Defined.

(** A message moved to the trash converts with the label TRASH. *)
Lemma trashed_message_is_labelled_trash :
  hd_error
    (GraphMail.labelIds
       {| GraphMail.parentFolderId := Some "deleteditems";
          GraphMail.isRead := Some true;
          GraphMail.flagStatus := None |})
  = Some (Js.Str "TRASH").
Proof.
  apply (proj2 moved_message_carries_the_label "TRASH" "deleteditems"
           {| GraphMail.parentFolderId := Some "deleteditems";
              GraphMail.isRead := Some true;
              GraphMail.flagStatus := None |}
           ltac:(vm_compute; reflexivity) ltac:(discriminate) eq_refl).
Defined.

